(** * The [valueset] command of the ComplyLight CLI

    A shallow embedding of the VSAC value-set download pipeline of the
    command line tool (the [valueset] action, [normalizeVsacId],
    [fetchValueSetDefinition], [fetchValueSetExpansion],
    [mergeExpansionPages], [deriveVsacVersion], [writeValueSetFiles] and
    [postValueSetsToHapi]), with the properties its design document
    states about it.

    Conventions.
    - A JavaScript value that may be [undefined] is an [option]; the
      truthiness tests of the source ([x || y], [!x], [if (x)]) are written
      out with [truthy], [or_else] and [falsy_num].
    - The file system, the console and the network are a [World]: the files
      as a finite map from path to JSON document, and a chronological
      [trace] of the effects performed. The remote services are a
      [Network]: any function from the history of a run and a request to
      an answer.
    - Code that can throw is in the monad [M]: a state monad over [World]
      whose result is a value, a thrown [JsError], or [Diverge] when the
      page loop of [fetchValueSetExpansion] was cut off by its fuel.
    - The concurrent part, the pool of [next] calls, is a transition
      system over [Pool], the variables the calls share.
    - The disk under the output files is part of the [Network] as well:
      whether [fs.mkdirSync] and [fs.writeFileSync] of
      [writeValueSetFiles] succeed is its answer, and the path of an
      output file is the one [path.join] makes, normalized.

    What is taken for granted: a resource is a JSON object (never a falsy
    value), the body of an error response is an [OperationOutcome] or
    nothing, creating the cache directory and writing a cache file
    succeed, and for a cache file [path.join] has only to put a
    directory and a file name together. *)

From Stdlib Require Import ZArith Lia List String Ascii Bool Permutation.
From stdpp Require Import base option list strings gmap pretty.

Local Open Scope string_scope.

(** ** JavaScript helpers *)

(** Truthiness of a string that may be [undefined]: the empty string is
    falsy as well. *)
Definition truthy (o : option string) : bool :=
  match o with
  | Some s => negb (String.eqb s "")
  | None => false
  end.

(** [a || d] where [d] is a string literal. *)
Definition or_else (o : option string) (d : string) : string :=
  match o with
  | Some s => if String.eqb s "" then d else s
  | None => d
  end.

(** [a || b] where both may be [undefined]. *)
Definition or_opt (a b : option string) : option string :=
  if truthy a then a else b.

(** [path.join(dir, name)] for a directory and a plain file name. *)
Definition path_join (dir name : string) : string := dir +:+ "/" +:+ name.

(** [path.join(a, b)] of Node on a POSIX system, in full: the parts that
    are not empty are put together with a [/], and the result is
    normalized segment by segment. *)

(** The segments of a path, [path.split('/')]. *)
Fixpoint split_slash (s : string) : list string :=
  match s with
  | EmptyString => [EmptyString]
  | String c s' =>
      if Ascii.eqb c "/" then EmptyString :: split_slash s'
      else
        match split_slash s' with
        | seg :: segs => String c seg :: segs
        | [] => [String c EmptyString]
        end
  end.

(** [normalizeString]: empty segments and [.] are dropped, [..] takes
    back the segment before it, or is kept when there is none and the
    path is relative. [res] holds the segments kept so far, the last one
    first. *)
Fixpoint normalizeString (allowAboveRoot : bool) (res segs : list string)
  : list string :=
  match segs with
  | [] => res
  | seg :: rest =>
      if String.eqb seg "" || String.eqb seg "." then
        normalizeString allowAboveRoot res rest
      else if String.eqb seg ".." then
        match res with
        | top :: below =>
            if String.eqb top ".." then
              normalizeString allowAboveRoot
                (if allowAboveRoot then ".." :: res else res) rest
            else normalizeString allowAboveRoot below rest
        | [] =>
            normalizeString allowAboveRoot
              (if allowAboveRoot then [".."] else []) rest
        end
      else normalizeString allowAboveRoot (seg :: res) rest
  end.

Definition starts_with_slash (s : string) : bool :=
  match s with
  | String c _ => Ascii.eqb c "/"
  | EmptyString => false
  end.

Fixpoint ends_with_slash (s : string) : bool :=
  match s with
  | EmptyString => false
  | String c EmptyString => Ascii.eqb c "/"
  | String _ s' => ends_with_slash s'
  end.

(** [path.normalize(path)] *)
Definition normalize (path : string) : string :=
  if String.eqb path "" then "."
  else
    let isAbsolute := starts_with_slash path in
    let trailingSeparator := ends_with_slash path in
    let body :=
      String.concat "/"
        (rev (normalizeString (negb isAbsolute) [] (split_slash path))) in
    if String.eqb body "" then
      if isAbsolute then "/" else if trailingSeparator then "./" else "."
    else
      (if isAbsolute then "/" else "") +:+ body
      +:+ (if trailingSeparator then "/" else "").

Definition posix_join (a b : string) : string :=
  let joined :=
    if String.eqb a "" then b
    else if String.eqb b "" then a
    else a +:+ "/" +:+ b in
  if String.eqb joined "" then "." else normalize joined.

(** ** Errors and results *)

(** An element of [OperationOutcome.issue]. *)
Record Issue := { diagnostics : option string }.

(** The body of an error response, a FHIR [OperationOutcome]. *)
Record OperationOutcome := { issue : option (list Issue) }.

(** [e.response] of an axios error. *)
Record HttpResponse := {
  status : Z;
  data : option OperationOutcome
}.

(** A thrown value: an [Error] with its [message], and for an axios error
    that got an answer from the server, the [response]. *)
Record JsError := {
  message : string;
  response : option HttpResponse
}.

(** [new Error(msg)] *)
Definition new_Error (msg : string) : JsError :=
  {| message := msg; response := None |}.

Inductive Result (A : Type) : Type :=
| Ok (a : A)
| Throw (e : JsError)
| Diverge.
Arguments Ok {A} a.
Arguments Throw {A} e.
Arguments Diverge {A}.

(** ** The identifier normalizer

    [id.match(/([0-9]+\.[0-9.]+)/)]: the leftmost position where a run of
    digits is followed by a dot and by one more character that is a digit
    or a dot; both runs are greedy. Backtracking into the first run never
    helps (a shorter run of digits is followed by a digit, not by a dot),
    so the matcher takes the longest run at each position. *)

Definition is_digit (c : ascii) : bool :=
  (48 <=? nat_of_ascii c)%nat && (nat_of_ascii c <=? 57)%nat.

Definition is_dot (c : ascii) : bool := Ascii.eqb c ".".

Definition is_digit_or_dot (c : ascii) : bool := is_digit c || is_dot c.

(** The longest prefix whose characters satisfy [p], and the rest. *)
Fixpoint span (p : ascii -> bool) (s : list ascii) : list ascii * list ascii :=
  match s with
  | c :: s' =>
      if p c then let '(a, b) := span p s' in (c :: a, b) else ([], s)
  | [] => ([], [])
  end.

(** The regular expression anchored at the head of [s]. *)
Definition match_here (s : list ascii) : option (list ascii) :=
  match span is_digit s with
  | (d :: ds, dot :: r) =>
      if is_dot dot then
        match span is_digit_or_dot r with
        | (t :: ts, _) => Some ((d :: ds) ++ dot :: t :: ts)%list
        | ([], _) => None
        end
      else None
  | _ => None
  end.

(** The unanchored search, left to right. *)
Fixpoint regex_search (s : list ascii) : option (list ascii) :=
  match match_here s with
  | Some m => Some m
  | None =>
      match s with
      | _ :: s' => regex_search s'
      | [] => None
      end
  end.

Definition normalizeVsacId (id : string) : Result string :=
  match regex_search (list_ascii_of_string id) with
  | Some m => Ok (string_of_list_ascii m)
  | None => Throw (new_Error ("Could not extract OID from '" +:+ id +:+ "'"))
  end.

(** ** Resources *)

(** A member of an expansion ([contains[i]]); its content is not inspected. *)
Definition Code := string.

Module Expansion.
(** [resource.expansion] *)
Record t := {
  identifier : option string;
  total : option Z;
  contains : option (list Code)
}.
End Expansion.

Module ValueSet.
(** A ValueSet resource, or one page of its expansion: the fields the
    pipeline reads, and the rest of the envelope in [other]. *)
Record t := {
  resourceType : string;
  id : option string;
  version : option string;
  expansion : option Expansion.t;
  other : list (string * string)
}.
End ValueSet.

(** [page.expansion?.contains?.length || 0] *)
Definition contains_length (page : ValueSet.t) : nat :=
  match ValueSet.expansion page with
  | Some e =>
      match Expansion.contains e with
      | Some l => length l
      | None => 0
      end
  | None => 0
  end.

(** [p.expansion?.contains || []] *)
Definition contains_or_empty (p : ValueSet.t) : list Code :=
  match ValueSet.expansion p with
  | Some e => default [] (Expansion.contains e)
  | None => []
  end.

(** [page.expansion?.total] *)
Definition page_total (page : ValueSet.t) : option Z :=
  match ValueSet.expansion page with
  | Some e => Expansion.total e
  | None => None
  end.

(** [!total] for a number that may be [undefined]. *)
Definition falsy_num (n : option Z) : bool :=
  match n with
  | Some z => (z =? 0)%Z
  | None => true
  end.

(** [got >= total]; a comparison with [undefined] is false. *)
Definition reached (got : nat) (total : option Z) : bool :=
  match total with
  | Some z => (z <=? Z.of_nat got)%Z
  | None => false
  end.

(** ** The world: files, console and network *)

Record BundleEntry := {
  resource : ValueSet.t;
  request_method : string;
  request_url : string
}.

Record Bundle := {
  bundle_resourceType : string;
  bundle_type : string;
  entry : list BundleEntry
}.

Inductive PostBody :=
| PostResource (r : ValueSet.t)
| PostBundle (b : Bundle).

Inductive GetReply :=
| GetOk (page : ValueSet.t)
| GetFail (e : JsError).

Inductive PostReply :=
| PostOk (status : Z) (statusText : string)
| PostFail (e : JsError).

(** The effects of a run. A request is recorded with the answer it got. *)
Inductive event :=
| NetGet (url : string) (reply : GetReply)
| NetPost (url : string) (body : PostBody) (reply : PostReply)
| Sleep (ms : Z)
| MkDir (dir : string)
| WriteFile (path : string) (doc : ValueSet.t)
| ConsoleLog (line : string)
| ConsoleError (line : string).

(** Files hold JSON documents: [JSON.parse (JSON.stringify d)] is [d]. *)
Record World := {
  fs : gmap string ValueSet.t;
  trace : list event
}.

Definition emit (e : event) (w : World) : World :=
  {| fs := fs w; trace := trace w ++ [e] |}.

(** [fs.writeFileSync(path, JSON.stringify(doc, null, 2))] *)
Definition writeFileSync (path : string) (doc : ValueSet.t) (w : World) : World :=
  {| fs := <[path := doc]> (fs w); trace := trace w ++ [WriteFile path doc] |}.

Definition gets (tr : list event) : list string :=
  omap (fun e => match e with NetGet u _ => Some u | _ => None end) tr.

Definition posts (tr : list event) : list (string * PostBody) :=
  omap (fun e => match e with NetPost u b _ => Some (u, b) | _ => None end) tr.

Definition sleeps (tr : list event) : list Z :=
  omap (fun e => match e with Sleep ms => Some ms | _ => None end) tr.

(** The client made by [buildVsacAxios]. *)
Record Client := {
  baseURL : string;
  auth_username : string;
  auth_password : string
}.

Definition VSAC_BASE : string := "https://cts.nlm.nih.gov/fhir".

Definition buildVsacAxios (umlsKey : string) : Client :=
  {| baseURL := VSAC_BASE; auth_username := "apikey"; auth_password := umlsKey |}.

(** The remote services: what they answer to a request, given everything
    that happened before it. The disk under the output files is there as
    well: the message of the error that [fs.mkdirSync(dir, { recursive:
    true })] and [fs.writeFileSync(path, ...)] throw, if they throw. *)
Record Network := {
  net_get : list event -> Client -> string -> GetReply;
  net_post : list event -> string -> PostBody -> PostReply;
  disk_mkdir : list event -> string -> option string;
  disk_write : list event -> string -> option string
}.

(** ** The monad of effectful code *)

Definition M (A : Type) : Type := World -> Result A * World.

Definition ret {A} (a : A) : M A := fun w => (Ok a, w).

Definition throw {A} (e : JsError) : M A := fun w => (Throw e, w).

Definition diverge {A} : M A := fun w => (Diverge, w).

Definition bindM {A B} (c : M A) (k : A -> M B) : M B :=
  fun w =>
    match c w with
    | (Ok a, w') => k a w'
    | (Throw e, w') => (Throw e, w')
    | (Diverge, w') => (Diverge, w')
    end.

Notation "'let*' x := c 'in' k" := (bindM c (fun x => k))
  (at level 10, x pattern, c at level 100, k at level 200).

(** An effect that cannot fail. *)
Definition act (f : World -> World) : M unit := fun w => (Ok tt, f w).

(** [await client.get(url)] *)
Definition client_get (net : Network) (client : Client) (url : string)
  : M ValueSet.t :=
  fun w =>
    let reply := net_get net (trace w) client url in
    let w' := emit (NetGet url reply) w in
    match reply with
    | GetOk page => (Ok page, w')
    | GetFail e => (Throw e, w')
    end.

(** [await axios.post(url, body, ...)]: the status and status text. *)
Definition axios_post (net : Network) (url : string) (body : PostBody)
  : M (Z * string) :=
  fun w =>
    let reply := net_post net (trace w) url body in
    let w' := emit (NetPost url body reply) w in
    match reply with
    | PostOk st txt => (Ok (st, txt), w')
    | PostFail e => (Throw e, w')
    end.

(** ** The paginated fetcher *)

Module ExpandOpts.
(** The options object of [fetchValueSetExpansion]. *)
Record t := {
  version : option string;
  filter : option string;
  count : nat;
  cacheDir : option string;
  dryRun : bool;
  retry : nat
}.
End ExpandOpts.

(** [encodeURIComponent] on a UTF-8 string: letters, digits and
    [- _ . ! ~ * ' ( )] are kept, every other byte is percent-encoded. *)
Definition is_unreserved (c : ascii) : bool :=
  let n := nat_of_ascii c in
  ((48 <=? n) && (n <=? 57) || (65 <=? n) && (n <=? 90)
   || (97 <=? n) && (n <=? 122))%nat
  || existsb (Ascii.eqb c) (list_ascii_of_string "-_.!~*'()").

Definition hex_digit (n : nat) : ascii :=
  nth n (list_ascii_of_string "0123456789ABCDEF") "0"%char.

Fixpoint encodeURIComponent (s : string) : string :=
  match s with
  | EmptyString => EmptyString
  | String c s' =>
      if is_unreserved c then String c (encodeURIComponent s')
      else
        let n := nat_of_ascii c in
        String "%" (String (hex_digit (n / 16)) (String (hex_digit (n mod 16))
          (encodeURIComponent s')))
  end.

(** The entries of [params], in insertion order, values after [String(v)]. *)
Definition expand_params (opts : ExpandOpts.t) (offset : nat)
  : list (string * string) :=
  [("offset", pretty offset); ("count", pretty (ExpandOpts.count opts))]
  ++ (if truthy (ExpandOpts.version opts)
      then [("valueSetVersion", default "" (ExpandOpts.version opts))] else [])
  ++ (if truthy (ExpandOpts.filter opts)
      then [("filter", default "" (ExpandOpts.filter opts))] else []).

Definition expand_url (oid : string) (opts : ExpandOpts.t) (offset : nat)
  : string :=
  let paramStr :=
    String.concat "&"
      (map (fun kv => fst kv +:+ "=" +:+ encodeURIComponent (snd kv))
           (expand_params opts offset)) in
  "/ValueSet/" +:+ oid +:+ "/$expand?" +:+ paramStr.

(** [cacheFile]: [undefined] when no cache directory is configured. *)
Definition cacheFile (oid : string) (opts : ExpandOpts.t) (offset : nat)
  : option string :=
  if truthy (ExpandOpts.cacheDir opts) then
    Some (path_join (default "" (ExpandOpts.cacheDir opts))
            ("vsac-" +:+ oid +:+ "-"
             +:+ or_else (ExpandOpts.version opts) "latest"
             +:+ "-page-" +:+ pretty offset +:+ ".json"))
  else None.

(** [e.response && e.response.status >= 500 || e.response?.status === 429] *)
Definition retryable (e : JsError) : bool :=
  match response e with
  | Some r => (500 <=? status r)%Z || (status r =? 429)%Z
  | None => false
  end.

(** [1000 * Math.pow(2, tries)] *)
Definition backoff (tries : nat) : Z := (1000 * 2 ^ Z.of_nat tries)%Z.

(** The loop [while (tries < opts.retry)] of one page, by recursion on
    [n = opts.retry - tries]. It returns [page] (still [undefined] when the
    loop ran out) and the new value of [tries]; a failure that is not
    retried is thrown. *)
Fixpoint retryLoop (net : Network) (client : Client) (url : string)
    (cache : option (string * string)) (n tries : nat)
  : M (option ValueSet.t * nat) :=
  match n with
  | 0 => ret (None, tries)
  | S n' =>
      fun w =>
        match client_get net client url w with
        | (Ok page, w1) =>
            let w2 :=
              match cache with
              | Some (dir, file) => writeFileSync file page (emit (MkDir dir) w1)
              | None => w1
              end in
            (Ok (Some page, tries), w2)
        | (Throw e, w1) =>
            if retryable e then
              let tries' := S tries in
              retryLoop net client url cache n' tries'
                (emit (Sleep (backoff tries')) w1)
            else (Throw e, w1)
        | (Diverge, w1) => (Diverge, w1)
        end
  end.

(** One turn of the page loop up to [pages.push(page)]: the page at
    [offset], from the cache or from the network. *)
Definition fetchPage (net : Network) (client : Client) (oid : string)
    (opts : ExpandOpts.t) (offset tries : nat) : M (ValueSet.t * nat) :=
  fun w =>
    let url := expand_url oid opts offset in
    let file := cacheFile oid opts offset in
    match file ≫= (fun f => fs w !! f) with
    | Some page => (Ok (page, tries), w)
    | None =>
        if negb (ExpandOpts.dryRun opts) then
          (let* r := retryLoop net client url
                      (file ≫= fun f => Some (default "" (ExpandOpts.cacheDir opts), f))
                      (ExpandOpts.retry opts - tries) tries in
           match fst r with
           | Some page => ret (page, snd r)
           | None =>
               throw (new_Error ("Failed to fetch expansion after "
                                 +:+ pretty (ExpandOpts.retry opts)
                                 +:+ " retries."))
           end) w
        else (Throw (new_Error "No expansion page fetched."), w)
    end.

(** The page loop [while (true)], cut off after [fuel] pages. *)
Fixpoint expansionLoop (fuel : nat) (net : Network) (client : Client)
    (oid : string) (opts : ExpandOpts.t)
    (offset : nat) (pages : list ValueSet.t) (got tries : nat)
  : M (list ValueSet.t) :=
  match fuel with
  | 0 => diverge
  | S fuel' =>
      let* r := fetchPage net client oid opts offset tries in
      let page := fst r in
      let pages' := (pages ++ [page])%list in
      let contains := contains_length page in
      let got' := got + contains in
      let total := page_total page in
      if (contains =? 0)%nat || falsy_num total || reached got' total
      then ret pages'
      else if (contains =? 0)%nat then ret pages'
      else expansionLoop fuel' net client oid opts
             (offset + contains) pages' got' (snd r)
  end.

Definition fetchValueSetExpansion (fuel : nat) (net : Network)
    (client : Client) (oid : string) (opts : ExpandOpts.t)
  : M (list ValueSet.t) :=
  expansionLoop fuel net client oid opts 0 [] 0 0.

(** A single request, neither cached nor retried. *)
Definition fetchValueSetDefinition (net : Network) (client : Client)
    (oid : string) (version : option string) : M ValueSet.t :=
  let url := "/ValueSet/" +:+ oid
             +:+ (if truthy version
                  then "?valueSetVersion=" +:+ default "" version else "") in
  client_get net client url.

(** ** Merging, naming and writing *)

Definition mergeExpansionPages (pages : list ValueSet.t)
  : Result ValueSet.t :=
  match pages with
  | [] => Throw (new_Error "No expansion pages to merge.")
  | base :: _ =>
      let all := concat (map contains_or_empty pages) in
      let exp :=
        match ValueSet.expansion base with
        | Some e =>
            {| Expansion.identifier := Expansion.identifier e;
               Expansion.total := Expansion.total e;
               Expansion.contains := Some all |}
        | None =>
            {| Expansion.identifier := None;
               Expansion.total := None;
               Expansion.contains := Some all |}
        end in
      Ok {| ValueSet.resourceType := ValueSet.resourceType base;
            ValueSet.id := ValueSet.id base;
            ValueSet.version := ValueSet.version base;
            ValueSet.expansion := Some exp;
            ValueSet.other := ValueSet.other base |}
  end.

(** [resource.version || resource.expansion?.identifier || 'unknown'] *)
Definition deriveVsacVersion (r : ValueSet.t) : string :=
  or_else
    (or_opt (ValueSet.version r)
       (ValueSet.expansion r ≫= Expansion.identifier))
    "unknown".

Inductive WriteMode := definition | expanded.

Definition mode_name (m : WriteMode) : string :=
  match m with
  | definition => "definition"
  | expanded => "expanded"
  end.

(** The path [writeValueSetFiles] writes to. *)
Definition valueSetFile (outDir oid version : string) (mode : WriteMode)
  : string :=
  let safeVersion := or_else (Some version) "unknown" in
  posix_join outDir
    ("ValueSet-" +:+ oid +:+ "-" +:+ safeVersion +:+ "-" +:+ mode_name mode
     +:+ ".json").

(** The directory is made, then the file is written; either step throws
    when the disk refuses it. *)
Definition writeValueSetFiles (net : Network) (outDir oid version : string)
    (data : ValueSet.t) (mode : WriteMode) : M string :=
  fun w =>
    match disk_mkdir net (trace w) outDir with
    | Some msg => (Throw (new_Error msg), w)
    | None =>
        let w1 := emit (MkDir outDir) w in
        let file := valueSetFile outDir oid version mode in
        match disk_write net (trace w1) file with
        | Some msg => (Throw (new_Error msg), w1)
        | None => (Ok file, writeFileSync file data w1)
        end
    end.

(** ** The upload stage *)

(** [baseUrl.replace(/\/?$/, '/ValueSet')]: one trailing slash, if any, is
    replaced. *)
Fixpoint strip_slash (s : string) : string :=
  match s with
  | EmptyString => EmptyString
  | String c EmptyString => if Ascii.eqb c "/" then EmptyString else s
  | String c s' => String c (strip_slash s')
  end.

Definition valueSetEndpoint (baseUrl : string) : string :=
  strip_slash baseUrl +:+ "/ValueSet".

Definition transaction_bundle (resources : list ValueSet.t) : Bundle :=
  {| bundle_resourceType := "Bundle";
     bundle_type := "transaction";
     entry := map (fun r => {| resource := r;
                               request_method := "POST";
                               request_url := "ValueSet" |}) resources |}.

(** The loop [for (const r of resources)] of the per-resource mode. *)
Fixpoint postEach (net : Network) (baseUrl : string) (dryRun : bool)
    (resources : list ValueSet.t) : M unit :=
  match resources with
  | [] => ret tt
  | r :: rest =>
      if dryRun then
        let* _ := act (emit (ConsoleLog ("[Dry run] Would POST ValueSet to "
                                         +:+ baseUrl +:+ "/ValueSet"))) in
        postEach net baseUrl dryRun rest
      else
        let* res := axios_post net (valueSetEndpoint baseUrl) (PostResource r) in
        let* _ := act (emit (ConsoleLog ("ValueSet POST response: "
                                         +:+ pretty (fst res) +:+ " "
                                         +:+ snd res))) in
        postEach net baseUrl dryRun rest
  end.

Definition postValueSetsToHapi (net : Network) (baseUrl : string)
    (resources : list ValueSet.t) (bundle dryRun : bool) : M unit :=
  if bundle then
    let b := transaction_bundle resources in
    if dryRun then
      act (emit (ConsoleLog ("[Dry run] Would POST bundle to "
                             +:+ baseUrl +:+ "/")))
    else
      let* res := axios_post net baseUrl (PostBundle b) in
      act (emit (ConsoleLog ("Bundle POST response: "
                             +:+ pretty (fst res) +:+ " " +:+ snd res)))
  else postEach net baseUrl dryRun resources.

(** ** One job *)

Module Opts.
(** The parsed options of the [valueset] command; [count], [concurrency]
    and [retry] after the conversion [+opts.x]. *)
Record t := {
  mode : string;
  version : option string;
  filter : option string;
  out : string;
  post : option string;
  postMode : string;
  bundle : bool;
  umlsKey : option string;
  count : nat;
  concurrency : Z;
  retry : nat;
  cache : string;
  dryRun : bool
}.
End Opts.

Module JobResult.
(** An element of [results]: a success has no [error], a failure has
    only [oid] and [error]. *)
Record t := {
  oid : string;
  defRes : option ValueSet.t;
  expRes : option ValueSet.t;
  version : option string;
  error : option string
}.
End JobResult.

Definition lift {A} (r : Result A) : M A := fun w => (r, w).

(** The stub resource of a dry run. *)
Definition stub (oid : string) (opts : Opts.t) (exp : option Expansion.t)
  : ValueSet.t :=
  {| ValueSet.resourceType := "ValueSet";
     ValueSet.id := Some oid;
     ValueSet.version := Some (or_else (Opts.version opts) "unknown");
     ValueSet.expansion := exp;
     ValueSet.other := [] |}.

Definition empty_expansion : Expansion.t :=
  {| Expansion.identifier := None;
     Expansion.total := None;
     Expansion.contains := Some [] |}.

Definition expand_opts (opts : Opts.t) : ExpandOpts.t :=
  {| ExpandOpts.version := Opts.version opts;
     ExpandOpts.filter := Opts.filter opts;
     ExpandOpts.count := Opts.count opts;
     ExpandOpts.cacheDir := Some (Opts.cache opts);
     ExpandOpts.dryRun := Opts.dryRun opts;
     ExpandOpts.retry := Opts.retry opts |}.

Definition wants_definition (opts : Opts.t) : bool :=
  String.eqb (Opts.mode opts) "definition" || String.eqb (Opts.mode opts) "both".

Definition wants_expansion (opts : Opts.t) : bool :=
  String.eqb (Opts.mode opts) "expansion" || String.eqb (Opts.mode opts) "both".

(** The body of the [try] block of [next]. *)
Definition jobBody (fuel : nat) (net : Network) (client : Client)
    (opts : Opts.t) (id : string) : M JobResult.t :=
  let* oid := lift (normalizeVsacId id) in
  let* d :=
    (if wants_definition opts then
       let* defRes :=
         (if Opts.dryRun opts then ret (stub oid opts None)
          else fetchValueSetDefinition net client oid (Opts.version opts)) in
       let versionForName :=
         or_else (or_opt (Some (deriveVsacVersion defRes)) (Opts.version opts))
           "unknown" in
       let* _ := writeValueSetFiles net (Opts.out opts) oid versionForName
                   defRes definition in
       ret (Some defRes, Some versionForName)
     else ret (None, None)) in
  let* e :=
    (if wants_expansion opts then
       let* pages :=
         (if Opts.dryRun opts then ret [stub oid opts (Some empty_expansion)]
          else fetchValueSetExpansion fuel net client oid (expand_opts opts)) in
       let* merged := lift (mergeExpansionPages pages) in
       let versionForName :=
         or_else
           (or_opt (or_opt (Some (deriveVsacVersion merged)) (snd d))
              (Opts.version opts))
           "unknown" in
       let* _ := writeValueSetFiles net (Opts.out opts) oid versionForName
                   merged expanded in
       ret (Some merged, Some versionForName)
     else ret (None, snd d)) in
  ret {| JobResult.oid := oid;
         JobResult.defRes := fst d;
         JobResult.expRes := fst e;
         JobResult.version := snd e;
         JobResult.error := None |}.

(** [(oo.issue || []).map(i => i.diagnostics).join('; ')] *)
Definition operationOutcomeToMessage (oo : OperationOutcome) : string :=
  String.concat "; "
    (map (fun i => default "" (diagnostics i)) (default [] (issue oo))).

(** What the [catch] block of [next] prints after the identifier. *)
Definition error_text (e : JsError) : string :=
  match response e ≫= data with
  | Some oo => operationOutcomeToMessage oo
  | None => message e
  end.

Definition failed_job (id : string) (e : JsError) : JobResult.t :=
  {| JobResult.oid := id;
     JobResult.defRes := None;
     JobResult.expRes := None;
     JobResult.version := None;
     JobResult.error := Some (message e) |}.

(** ** The worker pool

    [next] is an async function: it runs without interruption up to its
    next [await], so the claim of a job ([myIdx = idx++], [running++]) is
    atomic, and so is everything from the end of a job to the claim of the
    following one. A worker is one of the [starters] with the chain of
    [next] calls it awaits. The pool is a transition system in which any
    worker that can move may move next: every interleaving of the
    cooperative scheduler is one of its runs. The pipeline of a job is run
    in one piece at the moment the job completes; the progress line
    written to standard output (it shows the elapsed time) is left out. *)

Inductive Worker :=
| Pending               (* the starter has not been called yet *)
| Busy (myIdx : nat)    (* inside the [try] block of job [myIdx] *)
| Finished.             (* its promise is resolved *)

Record Pool := {
  idx : nat;
  running : nat;
  completed : nat;
  results : list (option JobResult.t);
  world : World;
  workers : list Worker;
  (** History, not part of the program: the value of [myIdx] of every
      call of [next] that took a job, oldest first. *)
  claimed : list nat
}.

(** [a[i] = x] on a JavaScript array: writing past the end extends the
    array with holes. *)
Definition array_set {A} (a : list (option A)) (i : nat) (x : A)
  : list (option A) :=
  if (i <? length a)%nat then <[i := Some x]> a
  else (a ++ replicate (i - length a) None ++ [Some x])%list.

(** The elements of a JavaScript array that [filter] and [flatMap] visit:
    holes are skipped. *)
Definition present {A} (a : list (option A)) : list A := omap (fun x => x) a.

(** [Math.max(1, +opts.concurrency || 4)] *)
Definition concurrency_of (opts : Opts.t) : Z :=
  Z.max 1 (if (Opts.concurrency opts =? 0)%Z then 4 else Opts.concurrency opts).

Section Pool.
Variable fuel : nat.
Variable net : Network.
Variable client : Client.
Variable opts : Opts.t.
Variable ids : list string.

(** [Array(Math.min(concurrency, ids.length)).fill(0)] *)
Definition starters : nat :=
  Z.to_nat (Z.min (concurrency_of opts) (Z.of_nat (length ids))).

Definition init (w : World) : Pool :=
  {| idx := 0; running := 0; completed := 0; results := [];
     world := w; workers := replicate starters Pending; claimed := [] |}.

(** [const myIdx = idx++; running++;] *)
Definition claim (s : Pool) : Pool :=
  {| idx := S (idx s); running := S (running s);
     completed := completed s; results := results s;
     world := world s; workers := workers s;
     claimed := (claimed s ++ [idx s])%list |}.

(** A call of [next] up to its first [await]: it returns at once when no
    job is left, and otherwise takes job [idx]. *)
Definition call_next (s : Pool) : Pool * Worker :=
  if (length ids <=? idx s)%nat then (s, Finished)
  else (claim s, Busy (idx s)).

Definition set_worker (k : nat) (wk : Worker) (s : Pool) : Pool :=
  {| idx := idx s; running := running s; completed := completed s;
     results := results s; world := world s;
     workers := <[k := wk]> (workers s); claimed := claimed s |}.

(** The end of job [myIdx]: its result is stored at [results[myIdx]]. *)
Definition complete (myIdx : nat) (r : JobResult.t) (w : World) (s : Pool)
  : Pool :=
  {| idx := idx s; running := pred (running s);
     completed := S (completed s);
     results := array_set (results s) myIdx r;
     world := w; workers := workers s; claimed := claimed s |}.

(** The job of a busy worker, from [try] to [catch]: [None] when the job
    does not come to an end. *)
Definition run_job (id : string) (w : World)
  : option (JobResult.t * World) :=
  match jobBody fuel net client opts id w with
  | (Ok r, w') => Some (r, w')
  | (Throw e, w') =>
      Some (failed_job id e,
            emit (ConsoleError ("[" +:+ id +:+ "] Error: " +:+ error_text e)) w')
  | (Diverge, _) => None
  end.

(** The next move of worker [k], if it has one. *)
Definition worker_step (k : nat) (s : Pool) : option Pool :=
  match workers s !! k with
  | Some Pending =>
      let '(s', wk) := call_next s in Some (set_worker k wk s')
  | Some (Busy myIdx) =>
      match ids !! myIdx with
      | Some id =>
          match run_job id (world s) with
          | Some (r, w') =>
              let s1 := complete myIdx r w' s in
              if (idx s1 <? length ids)%nat then
                let '(s2, wk) := call_next s1 in Some (set_worker k wk s2)
              else Some (set_worker k Finished s1)
          | None => None
          end
      | None => None
      end
  | Some Finished | None => None
  end.

Definition pool_step (s s' : Pool) : Prop :=
  exists k, worker_step k s = Some s'.

(** The states the pool can be in, from the world [w]. *)
Definition reachable (w : World) (s : Pool) : Prop :=
  rtc pool_step (init w) s.

(** [await Promise.all(starters)] is over. *)
Definition all_finished (s : Pool) : bool :=
  forallb (fun wk => match wk with Finished => true | _ => false end)
    (workers s).

(** The pool under a given schedule: the workers move in the order of
    [sched]; a worker that cannot move is passed over. *)
Definition run_schedule (sched : list nat) (s : Pool) : Pool :=
  foldl (fun s k => default s (worker_step k s)) s sched.

(** [results.flatMap(...)]: what the upload stage is given. *)
Definition toUpload (rs : list (option JobResult.t)) : list ValueSet.t :=
  flat_map
    (fun r =>
       match String.eqb (Opts.postMode opts) "expanded", JobResult.expRes r with
       | true, Some v => [v]
       | _, _ =>
           match String.eqb (Opts.postMode opts) "definition",
                 JobResult.defRes r with
           | true, Some v => [v]
           | _, _ => []
           end
       end)
    (present rs).




End Pool.






(** * Specification vocabulary *)

(** ** The identifier normalizer *)

(** The shape the regular expression accepts: digits, a dot, and then
    digits and dots in any order. *)
Definition loose_oid (m : list ascii) : Prop :=
  exists ds rest,
    m = (ds ++ "."%char :: rest)%list /\
    ds <> [] /\ Forall (fun c => is_digit c = true) ds /\
    rest <> [] /\ Forall (fun c => is_digit_or_dot c = true) rest.

(** Digits separated by dots, with at least one dot: a two-state scan,
    [in_digits] telling whether the last character was a digit. *)
Fixpoint dotted_scan (in_digits dots : bool) (s : list ascii) : bool :=
  match s with
  | [] => in_digits && dots
  | c :: s' =>
      if is_digit c then dotted_scan true dots s'
      else if is_dot c then in_digits && dotted_scan false true s'
      else false
  end.

Definition dotted_numeric (s : string) : bool :=
  dotted_scan false false (list_ascii_of_string s).

(** The non-empty substrings of a string. *)
Fixpoint suffixes (s : list ascii) : list (list ascii) :=
  match s with
  | [] => [[]]
  | _ :: s' => s :: suffixes s'
  end.

Definition substrings (s : list ascii) : list (list ascii) :=
  flat_map (fun t => map (fun n => take (S n) t) (seq 0 (length t)))
    (suffixes s).

Definition has_dotted_numeric (s : string) : bool :=
  existsb (dotted_scan false false) (substrings (list_ascii_of_string s)).


(** ** The retry loop and the page loop *)

(** The events of the failed attempts that were retried: each failure at
    [url], and the wait that follows it; [tries] is the count before the
    first of them. *)
Fixpoint retried (url : string) (tries : nat) (es : list JsError)
  : list event :=
  match es with
  | [] => []
  | e :: es' =>
      NetGet url (GetFail e) :: Sleep (backoff (S tries))
      :: retried url (S tries) es'
  end.

(** The events of writing a page to its cache file. *)
Definition cache_write (cache : option (string * string)) (page : ValueSet.t)
  : list event :=
  match cache with
  | Some (dir, file) => [MkDir dir; WriteFile file page]
  | None => []
  end.

(** The cache directory and file of a page, as [retryLoop] is given them. *)
Definition cache_of (oid : string) (opts : ExpandOpts.t) (offset : nat)
  : option (string * string) :=
  cacheFile oid opts offset
    ≫= fun f => Some (default "" (ExpandOpts.cacheDir opts), f).

(** The error thrown when the retry loop ends without a page. *)
Definition retries_failed (opts : ExpandOpts.t) : JsError :=
  new_Error ("Failed to fetch expansion after "
             +:+ pretty (ExpandOpts.retry opts) +:+ " retries.").

(** The test that ends the page loop, in words: the page has no items, or
    declares no total (none, or zero), or the items got so far reach the
    declared total. *)
Definition stop_condition (page : ValueSet.t) (got : nat) : Prop :=
  contains_length page = 0 \/
  page_total page = None \/
  page_total page = Some 0%Z \/
  exists t, page_total page = Some t /\ (t <= Z.of_nat got)%Z.

(** The offsets at which the pages of a fetch were asked for: each page
    starts where the items of the pages before it end. *)
Fixpoint offsets_from (offset : nat) (pages : list ValueSet.t) : list nat :=
  match pages with
  | [] => []
  | p :: ps => offset :: offsets_from (offset + contains_length p) ps
  end.

(** The number of items in the first [n] pages. *)
Definition items_in (n : nat) (pages : list ValueSet.t) : nat :=
  sum_list (map contains_length (take n pages)).

(** A disk that holds no directory but those the run has made: a
    directory can be made unless its name is empty, and a file can be
    written when the directory part of its path is one of them. *)
Definition made_dirs (tr : list event) : list string :=
  omap (fun e => match e with MkDir d => Some (normalize d) | _ => None end) tr.

(** The directory part of a normalized path. *)
Definition parent_dir (path : string) : string :=
  match rev (split_slash path) with
  | _ :: (_ :: _) as up =>
      if String.eqb (String.concat "/" (rev up)) "" then "/"
      else String.concat "/" (rev up)
  | _ => "."
  end.

Definition fresh_mkdir (tr : list event) (dir : string) : option string :=
  if String.eqb dir ""
  then Some "ENOENT: no such file or directory, mkdir ''"
  else None.

Definition fresh_write (tr : list event) (path : string) : option string :=
  if existsb (String.eqb (parent_dir path)) (made_dirs tr) then None
  else Some ("ENOENT: no such file or directory, open '" +:+ path +:+ "'").

(** A network that answers the [n]-th GET request of a run with the
    [n]-th element of a script (a network error when the script is over),
    and accepts every POST. *)
Definition scripted (script : list GetReply) : Network :=
  {| net_get := fun tr _ _ =>
       nth (length (gets tr)) script (GetFail (new_Error "Network Error"));
     net_post := fun _ _ _ => PostOk 200 "OK";
     disk_mkdir := fresh_mkdir;
     disk_write := fresh_write |}.

Definition http_error (st : Z) : JsError :=
  {| message := "Request failed with status code " +:+ pretty st;
     response := Some {| status := st; data := None |} |}.

Definition page_of (items : list Code) (tot : option Z) : ValueSet.t :=
  {| ValueSet.resourceType := "ValueSet";
     ValueSet.id := Some "1.2";
     ValueSet.version := Some "20240101";
     ValueSet.expansion :=
       Some {| Expansion.identifier := None;
               Expansion.total := tot;
               Expansion.contains := Some items |};
     ValueSet.other := [] |}.

Definition empty_world : World := {| fs := ∅; trace := [] |}.

Definition sample_opts (filter : option string) (retry : nat)
  : ExpandOpts.t :=
  {| ExpandOpts.version := None;
     ExpandOpts.filter := filter;
     ExpandOpts.count := 2;
     ExpandOpts.cacheDir := Some ".vsac_cache";
     ExpandOpts.dryRun := false;
     ExpandOpts.retry := retry |}.

(** The test of the source that ends the page loop:
    [!contains || !total || got >= total]. *)
Definition stops (page : ValueSet.t) (got : nat) : bool :=
  (contains_length page =? 0)%nat || falsy_num (page_total page)
  || reached got (page_total page).

(** The page loop as a relation: from the state [offset], [got], [tries]
    in the world [w], the loop fetches the pages [new] one after the other
    and ends in the world [w']. *)
Inductive page_run (net : Network) (client : Client) (oid : string)
    (opts : ExpandOpts.t)
  : nat -> nat -> nat -> World -> list ValueSet.t -> World -> Prop :=
| run_last offset got tries w page t1 w1 :
    fetchPage net client oid opts offset tries w = (Ok (page, t1), w1) ->
    stops page (got + contains_length page) = true ->
    page_run net client oid opts offset got tries w [page] w1
| run_more offset got tries w page t1 w1 ps w' :
    fetchPage net client oid opts offset tries w = (Ok (page, t1), w1) ->
    stops page (got + contains_length page) = false ->
    page_run net client oid opts (offset + contains_length page)
      (got + contains_length page) t1 w1 ps w' ->
    page_run net client oid opts offset got tries w (page :: ps) w'.

(** The error of a result, if it is one. *)
Definition thrown {A} (r : Result A) : option JsError :=
  match r with
  | Throw e => Some e
  | _ => None
  end.

(** ** The upload stage *)

(** A downstream server that refuses the first submission it gets and
    accepts the following ones. *)
Definition refuses_first : Network :=
  {| net_get := fun _ _ _ => GetFail (new_Error "Network Error");
     net_post := fun tr _ _ =>
       match posts tr with
       | [] => PostFail (http_error 422)
       | _ => PostOk 201 "Created"
       end;
     disk_mkdir := fresh_mkdir;
     disk_write := fresh_write |}.

(** ** The worker pool *)

(** [a[i]] of a JavaScript array: [None] for a hole and past the end. *)
Definition slot {A} (a : list (option A)) (i : nat) : option A :=
  match a !! i with
  | Some x => x
  | None => None
  end.

Definition is_busy (wk : Worker) : bool :=
  match wk with Busy _ => true | _ => false end.

Definition is_pending (wk : Worker) : bool :=
  match wk with Pending => true | _ => false end.

(** The number of jobs in flight: the workers inside a [try] block. *)
Definition in_flight (s : Pool) : nat :=
  length (List.filter is_busy (workers s)).

(** A world grows into another: its trace is extended and no file is
    removed. *)
Definition grows (w w' : World) : Prop :=
  trace w `prefix_of` trace w' /\
  forall p, is_Some (fs w !! p) -> is_Some (fs w' !! p).

(** The effectful code [c] relates, by [R], the world it starts in to the
    world it ends in. *)
Definition keeps (R : relation World) {A} (c : M A) : Prop :=
  forall w, R w (snd (c w)).

(** What is true of every state of the pool started in the world [w]. *)
Record pool_inv (fuel : nat) (net : Network) (client : Client)
    (opts : Opts.t) (ids : list string) (w : World) (s : Pool) : Prop := {
  inv_workers : length (workers s) = starters opts ids;
  inv_idx : idx s <= length ids;
  inv_claimed : claimed s = seq 0 (idx s);
  inv_running : running s = in_flight s;
  inv_completed : completed s + running s = idx s;
  inv_busy : forall k i, workers s !! k = Some (Busy i) -> i < idx s;
  inv_done :
    forall i, i < idx s ->
      (exists k, workers s !! k = Some (Busy i))
      \/ is_Some (slot (results s) i);
  inv_length : length (results s) <= idx s;
  inv_slots :
    forall i r, slot (results s) i = Some r ->
      exists id w0 w1,
        ids !! i = Some id /\
        run_job fuel net client opts id w0 = Some (r, w1) /\
        grows w w0 /\ grows w1 (world s);
  inv_finished :
    forall k, workers s !! k = Some Finished -> idx s = length ids;
  inv_world : grows w (world s)
}.

(** The work that is left: it gets smaller with every move of a worker. *)
Definition work_left (ids : list string) (s : Pool) : nat :=
  2 * (length ids - idx s) + running s
  + length (List.filter is_pending (workers s)).

(** The options of the command with their defaults, for a dry run or not,
    with the given concurrency. *)
Definition sample_cli (concurrency : Z) (dry : bool) : Opts.t :=
  {| Opts.mode := "expansion";
     Opts.version := None;
     Opts.filter := None;
     Opts.out := "./valuesets";
     Opts.post := None;
     Opts.postMode := "expanded";
     Opts.bundle := false;
     Opts.umlsKey := Some "key";
     Opts.count := 1000;
     Opts.concurrency := concurrency;
     Opts.retry := 3;
     Opts.cache := ".vsac_cache";
     Opts.dryRun := dry |}.

(** ** Dry runs *)

Fixpoint last_char (s : string) : option ascii :=
  match s with
  | EmptyString => None
  | String c EmptyString => Some c
  | String _ s' => last_char s'
  end.

(** What a dry run may do to the world: no request, no wait, and no file
    touched but the output files of [writeValueSetFiles]. *)
Definition offline (w w' : World) : Prop :=
  gets (trace w') = gets (trace w) /\
  posts (trace w') = posts (trace w) /\
  sleeps (trace w') = sleeps (trace w) /\
  forall p, (forall outDir oid v m, p <> valueSetFile outDir oid v m) ->
            fs w' !! p = fs w !! p.


(** ** Further example objects *)

(** The options of the command with their defaults, for the given
    [--mode] and [--post-mode]. *)
Definition sample_job (mode postMode : string) (dry : bool) : Opts.t :=
  {| Opts.mode := mode;
     Opts.version := None;
     Opts.filter := None;
     Opts.out := "./valuesets";
     Opts.post := Some "http://localhost:8080/fhir";
     Opts.postMode := postMode;
     Opts.bundle := false;
     Opts.umlsKey := Some "key";
     Opts.count := 1000;
     Opts.concurrency := 4;
     Opts.retry := 3;
     Opts.cache := ".vsac_cache";
     Opts.dryRun := dry |}.

(** A server that answers every GET request with the failure [e]. *)
Definition down (e : JsError) : Network :=
  {| net_get := fun _ _ _ => GetFail e;
     net_post := fun _ _ _ => PostOk 200 "OK";
     disk_mkdir := fresh_mkdir;
     disk_write := fresh_write |}.

(** The request of [fetchValueSetDefinition]. *)
Definition definition_url (oid : string) (version : option string) : string :=
  "/ValueSet/" +:+ oid
  +:+ (if truthy version then "?valueSetVersion=" +:+ default "" version
       else "").

(** The resource a successful job names its files after: the merged
    expansion when there is one, the definition otherwise. *)
Definition named_after (r : JobResult.t) : option ValueSet.t :=
  match JobResult.expRes r with
  | Some m => Some m
  | None => JobResult.defRes r
  end.

(** The time a run spends waiting between attempts, in milliseconds. *)
Definition total_wait (tr : list event) : Z := foldr Z.add 0%Z (sleeps tr).

(** The error of a fetch that had no way to get a page. *)
Definition no_page_error (opts : ExpandOpts.t) : JsError :=
  if ExpandOpts.dryRun opts then new_Error "No expansion page fetched."
  else retries_failed opts.










(** * The [verify-codes] command

    [verifyCodes] from the set of codes on: [codes] is what [parseCSV]
    resolved to, the pairs of a code and the URL of its code system, in
    the order of the rows (a [Set] of arrays keeps every pair it is
    given). The directory is a listing, as [fs.readdirSync] returns it, and
    the text of the files by path; a file that cannot be read throws. The
    report is saved as the text [stringify report], where [stringify] is
    [JSON.stringify(_, null, 2)], a parameter; saving it in the directory
    that has just been listed is taken to succeed. The names of a listing
    hold no [/], so [path.join] only puts the directory and the name
    together. The progress line and the measured time are output only:
    the time is the text [time], given from outside. *)

Module Verify.

Record Instance := {
  code : string;
  system : string;
  lineNumber : nat
}.

Record FileInstance := {
  file : string;
  instances : list Instance
}.

Record Report := {
  totalFiles : nat;
  relevantFiles : nat;
  irrelevantFiles : nat;
  deletedFiles : list string;
  textSearchInstances : list FileInstance;
  totalTime : string
}.

Inductive effect :=
| Unlink (path : string)
| WriteReport (path : string) (report : Report)
| Log (line : string)
| LogError (line : string).

Record Disk := {
  texts : gmap string string;
  effects : list effect
}.

Definition say (e : effect) (d : Disk) : Disk :=
  {| texts := texts d; effects := (effects d ++ [e])%list |}.

(** [fs.unlinkSync(path)] *)
Definition unlinkSync (path : string) (d : Disk) : Disk :=
  {| texts := delete path (texts d);
     effects := (effects d ++ [Unlink path])%list |}.

(** [s.split('\n')]: the lines of a text, at least one. *)
Fixpoint split_lines (s : string) : list string :=
  match s with
  | EmptyString => [EmptyString]
  | String c s' =>
      if Ascii.eqb c "010" then EmptyString :: split_lines s'
      else
        match split_lines s' with
        | l :: ls => String c l :: ls
        | [] => [String c EmptyString]
        end
  end.

(** [s.startsWith(p)] *)
Fixpoint startsWith (s p : string) : bool :=
  match p with
  | EmptyString => true
  | String a p' =>
      match s with
      | EmptyString => false
      | String b s' => Ascii.eqb a b && startsWith s' p'
      end
  end.

(** [s.includes(sub)] *)
Fixpoint includes (s sub : string) : bool :=
  startsWith s sub
  || match s with
     | EmptyString => false
     | String _ s' => includes s' sub
     end.

(** [s.endsWith(p)] *)
Fixpoint endsWith (s p : string) : bool :=
  String.eqb s p
  || match s with
     | EmptyString => false
     | String _ s' => endsWith s' p
     end.

(** The filter of [totalFiles]. *)
Definition selected (name : string) : bool :=
  endsWith name ".json"
  && negb (startsWith name "practitionerInformation")
  && negb (startsWith name "hospitalInformation").

(** The body of [codes.forEach] at the line [lineIndex]: the state is
    [instances] and [found]. *)
Definition scan_code (lines : list string) (lineIndex : nat) (line : string)
    (st : list Instance * bool) (c : string * string)
  : list Instance * bool :=
  let '(code, system) := c in
  if includes line code then
    let above :=
      if (0 <? lineIndex)%nat then default "" (lines !! (lineIndex - 1))
      else "" in
    let below :=
      if (lineIndex <? length lines - 1)%nat
      then default "" (lines !! (lineIndex + 1)) else "" in
    if includes above system || includes below system then
      ((fst st ++ [{| code := code; system := system;
                      lineNumber := lineIndex + 1 |}])%list, true)
    else st
  else st.

(** [lines.forEach((line, lineIndex) => codes.forEach(...))] *)
Definition scan_lines (codes : list (string * string)) (lines : list string)
  : list Instance * bool :=
  foldl (fun st il => foldl (scan_code lines (fst il) (snd il)) st codes)
    ([], false) (zip (seq 0 (length lines)) lines).

(** The counters of the loop over the files. *)
Record Tally := {
  relevant : nat;
  irrelevant : nat;
  deleted : list string;
  found_in : list FileInstance
}.

(** One turn of the loop [for (const [index, filename] of ...)]. *)
Definition check_file (inputPath : string) (codes : list (string * string))
    (deleteFlag : bool) (filename : string) (t : Tally) (d : Disk)
  : Result Tally * Disk :=
  let filePath := path_join inputPath filename in
  match texts d !! filePath with
  | None =>
      (Throw (new_Error ("ENOENT: no such file or directory, open '"
                         +:+ filePath +:+ "'")), d)
  | Some text =>
      let '(instances, found) := scan_lines codes (split_lines text) in
      let found_in' :=
        if (0 <? length instances)%nat
        then (found_in t ++ [{| file := filename;
                                instances := instances |}])%list
        else found_in t in
      if found then
        (Ok {| relevant := S (relevant t); irrelevant := irrelevant t;
               deleted := deleted t; found_in := found_in' |}, d)
      else if deleteFlag then
        (Ok {| relevant := relevant t; irrelevant := S (irrelevant t);
               deleted := (deleted t ++ [filename])%list;
               found_in := found_in' |},
         unlinkSync filePath d)
      else
        (Ok {| relevant := relevant t; irrelevant := S (irrelevant t);
               deleted := deleted t; found_in := found_in' |}, d)
  end.

Fixpoint check_files (inputPath : string) (codes : list (string * string))
    (deleteFlag : bool) (names : list string) (t : Tally) (d : Disk)
  : Result Tally * Disk :=
  match names with
  | [] => (Ok t, d)
  | filename :: rest =>
      match check_file inputPath codes deleteFlag filename t d with
      | (Ok t', d') => check_files inputPath codes deleteFlag rest t' d'
      | other => other
      end
  end.

Definition mkReport (total : nat) (t : Tally) (time : string) : Report :=
  {| totalFiles := total;
     relevantFiles := relevant t;
     irrelevantFiles := irrelevant t;
     deletedFiles := deleted t;
     textSearchInstances := found_in t;
     totalTime := time +:+ " seconds" |}.

(** What is printed after the report is saved. *)
Definition closing (total : nat) (t : Tally) (deleteFlag : bool)
    (time reportPath : string) : list effect :=
  ([Log "Verification complete:";
    Log ("  Total files processed: " +:+ pretty total);
    Log ("  Relevant files: " +:+ pretty (relevant t));
    Log ("  Irrelevant files: " +:+ pretty (irrelevant t))]
   ++ (if deleteFlag
       then [Log ("  Files deleted: " +:+ pretty (length (deleted t)))]
       else [])
   ++ [Log ("  Total time: " +:+ time +:+ " seconds");
       Log ("  Report saved to: " +:+ reportPath)])%list.

Definition verifyCodes (inputPath : string) (listing : list string)
    (codes : list (string * string)) (deleteFlag : bool) (time : string)
    (stringify : Report -> string) (d : Disk) : Disk :=
  let totalFiles := List.filter selected listing in
  match check_files inputPath codes deleteFlag totalFiles
          {| relevant := 0; irrelevant := 0; deleted := []; found_in := [] |}
          d with
  | (Ok t, d') =>
      let reportPath := path_join inputPath "verification_report.json" in
      let report := mkReport (length totalFiles) t time in
      {| texts := <[reportPath := stringify report]> (texts d');
         effects :=
           (effects d' ++ [WriteReport reportPath report]
            ++ closing (length totalFiles) t deleteFlag time reportPath)%list |}
  | (Throw e, d') => say (LogError ("Error: " +:+ message e)) d'
  | (Diverge, d') => d'
  end.

(** ** Vocabulary for the properties of [verifyCodes] *)

(** The line above the line [i], and the line below it: the empty text
    at the first and at the last line. *)
Definition above (lines : list string) (i : nat) : string :=
  if (0 <? i)%nat then default "" (lines !! (i - 1)) else "".

Definition below (lines : list string) (i : nat) : string :=
  if (i <? length lines - 1)%nat then default "" (lines !! (i + 1)) else "".

(** The pair [c] of a code and a system counts at the line [i]: the line
    holds the code, and the line above it or the line below it holds the
    system. *)
Definition hit (lines : list string) (i : nat) (line : string)
    (c : string * string) : bool :=
  includes line (fst c)
  && (includes (above lines i) (snd c) || includes (below lines i) (snd c)).

Definition numbered (lines : list string) : list (nat * string) :=
  zip (seq 0 (length lines)) lines.

(** The instances of a text: line by line, and for each line in the
    order of the codes, with line numbers from 1. *)
Definition hits (codes : list (string * string)) (lines : list string)
  : list Instance :=
  flat_map
    (fun il =>
       map (fun c => {| code := fst c; system := snd c;
                        lineNumber := fst il + 1 |})
         (List.filter (hit lines (fst il) (snd il)) codes))
    (numbered lines).

Definition relevant_text (codes : list (string * string)) (text : string)
  : bool :=
  let lines := split_lines text in
  existsb (fun il => existsb (hit lines (fst il) (snd il)) codes)
    (numbered lines).

(** The file [name] of the directory is there and is relevant, or is
    there and is not. *)
Definition relevant_file (inputPath : string) (codes : list (string * string))
    (m : gmap string string) (name : string) : bool :=
  match m !! path_join inputPath name with
  | Some text => relevant_text codes text
  | None => false
  end.

Definition irrelevant_file (inputPath : string)
    (codes : list (string * string)) (m : gmap string string) (name : string)
  : bool :=
  match m !! path_join inputPath name with
  | Some text => negb (relevant_text codes text)
  | None => false
  end.

(** The entry of a relevant file in [textSearchInstances]. *)
Definition entry_of (inputPath : string) (codes : list (string * string))
    (m : gmap string string) (name : string) : FileInstance :=
  {| file := name;
     instances :=
       hits codes (split_lines (default "" (m !! path_join inputPath name))) |}.

(** The error of [fs.readFileSync] on a path that is not there. *)
Definition no_such_file (path : string) : JsError :=
  new_Error ("ENOENT: no such file or directory, open '" +:+ path +:+ "'").

Definition newline : string := String "010" "".

(** What a complete run reports, from the directory as it was found. *)
Definition expected (inputPath : string) (codes : list (string * string))
    (deleteFlag : bool) (m : gmap string string) (names : list string)
  : Tally :=
  let rel := List.filter (relevant_file inputPath codes m) names in
  let irr := List.filter (irrelevant_file inputPath codes m) names in
  {| relevant := length rel;
     irrelevant := length irr;
     deleted := if deleteFlag then irr else [];
     found_in := map (entry_of inputPath codes m) rel |}.

Definition zero : Tally :=
  {| relevant := 0; irrelevant := 0; deleted := []; found_in := [] |}.

(** A directory of three files, one of them of a hospital: [a.json]
    holds a code below its system, [b.json] holds the code alone. *)
Definition sample_disk : Disk :=
  {| texts :=
       <[ "/data/a.json" :=
            "system: http://loinc.org" +:+ String "010" "code: 1234-5" ]>
       (<[ "/data/b.json" := "code: 1234-5" ]>
        (<[ "/data/hospitalInformation1.json" := "code: 1234-5" ]> ∅));
     effects := [] |}.

Definition sample_listing : list string :=
  ["a.json"; "b.json"; "hospitalInformation1.json"; "notes.txt"].

Definition sample_codes : list (string * string) :=
  [("1234-5", "http://loinc.org")].

(** A stand-in for [JSON.stringify]: the counts of the report, one on
    each line. *)
Definition sample_stringify (r : Report) : string :=
  "total " +:+ pretty (totalFiles r) +:+ String "010"
    ("relevant " +:+ pretty (relevantFiles r) +:+ String "010"
       ("irrelevant " +:+ pretty (irrelevantFiles r))).

End Verify.

(** * The [synthea-upload] command

    The directory is a listing, as [fs.readdirSync] returns it, and the
    text of the files by path; a file that is not there throws when it is
    read. Two functions of the platform are parameters: [json_ext] is the
    test [path.extname(file).toLowerCase() === '.json'], and [JSON_parse]
    is [JSON.parse], which throws on a text that is not JSON. The server
    is an oracle that sees the effects so far. A promise that is rejected
    and never handled ends the chain of [then]: it is the result [Throw]. *)

Module Synthea.

(** What [axios.post] comes to: a response, an error with a response,
    or an error without one. *)
Inductive Reply :=
| Accepted (status : Z) (statusText : string)
| Refused (status : Z) (statusText : string) (data : string)
| Failed (message : string).

Section Upload.
Variable Json : Type.
Variable json_ext : string -> bool.
Variable JSON_parse : string -> Result Json.

(** [console.log] and [console.error] are recorded with their arguments. *)
Inductive effect :=
| Post (url : string) (body : Json) (reply : Reply)
| Log (args : list string)
| LogError (args : list string).

Variable server : list effect -> string -> Json -> Reply.
Variable texts : gmap string string.
Variable dryRun : bool.

Definition Run (A : Type) : Type := list effect -> Result A * list effect.

Definition say (e : effect) : Run unit := fun tr => (Ok tt, (tr ++ [e])%list).

Definition andThen {A B} (c : Run A) (k : A -> Run B) : Run B :=
  fun tr =>
    match c tr with
    | (Ok a, tr') => k a tr'
    | (Throw e, tr') => (Throw e, tr')
    | (Diverge, tr') => (Diverge, tr')
    end.

(** [fs.readFileSync(file).toString()] and [JSON.parse(raw)] *)
Definition readJson (file : string) : Run Json :=
  fun tr =>
    match texts !! file with
    | None =>
        (Throw (new_Error ("ENOENT: no such file or directory, open '"
                           +:+ file +:+ "'")), tr)
    | Some raw => (JSON_parse raw, tr)
    end.

Definition uploadResource (fileName directory fhirUrl : string) : Run unit :=
  let file := path_join directory fileName in
  andThen (readJson file) (fun json =>
    if dryRun then
      say (Log ["Dry run: Would have uploaded " +:+ fileName])
    else
      fun tr =>
        let reply := server tr fhirUrl json in
        let tr1 := (tr ++ [Post fhirUrl json reply])%list in
        match reply with
        | Accepted st txt =>
            say (Log ["[SUCCESS]: " +:+ pretty st +:+ " " +:+ txt; file]) tr1
        | Refused st txt data =>
            andThen
              (say (LogError ["[FAILURE]: " +:+ pretty st +:+ " " +:+ txt;
                              file]))
              (fun _ => say (LogError [data])) tr1
        | Failed msg => say (LogError ["[ERROR]: " +:+ msg; file]) tr1
        end).

(** [_paths.shift()] takes the head; an empty name is falsy. *)
Fixpoint uploadResources (paths : list string) (directory fhirUrl : string)
  : Run unit :=
  match paths with
  | [] => fun tr => (Ok tt, tr)
  | next :: rest =>
      if truthy (Some next) then
        andThen (uploadResource next directory fhirUrl) (fun _ =>
          if (0 <? length rest)%nat
          then uploadResources rest directory fhirUrl
          else fun tr => (Ok tt, tr))
      else fun tr => (Ok tt, tr)
  end.

(** The three arrays filled by [files.forEach]. *)
Record Groups := {
  hospitals : list string;
  pratitioners : list string;
  patients : list string
}.

Definition startsWith (s p : string) : bool := String.prefix p s.

Definition classify (g : Groups) (file : string) : Groups :=
  if startsWith file "hospitalInformation" then
    {| hospitals := (hospitals g ++ [file])%list;
       pratitioners := pratitioners g; patients := patients g |}
  else if startsWith file "practitionerInformation" then
    {| hospitals := hospitals g;
       pratitioners := (pratitioners g ++ [file])%list;
       patients := patients g |}
  else
    {| hospitals := hospitals g; pratitioners := pratitioners g;
       patients := (patients g ++ [file])%list |}.

(** The action of the command; [sDirectory] is [safeFilePathFor(directory)]
    and [listing] is [fs.readdirSync(sDirectory)]. *)
Definition synthea_upload (sDirectory fhirUrl : string)
    (listing : list string) : Run unit :=
  andThen (if dryRun
           then say (Log ["Dry run enabled. No resources will be uploaded."])
           else fun tr => (Ok tt, tr)) (fun _ =>
  andThen (say (Log ["Uploading Synthea-generated FHIR resources from "
                     +:+ sDirectory +:+ " to " +:+ fhirUrl])) (fun _ =>
  let files := List.filter json_ext listing in
  let g := foldl classify
             {| hospitals := []; pratitioners := []; patients := [] |}
             files in
  andThen (uploadResources (hospitals g) sDirectory fhirUrl) (fun _ =>
  andThen (uploadResources (pratitioners g) sDirectory fhirUrl) (fun _ =>
  andThen (uploadResources (patients g) sDirectory fhirUrl) (fun _ =>
  say (Log ["Done"])))))).

(** ** Vocabulary for the properties of the upload *)

(** The requests among the effects: the URL and the body of each. *)
Definition requests (tr : list effect) : list (string * Json) :=
  omap (fun e => match e with Post u b _ => Some (u, b) | _ => None end) tr.

(** The body a file is uploaded with, when it can be read and parsed. *)
Definition body_of (directory name : string) : option Json :=
  match texts !! path_join directory name with
  | Some raw =>
      match JSON_parse raw with
      | Ok json => Some json
      | _ => None
      end
  | None => None
  end.

Definition is_hospital (file : string) : bool :=
  startsWith file "hospitalInformation".

Definition is_practitioner (file : string) : bool :=
  negb (startsWith file "hospitalInformation")
  && startsWith file "practitionerInformation".

Definition is_patient (file : string) : bool :=
  negb (startsWith file "hospitalInformation")
  && negb (startsWith file "practitionerInformation").

(** The order in which the files of a listing are uploaded. *)
Definition upload_order (listing : list string) : list string :=
  let files := List.filter json_ext listing in
  (List.filter is_hospital files ++ List.filter is_practitioner files
   ++ List.filter is_patient files)%list.

End Upload.

Arguments Post {Json} url body reply.
Arguments Log {Json} args.
Arguments LogError {Json} args.

(** A directory of text files whose JSON documents are their own text, a
    text being JSON when it starts with a brace. *)
Definition sample_parse (raw : string) : Result string :=
  if String.prefix "{" raw then Ok raw
  else Throw (new_Error "Unexpected token in JSON at position 0").

Definition sample_ext (name : string) : bool :=
  Verify.endsWith name ".json" || Verify.endsWith name ".JSON".

Definition sample_texts : gmap string string :=
  <[ "/out/fhir/Abe_Smith.json" := "{patient}" ]>
  (<[ "/out/fhir/practitionerInformation1.json" := "{practitioners}" ]>
   (<[ "/out/fhir/hospitalInformation1.json" := "{hospitals}" ]>
    (<[ "/out/fhir/broken.json" := "oops" ]> ∅))).

(** A server that refuses every submission. *)
Definition refusing : list (@effect string) -> string -> string -> Reply :=
  fun _ _ _ => Refused 422 "Unprocessable Entity" "{}".

End Synthea.

(** * [firstFirstPatientId]

    The part of a FHIR [Bundle] the function reads: the entries, each with
    an optional resource, which has a type and an optional [id]. *)

Module PatientBundle.

Record Resource := {
  resourceType : string;
  id : option string
}.

Record Entry := { resource : option Resource }.

Record t := { entry : option (list Entry) }.

(** The body of the callback of [forEach], on the variable [id]. *)
Definition visit (found : option string) (e : Entry) : option string :=
  match resource e with
  | Some r =>
      if String.eqb (resourceType r) "Patient" && truthy (id r)
      then id r else found
  | None => found
  end.

Definition firstFirstPatientId (bundle : t) : option string :=
  foldl visit None (default [] (entry bundle)).

(** The identifier of an entry that is a patient with a non-empty
    [id]. *)
Definition patient_id (e : Entry) : option string :=
  match resource e with
  | Some r =>
      if String.eqb (resourceType r) "Patient" && truthy (id r)
      then id r else None
  | None => None
  end.

(** The identifiers of the patients of a bundle, in the order of the
    entries. *)
Definition patient_ids (bundle : t) : list string :=
  omap patient_id (default [] (entry bundle)).

End PatientBundle.

(** * Properties *)

(** ** The identifier normalizer *)

Lemma is_dot_true c : is_dot c = true -> c = "."%char.
Proof. unfold is_dot. intros H. by apply Ascii.eqb_eq in H. Qed.

Lemma is_digit_not_dot c : is_digit c = true -> is_dot c = false.
Proof.
  intros Hd. destruct (is_dot c) eqn:E; [|done].
  apply is_dot_true in E. subst c. discriminate Hd.
Qed.

Lemma span_spec p s :
  s = (fst (span p s) ++ snd (span p s))%list /\
  Forall (fun c => p c = true) (fst (span p s)) /\
  (forall c r, snd (span p s) = c :: r -> p c = false).
Proof.
  induction s as [|c s (Heq & Hall & Hstop)]; simpl.
  - repeat split; [constructor | discriminate].
  - destruct (p c) eqn:Hc.
    + destruct (span p s) as [a b]; simpl in *. repeat split.
      * by f_equal.
      * by constructor.
      * done.
    + simpl. repeat split; [constructor|]. intros ? ? [= <- <-]. done.
Qed.

Lemma span_app p a b :
  Forall (fun c => p c = true) a ->
  (forall c r, b = c :: r -> p c = false) ->
  span p (a ++ b) = (a, b).
Proof.
  intros Ha Hb. induction Ha as [|c a Hc _ IH]; simpl.
  - destruct b as [|c r]; [done|]. simpl. by rewrite (Hb c r).
  - by rewrite Hc, IH.
Qed.

(** A run that satisfies [p] is inside the longest one. *)
Lemma span_app_prefix p a b :
  Forall (fun c => p c = true) a ->
  exists a', fst (span p (a ++ b)) = (a ++ a')%list.
Proof.
  intros Ha. induction Ha as [|c a Hc _ [a' IH]]; simpl.
  - by eexists.
  - rewrite Hc. destruct (span p (a ++ b)) as [x y]; simpl in *. subst x.
    by eexists.
Qed.

Lemma match_here_Some s m :
  match_here s = Some m ->
  exists post, s = (m ++ post)%list /\ loose_oid m /\
               (forall c r, post = c :: r -> is_digit_or_dot c = false).
Proof.
  unfold match_here. intros H.
  destruct (span_spec is_digit s) as (Hs & Hds & _).
  destruct (span is_digit s) as [[|d ds] [|dot r]]; try discriminate.
  destruct (is_dot dot) eqn:Hdot; [|discriminate].
  apply is_dot_true in Hdot. subst dot.
  destruct (span_spec is_digit_or_dot r) as (Hr & Hts & Hstop).
  destruct (span is_digit_or_dot r) as [[|t ts] post]; [discriminate|].
  injection H as <-. simpl in *. exists post. split; [|split; [|done]].
  - rewrite Hs, Hr. simpl. rewrite <- app_assoc. done.
  - exists (d :: ds), (t :: ts). done.
Qed.

Lemma match_here_None s m post :
  match_here s = None -> s = (m ++ post)%list -> ~ loose_oid m.
Proof.
  intros Hnone -> (ds & rest & -> & Hne & Hds & Hrne & Hrest).
  revert Hnone. unfold match_here.
  rewrite <- !app_assoc. simpl.
  rewrite (span_app is_digit ds ("."%char :: rest ++ post)); [|done|].
  2:{ intros ? ? [= <- _]. done. }
  destruct ds as [|d ds]; [done|]. simpl.
  destruct (span_app_prefix is_digit_or_dot rest post Hrest) as [a' Ha'].
  destruct (span is_digit_or_dot (rest ++ post)) as [x y]. simpl in Ha'.
  subst x. destruct rest; [done|]. discriminate.
Qed.

Lemma regex_search_Some s m :
  regex_search s = Some m ->
  exists pre post,
    s = (pre ++ m ++ post)%list /\ loose_oid m /\
    (forall c r, post = c :: r -> is_digit_or_dot c = false) /\
    (forall pre' m' post',
        s = (pre' ++ m' ++ post')%list -> loose_oid m' ->
        length pre <= length pre').
Proof.
  induction s as [|c s IH]; simpl.
  - destruct (match_here []) eqn:E; [|discriminate]. discriminate.
  - destruct (match_here (c :: s)) as [m0|] eqn:E.
    + intros [= ->]. apply match_here_Some in E as (post & Hs & Hm & Hpost).
      exists [], post. simpl. repeat split; try done. intros. lia.
    + intros H. destruct (IH H) as (pre & post & Hs & Hm & Hpost & Hleft).
      exists (c :: pre), post. rewrite Hs. repeat split; try done.
      intros pre' m' post' Heq Hm'. destruct pre' as [|c' pre'].
      * exfalso. simpl in Heq. rewrite <- Hs in Heq.
        by apply (match_here_None _ _ _ E Heq).
      * simpl in Heq. injection Heq as _ Heq. simpl.
        rewrite <- Hs in Heq. specialize (Hleft _ _ _ Heq Hm'). lia.
Qed.

Lemma regex_search_None s pre m post :
  regex_search s = None -> s = (pre ++ m ++ post)%list -> ~ loose_oid m.
Proof.
  revert pre. induction s as [|c s IH]; intros pre; simpl.
  - intros _ Heq (ds & rest & -> & _).
    destruct pre, ds; discriminate.
  - destruct (match_here (c :: s)) eqn:E; [discriminate|].
    intros H Heq. destruct pre as [|c' pre].
    + simpl in Heq. by apply (match_here_None _ _ _ E Heq).
    + injection Heq as _ Heq. by apply (IH pre).
Qed.


(** C8, as the code has it: the normalizer returns the leftmost substring
    made of one or more digits, a dot, and the longest run of digits and
    dots that follows (so the result may hold consecutive dots or end in
    a dot), and it throws exactly when the input has no substring of that
    shape; the error is an [Error] with a message, thrown inside the
    [try] block of the job. *)
Theorem normalizeVsacId_leftmost_longest (id : string) :
  match normalizeVsacId id with
  | Ok m =>
      exists pre post,
        list_ascii_of_string id
        = (pre ++ list_ascii_of_string m ++ post)%list /\
        loose_oid (list_ascii_of_string m) /\
        (forall c r, post = c :: r -> is_digit_or_dot c = false) /\
        (forall pre' m' post',
            list_ascii_of_string id = (pre' ++ m' ++ post')%list ->
            loose_oid m' -> length pre <= length pre')
  | Throw e =>
      e = new_Error ("Could not extract OID from '" +:+ id +:+ "'") /\
      (forall pre m post,
          list_ascii_of_string id = (pre ++ m ++ post)%list -> ~ loose_oid m)
  | Diverge => False
  end.
Proof.
  unfold normalizeVsacId.
  destruct (regex_search (list_ascii_of_string id)) as [m|] eqn:E.
  - rewrite list_ascii_of_string_of_list_ascii.
    by apply regex_search_Some.
  - split; [done|]. intros pre m post. by apply regex_search_None.
Qed.

(** C8 as stated fails: a trailing dot is part of the result, which is then
    not a dotted-numeric string, and an input without any dotted-numeric
    substring is accepted. *)
Lemma normalizeVsacId_not_dotted_numeric :
  normalizeVsacId "1.2." = Ok "1.2." /\ dotted_numeric "1.2." = false /\
  dotted_numeric "1.2" = true /\
  normalizeVsacId "v1..x" = Ok "1.." /\ has_dotted_numeric "v1..x" = false.
Proof. repeat split; vm_compute; reflexivity. Qed.

(** The forms the source names: a bare OID, [urn:oid:] and a canonical
    URL. *)
Example normalizeVsacId_forms :
  let oid := "2.16.840.1.113883.3.464.1003.110.12.1001" in
  normalizeVsacId oid = Ok oid /\
  normalizeVsacId ("urn:oid:" +:+ oid) = Ok oid /\
  normalizeVsacId ("http://cts.nlm.nih.gov/fhir/ValueSet/" +:+ oid) = Ok oid.
Proof. vm_compute. repeat split; reflexivity. Qed.

Lemma regex_search_here s m : match_here s = Some m -> regex_search s = Some m.
Proof. intros H. destruct s; [done|]. simpl. by rewrite H. Qed.

Lemma regex_search_skip pre s :
  Forall (fun c => is_digit c = false) pre ->
  regex_search (pre ++ s) = regex_search s.
Proof.
  induction 1 as [|c pre Hc _ IH]; [done|].
  simpl. unfold match_here. simpl. by rewrite Hc.
Qed.

(** An identifier with a prefix that holds no digit (such as [urn:oid:] or
    [http://cts.nlm.nih.gov/fhir/ValueSet/]) and a rest that does not
    start with a digit or a dot is returned as it is. *)
Lemma normalizeVsacId_prefixed pre m post :
  Forall (fun c => is_digit c = false) pre ->
  loose_oid m ->
  (forall c r, post = c :: r -> is_digit_or_dot c = false) ->
  normalizeVsacId (string_of_list_ascii (pre ++ m ++ post))
  = Ok (string_of_list_ascii m).
Proof.
  intros Hpre (ds & rest & -> & Hne & Hds & Hrne & Hrest) Hpost.
  unfold normalizeVsacId.
  rewrite list_ascii_of_string_of_list_ascii, regex_search_skip by done.
  assert (match_here ((ds ++ "."%char :: rest) ++ post)
          = Some (ds ++ "."%char :: rest)%list) as Hm.
  { unfold match_here. rewrite <- app_assoc. simpl.
    rewrite (span_app is_digit ds ("."%char :: rest ++ post)); [|done|].
    2:{ intros ? ? [= <- _]. done. }
    destruct ds as [|d ds]; [done|]. simpl.
    rewrite (span_app is_digit_or_dot rest post) by done.
    by destruct rest. }
  by rewrite (regex_search_here _ _ Hm).
Qed.

(** ** The retry loop *)

(** What one run of the retry loop does, for every way the server may
    answer: some failures that are retried, each followed by its wait, and
    then a success (the page is written to the cache at once), a failure
    that is not retried, or nothing more when [n] failures were retried. *)
Lemma retryLoop_spec net client url cache n tries w :
  exists es fin,
    let '(r, w') := retryLoop net client url cache n tries w in
    trace w' = (trace w ++ retried url tries es ++ fin)%list /\
    Forall (fun e => retryable e = true) es /\
    match r with
    | Ok (Some page, t') =>
        t' = tries + length es /\ length es < n /\
        fin = NetGet url (GetOk page) :: cache_write cache page /\
        fs w' = match cache with
                | Some (_, f) => <[f := page]> (fs w)
                | None => fs w
                end
    | Ok (None, t') =>
        t' = tries + length es /\ length es = n /\ fin = [] /\ fs w' = fs w
    | Throw e =>
        retryable e = false /\ length es < n /\
        fin = [NetGet url (GetFail e)] /\ fs w' = fs w
    | Diverge => False
    end.
Proof.
  revert tries w. induction n as [|n IH]; intros tries w.
  - exists [], []. simpl. rewrite app_nil_r. repeat split; auto.
  - simpl. unfold client_get.
    destruct (net_get net (trace w) client url) as [page|e] eqn:Hreply.
    + exists [], (NetGet url (GetOk page) :: cache_write cache page).
      destruct cache as [[dir file]|]; simpl;
        repeat split; auto; try lia; by rewrite <- ?app_assoc.
    + destruct (retryable e) eqn:Hre.
      * specialize (IH (S tries)
                      (emit (Sleep (backoff (S tries)))
                            (emit (NetGet url (GetFail e)) w))).
        destruct IH as (es & fin & IH). exists (e :: es), fin.
        destruct (retryLoop net client url cache n (S tries) _) as [r w'].
        destruct IH as (Htr & Hes & Hr). split; [|split].
        -- rewrite Htr. simpl. rewrite <- !app_assoc. done.
        -- by constructor.
        -- destruct r as [[[page|] t']|e'|]; simpl in *;
             intuition (auto; lia).
      * exists [], [NetGet url (GetFail e)]. simpl. repeat split; auto. lia.
Qed.

(** ** One page *)

Lemma fetchPage_hit net client oid opts offset tries w f page :
  cacheFile oid opts offset = Some f ->
  fs w !! f = Some page ->
  fetchPage net client oid opts offset tries w = (Ok (page, tries), w).
Proof. intros Hf Hpage. unfold fetchPage. rewrite Hf. simpl. by rewrite Hpage. Qed.

Lemma fetchPage_miss net client oid opts offset tries w :
  cacheFile oid opts offset ≫= (fun f => fs w !! f) = None ->
  ExpandOpts.dryRun opts = false ->
  exists es fin,
    let url := expand_url oid opts offset in
    let '(r, w') := fetchPage net client oid opts offset tries w in
    trace w' = (trace w ++ retried url tries es ++ fin)%list /\
    Forall (fun e => retryable e = true) es /\
    match r with
    | Ok (page, t') =>
        t' = tries + length es /\
        length es < ExpandOpts.retry opts - tries /\
        fin = NetGet url (GetOk page)
              :: cache_write (cache_of oid opts offset) page /\
        fs w' = match cacheFile oid opts offset with
                | Some f => <[f := page]> (fs w)
                | None => fs w
                end
    | Throw e =>
        fs w' = fs w /\
        (retryable e = false /\
         length es < ExpandOpts.retry opts - tries /\
         fin = [NetGet url (GetFail e)]
         \/
         e = retries_failed opts /\
         length es = ExpandOpts.retry opts - tries /\ fin = [])
    | Diverge => False
    end.
Proof.
  intros Hmiss Hdry. unfold fetchPage. rewrite Hmiss, Hdry. simpl.
  unfold bindM.
  destruct (retryLoop_spec net client (expand_url oid opts offset)
              (cache_of oid opts offset)
              (ExpandOpts.retry opts - tries) tries w) as (es & fin & H).
  exists es, fin. unfold cache_of in *.
  destruct (retryLoop net client _ _ _ tries w) as [r w'].
  destruct H as (Htr & Hes & Hr).
  destruct r as [[[page|] t']|e|]; simpl in *.
  - destruct Hr as (-> & Hlt & -> & Hfs). repeat split; auto.
    rewrite Hfs. by destruct (cacheFile oid opts offset).
  - destruct Hr as (-> & Hlen & -> & Hfs). unfold throw.
    repeat split; auto.
  - destruct Hr as (Hre & Hlt & -> & Hfs). repeat split; auto.
  - done.
Qed.

(** Whatever happens, a page fetch changes at most its own cache file. *)
Lemma fetchPage_fs net client oid opts offset tries w :
  let '(r, w') := fetchPage net client oid opts offset tries w in
  fs w' = fs w \/
  exists f page t', cacheFile oid opts offset = Some f /\
                    r = Ok (page, t') /\ fs w' = <[f := page]> (fs w).
Proof.
  unfold fetchPage.
  destruct (cacheFile oid opts offset ≫= _) as [page|] eqn:Hc; [by left|].
  destruct (ExpandOpts.dryRun opts); simpl; [by left|].
  unfold bindM.
  destruct (retryLoop_spec net client (expand_url oid opts offset)
              (cacheFile oid opts offset ≫= fun f =>
                 Some (default "" (ExpandOpts.cacheDir opts), f))
              (ExpandOpts.retry opts - tries) tries w) as (es & fin & H).
  destruct (retryLoop net client _ _ _ tries w) as [r w'].
  destruct H as (_ & _ & Hr).
  destruct r as [[[page|] t']|e|]; simpl in *.
  - destruct Hr as (_ & _ & _ & Hfs).
    destruct (cacheFile oid opts offset) as [f|]; simpl in *; [|by left].
    right. by exists f, page, t'.
  - left. tauto.
  - left. tauto.
  - done.
Qed.

(** A page that was fetched is in the cache when [fetchPage] returns. *)
Lemma fetchPage_cached net client oid opts offset tries w page t' w' f :
  fetchPage net client oid opts offset tries w = (Ok (page, t'), w') ->
  cacheFile oid opts offset = Some f ->
  fs w' !! f = Some page.
Proof.
  intros Hrun Hf.
  destruct (fs w !! f) as [cached|] eqn:Hhit.
  - rewrite (fetchPage_hit _ _ _ _ _ _ _ _ _ Hf Hhit) in Hrun.
    by injection Hrun as <- _ <-.
  - pose proof (fetchPage_fs net client oid opts offset tries w) as H.
    rewrite Hrun in H. destruct H as [Hsame|(f' & p & t & Hf' & [= <- _] & Hfs)].
    + exfalso. revert Hrun. unfold fetchPage. rewrite Hf. simpl.
      rewrite Hhit. destruct (ExpandOpts.dryRun opts); simpl; [done|].
      unfold bindM.
      destruct (retryLoop_spec net client (expand_url oid opts offset)
                  (Some (default "" (ExpandOpts.cacheDir opts), f))
                  (ExpandOpts.retry opts - tries) tries w) as (es & fin & H).
      destruct (retryLoop net client _ _ _ tries w) as [r w2].
      destruct H as (_ & _ & Hr).
      destruct r as [[[p|] t]|e|]; simpl in *; try done.
      intros [= -> -> ->]. destruct Hr as (_ & _ & _ & Hfs).
      assert (fs w' !! f = Some page) as Hl by (rewrite Hfs; apply lookup_insert_eq).
      rewrite Hsame, Hhit in Hl. done.
    + rewrite Hf in Hf'. injection Hf' as <-. rewrite Hfs.
      apply lookup_insert_eq.
Qed.

(** ** The page loop *)

Lemma stops_iff page got : stops page got = true <-> stop_condition page got.
Proof.
  unfold stops, stop_condition, falsy_num, reached.
  rewrite !orb_true_iff, Nat.eqb_eq.
  destruct (page_total page) as [t|]; simpl.
  - rewrite Z.eqb_eq, Z.leb_le. split.
    + intros [[H|H]|H]; [by left| right; right; left; by subst |].
      right; right; right. by exists t.
    + intros [H|[H|[H|(t' & H & Hle)]]]; try discriminate; auto.
      * injection H as ->. auto.
      * injection H as <-. auto.
  - split; [|intros _; auto]. intros _. right. by left.
Qed.

Lemma stops_false_contains page got :
  stops page got = false -> contains_length page <> 0.
Proof.
  unfold stops. rewrite !orb_false_iff. intros [[H _] _].
  by apply Nat.eqb_neq in H.
Qed.

(** The loop and the relation agree: a loop that returns has run a
    [page_run], and a [page_run] is what the loop does with enough fuel. *)
Lemma expansionLoop_page_run net client oid opts fuel :
  forall offset pages0 got tries w pages w',
    expansionLoop fuel net client oid opts offset pages0 got tries w
    = (Ok pages, w') ->
    exists new, pages = (pages0 ++ new)%list /\ length new <= fuel /\
                page_run net client oid opts offset got tries w new w'.
Proof.
  induction fuel as [|fuel IH]; intros offset pages0 got tries w pages w';
    simpl; [discriminate|].
  unfold bindM.
  destruct (fetchPage net client oid opts offset tries w) as [[[page t1]|e|] w1]
    eqn:Hpage; try discriminate.
  simpl. fold (stops page (got + contains_length page)).
  destruct (stops page (got + contains_length page)) eqn:Hstop.
  - intros [= <- <-]. exists [page]. repeat split; simpl; [lia|].
    by eapply run_last.
  - rewrite (proj2 (Nat.eqb_neq _ _) (stops_false_contains _ _ Hstop)).
    intros Hrest. apply IH in Hrest as (new & -> & Hlen & Hrun).
    exists (page :: new). rewrite <- app_assoc. repeat split; simpl; [lia|].
    by eapply run_more.
Qed.

Lemma page_run_expansionLoop net client oid opts offset got tries w new w' :
  page_run net client oid opts offset got tries w new w' ->
  forall fuel pages0,
    length new <= fuel ->
    expansionLoop fuel net client oid opts offset pages0 got tries w
    = (Ok (pages0 ++ new)%list, w').
Proof.
  induction 1 as [offset got tries w page t1 w1 Hpage Hstop
                 |offset got tries w page t1 w1 ps w' Hpage Hstop _ IH];
    intros [|fuel] pages0 Hlen; simpl in Hlen; try lia; simpl;
    unfold bindM; rewrite Hpage; simpl;
    fold (stops page (got + contains_length page)); rewrite Hstop.
  - done.
  - rewrite (proj2 (Nat.eqb_neq _ _) (stops_false_contains _ _ Hstop)).
    rewrite (IH fuel (pages0 ++ [page])%list) by lia.
    by rewrite <- app_assoc.
Qed.

Lemma page_run_nonempty net client oid opts offset got tries w new w' :
  page_run net client oid opts offset got tries w new w' -> new <> [].
Proof. by destruct 1. Qed.

Lemma items_in_cons n p ps :
  items_in (S n) (p :: ps) = contains_length p + items_in n ps.
Proof. done. Qed.

(** The loop stops at the first page that meets the stop condition. *)
Lemma page_run_stop net client oid opts offset got tries w new w' :
  page_run net client oid opts offset got tries w new w' ->
  forall i p,
    new !! i = Some p ->
    (stop_condition p (got + items_in (S i) new) <-> S i = length new).
Proof.
  induction 1 as [offset got tries w page t1 w1 Hpage Hstop
                 |offset got tries w page t1 w1 ps w' Hpage Hstop Hrun IH];
    intros i p Hi.
  - destruct i; [|done]. injection Hi as <-. rewrite items_in_cons.
    unfold items_in. simpl. rewrite Nat.add_0_r.
    split; [done|]. intros _. by apply stops_iff.
  - destruct i as [|i]; simpl in Hi.
    + injection Hi as <-. rewrite items_in_cons. unfold items_in at 1. simpl.
      rewrite Nat.add_0_r. rewrite <- stops_iff, Hstop.
      apply page_run_nonempty in Hrun. destruct ps; [done|].
      split; [done|]. simpl. lia.
    + rewrite items_in_cons, Nat.add_assoc. rewrite (IH i p Hi).
      simpl. lia.
Qed.

(** The requests of a page fetch all go to the URL of its offset. *)
Lemma fetchPage_gets net client oid opts offset tries w :
  exists n,
    gets (trace (snd (fetchPage net client oid opts offset tries w)))
    = (gets (trace w) ++ replicate n (expand_url oid opts offset))%list.
Proof.
  assert (forall url tries es,
             gets (retried url tries es) = replicate (length es) url) as Hret.
  { intros url t es. revert t. induction es as [|e es IH]; intros t; [done|].
    simpl. unfold gets in *. simpl. by rewrite IH. }
  destruct (cacheFile oid opts offset ≫= (fun f => fs w !! f)) as [page|] eqn:Hc.
  - exists 0. unfold fetchPage. rewrite Hc. simpl. by rewrite app_nil_r.
  - destruct (ExpandOpts.dryRun opts) eqn:Hdry.
    + exists 0. unfold fetchPage. rewrite Hc, Hdry. simpl. by rewrite app_nil_r.
    + destruct (fetchPage_miss net client oid opts offset tries w Hc Hdry)
        as (es & fin & H).
      destruct (fetchPage net client oid opts offset tries w) as [r w'].
      simpl in *. destruct H as (-> & _ & Hr).
      unfold gets in *. rewrite !omap_app. fold (gets (trace w)).
      change (omap _ (retried ?u ?t ?e)) with (gets (retried u t e)).
      rewrite Hret.
      destruct r as [[page t']|e|]; [| |done].
      * destruct Hr as (_ & _ & -> & _). exists (S (length es)).
        f_equal. rewrite replicate_S_end. f_equal.
        unfold cache_write. destruct (cache_of _ _ _) as [[? ?]|]; done.
      * destruct Hr as (_ & [(_ & _ & ->)|(_ & _ & ->)]).
        -- exists (S (length es)). by rewrite replicate_S_end.
        -- exists (length es). simpl. by rewrite app_nil_r.
Qed.

(** The requests of a whole fetch: for each page in turn, some number of
    requests (none on a cache hit) for the offset of that page. *)
Lemma page_run_gets net client oid opts offset got tries w new w' :
  page_run net client oid opts offset got tries w new w' ->
  exists ns,
    length ns = length new /\
    gets (trace w')
    = (gets (trace w)
       ++ concat (zip_with (fun n o => replicate n (expand_url oid opts o))
                    ns (offsets_from offset new)))%list.
Proof.
  induction 1 as [offset got tries w page t1 w1 Hpage Hstop
                 |offset got tries w page t1 w1 ps w' Hpage Hstop Hrun IH].
  - destruct (fetchPage_gets net client oid opts offset tries w) as [n Hn].
    rewrite Hpage in Hn. exists [n]. simpl in *. by rewrite app_nil_r.
  - destruct (fetchPage_gets net client oid opts offset tries w) as [n Hn].
    rewrite Hpage in Hn. destruct IH as (ns & Hlen & IH).
    exists (n :: ns). simpl in *. split; [lia|].
    by rewrite IH, Hn, <- app_assoc.
Qed.

(** The offsets of a fetch grow strictly. *)
Lemma page_run_offsets net client oid opts offset got tries w new w' :
  page_run net client oid opts offset got tries w new w' ->
  head (offsets_from offset new) = Some offset /\
  forall i a b,
    offsets_from offset new !! i = Some a ->
    offsets_from offset new !! S i = Some b -> a < b.
Proof.
  induction 1 as [offset got tries w page t1 w1 Hpage Hstop
                 |offset got tries w page t1 w1 ps w' Hpage Hstop Hrun IH].
  - split; [done|]. intros i a b _ Hb. destruct i; done.
  - split; [done|]. destruct IH as [Hhd IH]. intros i a b Ha Hb.
    destruct i as [|i]; simpl in *.
    + injection Ha as <-. destruct (offsets_from _ ps) as [|o os]; [done|].
      simpl in *. injection Hhd as ->. injection Hb as <-.
      apply stops_false_contains in Hstop. lia.
    + by eapply IH.
Qed.

(** C1, as the code has it: an expansion fetch that returns has asked for
    its pages at strictly increasing offsets, the first at offset 0 and
    each next one at the number of items received so far (the network
    requests are, page after page, some number of requests for the offset
    of that page, none when the page came from the cache), and it stops at
    the first page that has no items, or declares no total (none, or
    zero), or with which the items received reach the declared total. *)
Theorem expansion_offsets_and_stop fuel net client oid opts w pages w' :
  fetchValueSetExpansion fuel net client oid opts w = (Ok pages, w') ->
  pages <> [] /\
  head (offsets_from 0 pages) = Some 0 /\
  (forall i a b,
      offsets_from 0 pages !! i = Some a ->
      offsets_from 0 pages !! S i = Some b -> a < b) /\
  (forall i p o,
      pages !! i = Some p -> offsets_from 0 pages !! i = Some o ->
      o = items_in i pages) /\
  (exists ns,
      length ns = length pages /\
      gets (trace w')
      = (gets (trace w)
         ++ concat (zip_with (fun n o => replicate n (expand_url oid opts o))
                      ns (offsets_from 0 pages)))%list) /\
  (forall i p,
      pages !! i = Some p ->
      (stop_condition p (items_in (S i) pages) <-> S i = length pages)).
Proof.
  unfold fetchValueSetExpansion. intros Hrun.
  apply expansionLoop_page_run in Hrun as (new & -> & _ & Hrun). simpl.
  destruct (page_run_offsets _ _ _ _ _ _ _ _ _ _ Hrun) as [Hhd Hinc].
  repeat split.
  - by eapply page_run_nonempty.
  - done.
  - done.
  - intros i p o _. clear. change (items_in i new) with (0 + items_in i new).
    generalize 0 as base. revert i o.
    induction new as [|q qs IH]; intros i o base Ho; [done|].
    destruct i as [|i]; simpl in Ho.
    + injection Ho as <-. unfold items_in. simpl. lia.
    + apply IH in Ho. unfold items_in in *. simpl. lia.
  - by eapply page_run_gets.
  - intros Hstop. by apply (page_run_stop _ _ _ _ _ _ _ _ _ _ Hrun i p H).
  - intros Hlast. by apply (page_run_stop _ _ _ _ _ _ _ _ _ _ Hrun i p H).
Qed.

(** A fetch of two pages, the second of which ends it. *)
Lemma expansion_offsets_and_stop_witness :
  let pages := [page_of ["a"; "b"] (Some 3%Z); page_of ["c"] (Some 3%Z)] in
  offsets_from 0 pages = [0; 2] /\
  (stop_condition (page_of ["c"] (Some 3%Z)) (items_in 2 pages)
   <-> 2 = length pages).
Proof.
  intros pages. split; [reflexivity|].
  pose (net := scripted [GetOk (page_of ["a"; "b"] (Some 3%Z));
                         GetOk (page_of ["c"] (Some 3%Z))]).
  pose (run := fetchValueSetExpansion 5 net (buildVsacAxios "key") "1.2"
                 (sample_opts None 3) empty_world).
  assert (run = (Ok pages, snd run)) as Hrun by (vm_compute; reflexivity).
  destruct (expansion_offsets_and_stop _ _ _ _ _ _ _ _ Hrun)
    as (_ & _ & _ & _ & _ & Hstop).
  exact (Hstop 1 (page_of ["c"] (Some 3%Z)) eq_refl).
Defined.

(** C1 as stated fails: a page with two items and no declared total ends
    the fetch, although the server holds a further page. *)
Lemma fetch_stops_at_page_without_total :
  let net := scripted [GetOk (page_of ["a"; "b"] None);
                       GetOk (page_of ["c"] None)] in
  let client := buildVsacAxios "key" in
  let opts := sample_opts None 3 in
  let run := fetchValueSetExpansion 5 net client "1.2" opts empty_world in
  fst run = Ok [page_of ["a"; "b"] None] /\
  contains_length (page_of ["a"; "b"] None) = 2 /\
  page_total (page_of ["a"; "b"] None) = None /\
  gets (trace (snd run)) = [expand_url "1.2" opts 0] /\
  net_get net (trace (snd run)) client (expand_url "1.2" opts 2)
  = GetOk (page_of ["c"] None).
Proof. vm_compute. repeat split; reflexivity. Qed.

(** *** The fuel of the page loop *)

Lemma fetchPage_ends net client oid opts offset tries w :
  fst (fetchPage net client oid opts offset tries w) <> Diverge.
Proof.
  destruct (cacheFile oid opts offset ≫= (fun f => fs w !! f)) as [page|] eqn:Hc.
  { unfold fetchPage. by rewrite Hc. }
  destruct (ExpandOpts.dryRun opts) eqn:Hdry.
  { unfold fetchPage. by rewrite Hc, Hdry. }
  destruct (fetchPage_miss net client oid opts offset tries w Hc Hdry)
    as (es & fin & H).
  simpl in H. destruct (fetchPage net client oid opts offset tries w) as [r w'].
  destruct H as (_ & _ & Hr). by destruct r.
Qed.

(** More fuel does not change a fetch that came to an end. *)
Lemma expansionLoop_fuel_mono net client oid opts fuel :
  forall fuel' offset pages got tries w,
    fuel <= fuel' ->
    fst (expansionLoop fuel net client oid opts offset pages got tries w)
    <> Diverge ->
    expansionLoop fuel' net client oid opts offset pages got tries w
    = expansionLoop fuel net client oid opts offset pages got tries w.
Proof.
  induction fuel as [|fuel IH]; intros fuel' offset pages got tries w Hle;
    simpl; [done|].
  destruct fuel' as [|fuel']; [lia|]. simpl. unfold bindM.
  destruct (fetchPage net client oid opts offset tries w) as [[[page t1]|e|] w1];
    simpl; try done.
  destruct (_ || _ || _); [done|].
  destruct (contains_length page =? 0)%nat; [done|].
  apply IH. lia.
Qed.

(** When no page declares a total above [T], a fetch ends within [T + 1]
    pages: each page that does not end it brings at least one item, and
    the number of items stays below the declared total. *)
Lemma expansion_terminates net client oid opts (T : nat) :
  (forall offset tries w page t w1 z,
      fetchPage net client oid opts offset tries w = (Ok (page, t), w1) ->
      page_total page = Some z -> (z <= Z.of_nat T)%Z) ->
  forall fuel w,
    T < fuel ->
    fst (fetchValueSetExpansion fuel net client oid opts w) <> Diverge.
Proof.
  intros Hbound fuel w Hfuel. unfold fetchValueSetExpansion.
  assert (forall fuel offset pages got tries w,
             got <= T -> T < fuel + got ->
             fst (expansionLoop fuel net client oid opts offset pages got
                    tries w) <> Diverge) as Hloop.
  { clear fuel w Hfuel.
    induction fuel as [|fuel IH]; intros offset pages got tries w Hgot Hfuel;
      [lia|].
    simpl. unfold bindM.
    pose proof (fetchPage_ends net client oid opts offset tries w) as Hends.
    destruct (fetchPage net client oid opts offset tries w)
      as [[[page t1]|e|] w1] eqn:Hpage; simpl in *; try done.
    fold (stops page (got + contains_length page)).
    destruct (stops page (got + contains_length page)) eqn:Hstop; [done|].
    pose proof (stops_false_contains _ _ Hstop) as Hc.
    rewrite (proj2 (Nat.eqb_neq _ _) Hc).
    unfold stops, falsy_num, reached in Hstop.
    destruct (page_total page) as [z|] eqn:Htotal;
      [|by rewrite orb_true_r in Hstop].
    rewrite !orb_false_iff in Hstop. destruct Hstop as [_ Hreach].
    apply Z.leb_gt in Hreach.
    pose proof (Hbound _ _ _ _ _ _ _ Hpage Htotal).
    apply IH; lia. }
  apply Hloop; lia.
Qed.

(** ** The retry policy *)

Lemma retryable_iff e :
  retryable e = true <->
  exists r, response e = Some r /\ (status r = 429 \/ 500 <= status r)%Z.
Proof.
  unfold retryable. destruct (response e) as [r|].
  - rewrite orb_true_iff, Z.leb_le, Z.eqb_eq. split.
    + intros H. exists r. split; [done|tauto].
    + intros (r' & [= <-] & H). tauto.
  - split; [done|]. by intros (r & ? & _).
Qed.

Lemma sleeps_app tr1 tr2 :
  sleeps (tr1 ++ tr2) = (sleeps tr1 ++ sleeps tr2)%list.
Proof. unfold sleeps. apply omap_app. Qed.

Lemma sleeps_retried url tries es :
  sleeps (retried url tries es) = map backoff (seq (S tries) (length es)).
Proof.
  revert tries. induction es as [|e es IH]; intros tries; [done|].
  simpl. unfold sleeps in *. simpl. by rewrite IH.
Qed.

(** The waits of one page: the next [j] terms of the backoff sequence. *)
Lemma fetchPage_sleeps net client oid opts offset tries w :
  let '(r, w') := fetchPage net client oid opts offset tries w in
  exists j,
    j <= ExpandOpts.retry opts - tries /\
    sleeps (trace w')
    = (sleeps (trace w) ++ map backoff (seq (S tries) j))%list /\
    forall page t', r = Ok (page, t') -> t' = tries + j.
Proof.
  destruct (cacheFile oid opts offset ≫= (fun f => fs w !! f)) as [page|] eqn:Hc.
  { unfold fetchPage. rewrite Hc. exists 0. simpl. rewrite app_nil_r.
    repeat split; [lia|]. intros ? ? [= _ <-]. lia. }
  destruct (ExpandOpts.dryRun opts) eqn:Hdry.
  { unfold fetchPage. rewrite Hc, Hdry. exists 0. simpl. rewrite app_nil_r.
    repeat split; [lia|done]. }
  destruct (fetchPage_miss net client oid opts offset tries w Hc Hdry)
    as (es & fin & H).
  simpl in H. destruct (fetchPage net client oid opts offset tries w) as [r w'].
  destruct H as (-> & _ & Hr). exists (length es).
  rewrite !sleeps_app, sleeps_retried.
  destruct r as [[page t']|e|]; [| |done].
  - destruct Hr as (-> & Hlt & -> & _). split; [lia|]. split.
    + f_equal. unfold cache_write.
      destruct (cache_of oid opts offset) as [[? ?]|]; simpl;
        by rewrite app_nil_r.
    + by intros ? ? [= _ <-].
  - destruct Hr as (_ & [(_ & Hlt & ->)|(_ & Hlen & ->)]);
      (split; [lia|]); (split; [|done]); simpl; by rewrite app_nil_r.
Qed.

(** The waits of a whole fetch, from the state [tries] on. *)
Lemma expansionLoop_sleeps net client oid opts fuel :
  forall offset pages got tries w,
    let '(r, w') :=
      expansionLoop fuel net client oid opts offset pages got tries w in
    exists j,
      j <= ExpandOpts.retry opts - tries /\
      sleeps (trace w')
      = (sleeps (trace w) ++ map backoff (seq (S tries) j))%list.
Proof.
  induction fuel as [|fuel IH]; intros offset pages got tries w; simpl.
  { exists 0. simpl. rewrite app_nil_r. split; [lia|done]. }
  unfold bindM.
  pose proof (fetchPage_sleeps net client oid opts offset tries w) as Hp.
  destruct (fetchPage net client oid opts offset tries w) as [[[page t1]|e|] w1];
    destruct Hp as (j1 & Hj1 & Hs1 & Ht1); simpl;
    try (by exists j1).
  destruct (_ || _ || _); [by exists j1|].
  destruct (contains_length page =? 0)%nat; [by exists j1|].
  specialize (Ht1 page t1 eq_refl). subst t1.
  specialize (IH (offset + contains_length page) (pages ++ [page])%list
                (got + contains_length page) (tries + j1) w1).
  destruct (expansionLoop fuel net client oid opts _ _ _ _ w1) as [r w'].
  destruct IH as (j2 & Hj2 & Hs2). exists (j1 + j2). split; [lia|].
  rewrite Hs2, Hs1, <- app_assoc, <- map_app. do 2 f_equal.
  rewrite seq_app. do 2 f_equal.
Qed.

(** C5, as the code has it: on a cache miss the request is sent again only
    after a failure whose response status is 429 or at least 500, and
    after a wait of [1000 * 2^k] ms, where [k] counts such failures over
    the whole expansion fetch ([tries] is not reset between pages). A
    request that starts when [tries] of them have occurred is sent at most
    [retry - tries] times: the events are the retried failures [es], each
    with its wait, and then either the answer that ends the loop (a page,
    or a failure of another kind, which is thrown as it is), or nothing
    more when the budget is used up. Over a whole fetch, however many
    pages it has, the waits are [1000 * 2^1], ..., [1000 * 2^j] for some
    [j] that is at most [retry]. *)
Theorem retry_policy net client oid opts :
  (forall offset tries w,
      cacheFile oid opts offset ≫= (fun f => fs w !! f) = None ->
      ExpandOpts.dryRun opts = false ->
      exists es fin,
        let url := expand_url oid opts offset in
        let '(r, w') := fetchPage net client oid opts offset tries w in
        trace w' = (trace w ++ retried url tries es ++ fin)%list /\
        Forall (fun e => exists r, response e = Some r /\
                                   (status r = 429 \/ 500 <= status r)%Z) es /\
        match r with
        | Ok (page, t') =>
            t' = tries + length es /\
            S (length es) <= ExpandOpts.retry opts - tries /\
            fin = NetGet url (GetOk page)
                  :: cache_write (cache_of oid opts offset) page
        | Throw e =>
            (~ (exists r, response e = Some r /\
                          (status r = 429 \/ 500 <= status r)%Z) /\
             S (length es) <= ExpandOpts.retry opts - tries /\
             fin = [NetGet url (GetFail e)])
            \/
            (e = retries_failed opts /\
             length es = ExpandOpts.retry opts - tries /\ fin = [])
        | Diverge => False
        end)
  /\
  (forall fuel w,
      let '(r, w') := fetchValueSetExpansion fuel net client oid opts w in
      exists j,
        j <= ExpandOpts.retry opts /\
        sleeps (trace w')
        = (sleeps (trace w) ++ map backoff (seq 1 j))%list).
Proof.
  split.
  - intros offset tries w Hmiss Hdry.
    destruct (fetchPage_miss net client oid opts offset tries w Hmiss Hdry)
      as (es & fin & H).
    exists es, fin. simpl in *.
    destruct (fetchPage net client oid opts offset tries w) as [r w'].
    destruct H as (Htr & Hes & Hr). split; [done|]. split.
    + eapply Forall_impl; [exact Hes|]. intros e He. by apply retryable_iff.
    + destruct r as [[page t']|e|]; [| |done].
      * destruct Hr as (? & ? & ? & _). repeat split; auto.
      * destruct Hr as (_ & [(Hre & ? & ?)|(? & ? & ?)]); [left|right; auto].
        repeat split; auto. rewrite <- retryable_iff. by rewrite Hre.
  - intros fuel w. unfold fetchValueSetExpansion.
    pose proof (expansionLoop_sleeps net client oid opts fuel 0 [] 0 0 w) as H.
    destruct (expansionLoop fuel net client oid opts 0 [] 0 0 w) as [r w'].
    destruct H as (j & Hj & Hs). exists j. split; [lia|done].
Qed.

(** One failure with status 503 and then the page: one wait of 2000 ms. *)
Lemma retry_policy_witness :
  let net := scripted [GetFail (http_error 503);
                       GetOk (page_of ["a"] (Some 1%Z))] in
  let opts := sample_opts None 3 in
  let run := fetchPage net (buildVsacAxios "key") "1.2" opts 0 0 empty_world in
  fst run = Ok (page_of ["a"] (Some 1%Z), 1) /\
  exists es fin,
    trace (snd run)
    = (retried (expand_url "1.2" opts 0) 0 es ++ fin)%list /\
    length es = 1.
Proof.
  intros net opts run.
  destruct (retry_policy net (buildVsacAxios "key") "1.2" opts) as [Hpage _].
  destruct (Hpage 0 0 empty_world
              ltac:(vm_compute; reflexivity) ltac:(reflexivity))
    as (es & fin & H).
  simpl in H. fold net opts in H.
  change (fetchPage net (buildVsacAxios "key") "1.2" opts 0 0 empty_world)
    with run in H.
  assert (fst run = Ok (page_of ["a"] (Some 1%Z), 1)) as Hrun
    by (vm_compute; reflexivity).
  split; [exact Hrun|]. destruct run as [r w']. simpl in *. subst r.
  destruct H as (Htr & _ & Ht & _). exists es, fin. split; [exact Htr|lia].
Defined.

(** C5 as stated fails: with a maximum of 3, two failures while fetching
    the first page leave one attempt for the second page. Its request is
    sent once, the wait after its failure is [1000 * 2^3] ms, and the
    fetch fails. *)
Lemma retry_budget_is_shared_across_pages :
  let net := scripted [GetFail (http_error 503); GetFail (http_error 503);
                       GetOk (page_of ["a"; "b"] (Some 4%Z));
                       GetFail (http_error 503)] in
  let opts := sample_opts None 3 in
  let run := fetchValueSetExpansion 5 net (buildVsacAxios "key") "1.2" opts
               empty_world in
  fst run = Throw (retries_failed opts) /\
  gets (trace (snd run))
  = [expand_url "1.2" opts 0; expand_url "1.2" opts 0;
     expand_url "1.2" opts 0; expand_url "1.2" opts 2] /\
  sleeps (trace (snd run)) = [2000; 4000; 8000]%Z /\
  count_occ string_dec (gets (trace (snd run))) (expand_url "1.2" opts 2) = 1 /\
  1 < ExpandOpts.retry opts.
Proof. vm_compute. repeat split; (reflexivity || lia). Qed.

(** ** The end of the retries *)

(** What a page fetch adds to the trace never ends in a wait, unless the
    fetch fails for want of retries. *)
Lemma fetchPage_trace net client oid opts offset tries w :
  let '(r, w') := fetchPage net client oid opts offset tries w in
  exists new,
    trace w' = (trace w ++ new)%list /\
    (forall tr ms, new = (tr ++ [Sleep ms])%list ->
                   thrown r = Some (retries_failed opts)).
Proof.
  destruct (cacheFile oid opts offset ≫= (fun f => fs w !! f)) as [page|] eqn:Hc.
  { unfold fetchPage. rewrite Hc. exists []. simpl. rewrite app_nil_r.
    split; [done|]. intros tr ms H. by destruct tr. }
  destruct (ExpandOpts.dryRun opts) eqn:Hdry.
  { unfold fetchPage. rewrite Hc, Hdry. exists []. simpl. rewrite app_nil_r.
    split; [done|]. intros tr ms H. by destruct tr. }
  destruct (fetchPage_miss net client oid opts offset tries w Hc Hdry)
    as (es & fin & H).
  simpl in H. destruct (fetchPage net client oid opts offset tries w) as [r w'].
  destruct H as (Htr & _ & Hr).
  exists (retried (expand_url oid opts offset) tries es ++ fin)%list.
  split; [done|]. intros tr ms Heq.
  destruct r as [[page t']|e|]; [| |done].
  - destruct Hr as (_ & _ & -> & _). exfalso. revert Heq.
    unfold cache_write. destruct (cache_of oid opts offset) as [[dir file]|].
    + change (NetGet ?u ?r :: [MkDir dir; WriteFile file page])
        with ([NetGet u r; MkDir dir] ++ [WriteFile file page])%list.
      rewrite app_assoc. intros H. by apply app_inj_tail in H as [_ ?].
    + intros H. by apply app_inj_tail in H as [_ ?].
  - destruct Hr as (_ & [(_ & _ & ->)|(-> & _ & _)]); [|done].
    exfalso. by apply app_inj_tail in Heq as [_ ?].
Qed.

Lemma expansionLoop_trace net client oid opts fuel :
  forall offset pages0 got tries w,
    let '(r, w') :=
      expansionLoop fuel net client oid opts offset pages0 got tries w in
    exists new,
      trace w' = (trace w ++ new)%list /\
      (forall tr ms, new = (tr ++ [Sleep ms])%list ->
                     thrown r = Some (retries_failed opts)).
Proof.
  induction fuel as [|fuel IH]; intros offset pages0 got tries w; simpl.
  { exists []. rewrite app_nil_r. split; [done|]. intros tr ms H.
    by destruct tr. }
  unfold bindM.
  pose proof (fetchPage_trace net client oid opts offset tries w) as Hp.
  destruct (fetchPage net client oid opts offset tries w) as [[[page t1]|e|] w1];
    destruct Hp as (new1 & Htr1 & Hlast1); simpl.
  - destruct (_ || _ || _).
    { exists new1. split; [done|]. intros tr ms H.
      by specialize (Hlast1 _ _ H). }
    destruct (contains_length page =? 0)%nat.
    { exists new1. split; [done|]. intros tr ms H.
      by specialize (Hlast1 _ _ H). }
    specialize (IH (offset + contains_length page) (pages0 ++ [page])%list
                  (got + contains_length page) t1 w1).
    destruct (expansionLoop fuel net client oid opts _ _ _ t1 w1) as [r w'].
    destruct IH as (new2 & Htr2 & Hlast2).
    exists (new1 ++ new2)%list. split.
    + by rewrite Htr2, Htr1, <- app_assoc.
    + intros tr ms Heq. destruct (decide (new2 = [])) as [->|Hne].
      * rewrite app_nil_r in Heq. by specialize (Hlast1 _ _ Heq).
      * destruct (exists_last Hne) as (tr2 & x & ->).
        rewrite app_assoc in Heq. apply app_inj_tail in Heq as [_ ->].
        by eapply Hlast2.
  - exists new1. split; [done|]. exact Hlast1.
  - exists new1. split; [done|]. exact Hlast1.
Qed.

(** C6, as the code has it: when a fetch fails right after a backoff wait,
    that is when the last attempt the budget allowed has failed with 429
    or a status of 500 and more, the error thrown is a new [Error] whose
    message names the configured number of retries; it has no [response]
    and nothing of the last error observed. *)
Theorem retries_exhausted_error fuel net client oid opts w e w' tr ms :
  fetchValueSetExpansion fuel net client oid opts w = (Throw e, w') ->
  trace w' = (trace w ++ tr ++ [Sleep ms])%list ->
  e = retries_failed opts /\
  message e = "Failed to fetch expansion after "
              +:+ pretty (ExpandOpts.retry opts) +:+ " retries." /\
  response e = None.
Proof.
  unfold fetchValueSetExpansion. intros Hrun Htr.
  pose proof (expansionLoop_trace net client oid opts fuel 0 [] 0 0 w) as H.
  rewrite Hrun in H. destruct H as (new & Hnew & Hlast).
  rewrite Hnew in Htr. apply app_inv_head in Htr.
  specialize (Hlast _ _ Htr). injection Hlast as ->. done.
Qed.

(** A limit of 2 and a server that answers 503 and then 429. *)
Lemma retries_exhausted_error_witness :
  let opts := sample_opts None 2 in
  let run := fetchValueSetExpansion 5
               (scripted [GetFail (http_error 503); GetFail (http_error 429)])
               (buildVsacAxios "key") "1.2" opts empty_world in
  fst run = Throw (retries_failed opts) /\
  last (trace (snd run)) = Some (Sleep 4000) /\
  response (retries_failed opts) = None.
Proof.
  intros opts run.
  assert (run = (Throw (retries_failed opts), snd run)) as Hrun
    by (vm_compute; reflexivity).
  split; [by rewrite Hrun|]. split; [vm_compute; reflexivity|].
  eapply (retries_exhausted_error 5 _ _ _ opts empty_world _ (snd run)
            [NetGet (expand_url "1.2" opts 0) (GetFail (http_error 503));
             Sleep 2000;
             NetGet (expand_url "1.2" opts 0) (GetFail (http_error 429))]
            4000%Z).
  - exact Hrun.
  - vm_compute. reflexivity.
Defined.

(** C6 as stated fails: whatever the failures were, the error thrown at the
    end is the same and carries none of them. *)
Lemma exhausted_error_forgets_last_error :
  let opts := sample_opts None 2 in
  let fetch script :=
    fst (fetchValueSetExpansion 5 (scripted script) (buildVsacAxios "key")
           "1.2" opts empty_world) in
  fetch [GetFail (http_error 503); GetFail (http_error 503)]
  = Throw (retries_failed opts) /\
  fetch [GetFail (http_error 500); GetFail (http_error 429)]
  = Throw (retries_failed opts) /\
  response (retries_failed opts) = None /\
  message (retries_failed opts) = "Failed to fetch expansion after 2 retries." /\
  response (http_error 429) = Some {| status := 429; data := None |}.
Proof. vm_compute. repeat split; reflexivity. Qed.

(** ** The page cache *)

Lemma string_length_app (s t : string) :
  String.length (s +:+ t) = String.length s + String.length t.
Proof. induction s as [|c s IH]; simpl; [done|]. by rewrite IH. Qed.

Lemma string_app_inj_r (s1 s2 t : string) : s1 +:+ t = s2 +:+ t -> s1 = s2.
Proof.
  revert s2. induction s1 as [|c s1 IH]; intros [|c2 s2] H; simpl in *.
  - done.
  - apply (f_equal String.length) in H.
    rewrite !string_length_app in H. simpl in H. lia.
  - apply (f_equal String.length) in H.
    rewrite !string_length_app in H. simpl in H. lia.
  - injection H as -> H. f_equal. by apply IH.
Qed.

(** Two offsets never share a cache file. *)
Lemma cacheFile_inj oid opts o1 o2 f :
  cacheFile oid opts o1 = Some f -> cacheFile oid opts o2 = Some f -> o1 = o2.
Proof.
  unfold cacheFile, path_join.
  destruct (truthy (ExpandOpts.cacheDir opts)); [|done].
  intros [= <-] [= H].
  repeat apply (inj (String.append _)) in H.
  apply string_app_inj_r in H. by apply (inj pretty) in H.
Qed.

(** The filter is not part of the name of a cache file (nor are the page
    size and the number of retries). *)
Lemma cacheFile_key oid opts1 opts2 offset :
  ExpandOpts.cacheDir opts1 = ExpandOpts.cacheDir opts2 ->
  or_else (ExpandOpts.version opts1) "latest"
  = or_else (ExpandOpts.version opts2) "latest" ->
  cacheFile oid opts1 offset = cacheFile oid opts2 offset.
Proof. unfold cacheFile. by intros -> ->. Qed.

(** A fetch leaves alone every file that is not a cache file of one of
    its offsets. *)
Lemma page_run_fs_frame net client oid opts offset got tries w new w' path :
  page_run net client oid opts offset got tries w new w' ->
  (forall o, offset <= o -> cacheFile oid opts o <> Some path) ->
  fs w' !! path = fs w !! path.
Proof.
  induction 1 as [offset got tries w page t1 w1 Hpage Hstop
                 |offset got tries w page t1 w1 ps w' Hpage Hstop Hrun IH];
    intros Hother;
    pose proof (fetchPage_fs net client oid opts offset tries w) as Hfs;
    rewrite Hpage in Hfs.
  - destruct Hfs as [->|(f & p & t & Hf & _ & ->)]; [done|].
    apply lookup_insert_ne. intros ->. by apply (Hother offset).
  - rewrite IH by (intros o Ho; apply Hother; lia).
    destruct Hfs as [->|(f & p & t & Hf & _ & ->)]; [done|].
    apply lookup_insert_ne. intros ->. by apply (Hother offset).
Qed.

(** When a fetch returns, each of its pages is in the cache file of its
    offset. *)
Lemma page_run_cached net client oid opts offset got tries w new w' :
  page_run net client oid opts offset got tries w new w' ->
  truthy (ExpandOpts.cacheDir opts) = true ->
  forall i p o,
    new !! i = Some p -> offsets_from offset new !! i = Some o ->
    exists f, cacheFile oid opts o = Some f /\ fs w' !! f = Some p.
Proof.
  intros Hrun Hdir.
  assert (forall o, exists f, cacheFile oid opts o = Some f) as Hfile.
  { intros o. unfold cacheFile. rewrite Hdir. by eexists. }
  induction Hrun as [offset got tries w page t1 w1 Hpage Hstop
                    |offset got tries w page t1 w1 ps w' Hpage Hstop Hrun IH];
    intros i p o Hi Ho.
  - destruct i; [|done]. injection Hi as <-. injection Ho as <-.
    destruct (Hfile offset) as [f Hf]. exists f. split; [done|].
    by eapply fetchPage_cached.
  - destruct i as [|i]; simpl in *; [|by eapply IH].
    injection Hi as <-. injection Ho as <-.
    destruct (Hfile offset) as [f Hf]. exists f. split; [done|].
    rewrite (page_run_fs_frame _ _ _ _ _ _ _ _ _ _ f Hrun).
    + by eapply fetchPage_cached.
    + intros o Ho Hf'. apply stops_false_contains in Hstop.
      pose proof (cacheFile_inj _ _ _ _ _ Hf Hf'). lia.
Qed.




(** ** The cache key and the filter *)

(** A fetch whose pages are all in the cache replays them, whatever the
    network and the other options are. *)
Lemma page_run_replay net1 client1 oid opts1 offset got tries w new w1 :
  page_run net1 client1 oid opts1 offset got tries w new w1 ->
  forall net2 client2 opts2 tries2 w2,
    (forall o, cacheFile oid opts2 o = cacheFile oid opts1 o) ->
    (forall i p o,
        new !! i = Some p -> offsets_from offset new !! i = Some o ->
        exists f, cacheFile oid opts1 o = Some f /\ fs w2 !! f = Some p) ->
    page_run net2 client2 oid opts2 offset got tries2 w2 new w2.
Proof.
  induction 1 as [offset got tries w page t1 w1 Hpage Hstop
                 |offset got tries w page t1 w1 ps w' Hpage Hstop Hrun IH];
    intros net2 client2 opts2 tries2 w2 Hkey Hcached;
    destruct (Hcached 0 page offset eq_refl eq_refl) as (f & Hf & Hhit);
    rewrite <- Hkey in Hf.
  - eapply run_last; [|done]. by eapply fetchPage_hit.
  - eapply run_more; [by eapply fetchPage_hit|done|].
    apply IH; [done|]. intros i p o Hi Ho. by apply (Hcached (S i)).
Qed.

(** C10: the name of a cache file is made of the cache directory, the
    identifier, the version (or "latest") and the offset; the filter is in
    the request URL and not in that name. So once a fetch has returned,
    any later fetch of the same identifier and version with the same cache
    directory returns the very same pages without touching the network,
    whatever its filter is (and whatever its page size, its retry limit
    and the state of the server). *)
Theorem cache_ignores_filter
    fuel1 net1 client1 oid opts1 w pages w1
    fuel2 net2 client2 opts2 w2 :
  truthy (ExpandOpts.cacheDir opts1) = true ->
  ExpandOpts.cacheDir opts2 = ExpandOpts.cacheDir opts1 ->
  ExpandOpts.version opts2 = ExpandOpts.version opts1 ->
  fetchValueSetExpansion fuel1 net1 client1 oid opts1 w = (Ok pages, w1) ->
  fs w1 ⊆ fs w2 ->
  length pages <= fuel2 ->
  (forall o, cacheFile oid opts2 o = cacheFile oid opts1 o) /\
  (forall o f, ExpandOpts.filter opts2 = Some f -> f <> "" ->
               In ("filter", f) (expand_params opts2 o)) /\
  fetchValueSetExpansion fuel2 net2 client2 oid opts2 w2 = (Ok pages, w2).
Proof.
  intros Hdir Hdir2 Hver Hrun Hsub Hfuel.
  assert (forall o, cacheFile oid opts2 o = cacheFile oid opts1 o) as Hkey.
  { intros o. apply cacheFile_key; [done|by rewrite Hver]. }
  split; [done|]. split.
  { intros o f Hf Hne. unfold expand_params. rewrite Hf. simpl.
    destruct (String.eqb_spec f ""); [done|]. simpl.
    right. right. apply in_or_app. right. by left. }
  unfold fetchValueSetExpansion in *.
  apply expansionLoop_page_run in Hrun as (new & -> & _ & Hrun).
  simpl in *.
  apply (page_run_expansionLoop net2 client2 oid opts2 0 0 0 w2 new w2);
    [|done].
  eapply page_run_replay; [exact Hrun|done|].
  intros i p o Hi Ho.
  destruct (page_run_cached _ _ _ _ _ _ _ _ _ _ Hrun Hdir i p o Hi Ho)
    as (f & Hf & Hp).
  exists f. split; [done|]. by eapply lookup_weaken.
Qed.

(** A fetch with the filter "a" fills the cache; a second fetch with the
    filter "b", against a server that is down, returns the pages of the
    first. *)
Lemma cache_ignores_filter_witness :
  let net := scripted [GetOk (page_of ["a1"; "a2"] (Some 3%Z));
                       GetOk (page_of ["a3"] (Some 3%Z))] in
  let client := buildVsacAxios "key" in
  let first := fetchValueSetExpansion 5 net client "1.2"
                 (sample_opts (Some "a") 3) empty_world in
  fetchValueSetExpansion 2 (scripted []) client "1.2"
    (sample_opts (Some "b") 0) (snd first)
  = (Ok [page_of ["a1"; "a2"] (Some 3%Z); page_of ["a3"] (Some 3%Z)],
     snd first).
Proof.
  intros net client first.
  assert (first = (Ok [page_of ["a1"; "a2"] (Some 3%Z);
                       page_of ["a3"] (Some 3%Z)], snd first)) as Hfirst
    by (vm_compute; reflexivity).
  apply (cache_ignores_filter 5 net client "1.2" (sample_opts (Some "a") 3)
           empty_world _ (snd first) 2 (scripted []) client
           (sample_opts (Some "b") 0) (snd first));
    [reflexivity|reflexivity|reflexivity|exact Hfirst|done|simpl; lia].
Defined.

(** ** The upload stage *)

Lemma posts_app tr1 tr2 : posts (tr1 ++ tr2) = (posts tr1 ++ posts tr2)%list.
Proof. unfold posts. apply omap_app. Qed.

(** The per-resource loop submits the resources in order and stops at the
    first submission that fails, whose error it throws. *)
Lemma postEach_spec net baseUrl resources :
  forall w,
    let '(r, w') := postEach net baseUrl false resources w in
    exists k,
      k <= length resources /\
      posts (trace w')
      = (posts (trace w)
         ++ map (fun v => (valueSetEndpoint baseUrl, PostResource v))
              (take k resources))%list /\
      match r with
      | Ok _ => k = length resources
      | Throw e =>
          exists v tr,
            resources !! (k - 1) = Some v /\ 0 < k /\
            trace w' = (tr ++ [NetPost (valueSetEndpoint baseUrl)
                                 (PostResource v) (PostFail e)])%list
      | Diverge => False
      end.
Proof.
  induction resources as [|v rest IH]; intros w; simpl.
  - exists 0. simpl. by rewrite app_nil_r.
  - unfold bindM, axios_post, act.
    destruct (net_post net (trace w) (valueSetEndpoint baseUrl) (PostResource v))
      as [st txt|e] eqn:Hreply; simpl.
    + match goal with |- context [postEach _ _ _ rest ?w1] =>
        specialize (IH w1); destruct (postEach net baseUrl false rest w1)
          as [r w'] end.
      simpl in IH. destruct IH as (k & Hk & Hposts & Hr).
      exists (S k). split; [lia|]. split.
      * rewrite Hposts. simpl. rewrite !posts_app. simpl.
        by rewrite app_nil_r, <- app_assoc.
      * destruct r as [[]|e|]; [lia| |done].
        destruct Hr as (v' & tr & Hv & Hpos & Htr). exists v', tr.
        repeat split; [|lia|done].
        destruct k; [lia|]. simpl in *. by rewrite Nat.sub_0_r in Hv.
    + exists 1. split; [lia|]. split.
      * by rewrite posts_app.
      * exists v, (trace w). repeat split; [lia].
Qed.

(** C2, as the code has it. In per-resource mode every resource is a
    submission of its own to [<base>/ValueSet], in the order of the list;
    nothing catches a failure, so the first submission that fails ends the
    stage with its error and the resources after it are not submitted. In
    bundled mode there is one submission, a transaction bundle with one
    entry for each resource, and its failure is the failure of the
    stage. *)
Theorem upload_modes net baseUrl resources w :
  (let '(r, w') := postValueSetsToHapi net baseUrl resources false false w in
   exists k,
     k <= length resources /\
     posts (trace w')
     = (posts (trace w)
        ++ map (fun v => (valueSetEndpoint baseUrl, PostResource v))
             (take k resources))%list /\
     match r with
     | Ok _ => k = length resources
     | Throw e =>
         exists v tr,
           resources !! (k - 1) = Some v /\ 0 < k /\
           trace w' = (tr ++ [NetPost (valueSetEndpoint baseUrl)
                                (PostResource v) (PostFail e)])%list
     | Diverge => False
     end) /\
  (let '(r, w') := postValueSetsToHapi net baseUrl resources true false w in
   let b := transaction_bundle resources in
   map resource (entry b) = resources /\
   bundle_type b = "transaction" /\
   posts (trace w') = (posts (trace w) ++ [(baseUrl, PostBundle b)])%list /\
   match net_post net (trace w) baseUrl (PostBundle b) with
   | PostOk _ _ => r = Ok tt
   | PostFail e => r = Throw e
   end).
Proof.
  split.
  - apply postEach_spec.
  - unfold postValueSetsToHapi, bindM, axios_post, act.
    destruct (net_post net (trace w) baseUrl
                (PostBundle (transaction_bundle resources))) as [st txt|e];
      simpl; repeat split; rewrite ?posts_app; simpl;
      rewrite ?app_nil_r; try done.
    + rewrite map_map. simpl. apply map_id.
    + rewrite map_map. simpl. apply map_id.
Qed.

(** C2 as stated fails: in per-resource mode the failure of the first
    submission is thrown, and the second resource is never submitted
    although the server would have accepted it. *)
Lemma per_resource_upload_stops_at_first_failure :
  let r1 := page_of ["a"] None in
  let r2 := page_of ["b"] None in
  let run := postValueSetsToHapi refuses_first "http://hapi/fhir" [r1; r2]
               false false empty_world in
  fst run = Throw (http_error 422) /\
  posts (trace (snd run)) = [("http://hapi/fhir/ValueSet", PostResource r1)] /\
  net_post refuses_first (trace (snd run)) "http://hapi/fhir/ValueSet"
    (PostResource r2) = PostOk 201 "Created".
Proof. vm_compute. repeat split; reflexivity. Qed.

(** ** Effects that only add to the world *)

Global Instance grows_refl : Reflexive grows.
Proof. intros w. split; [done|auto]. Qed.

Global Instance grows_trans : Transitive grows.
Proof.
  intros w1 w2 w3 [Ht1 Hf1] [Ht2 Hf2]. split; [by etrans|auto].
Qed.

Lemma grows_emit e w : grows w (emit e w).
Proof. split; [by apply prefix_app_r|auto]. Qed.

Lemma grows_write path doc w : grows w (writeFileSync path doc w).
Proof.
  split; [by apply prefix_app_r|]. intros p Hp. simpl.
  destruct (decide (path = p)) as [->|Hne].
  - rewrite lookup_insert_eq. by eexists.
  - by rewrite lookup_insert_ne.
Qed.

Section Preserved.
Context (R : relation World) `{!Reflexive R, !Transitive R}.

Lemma keeps_ret {A} (a : A) : keeps R (ret a).
Proof. intros w. simpl. reflexivity. Qed.

Lemma keeps_throw {A} e : keeps R (@throw A e).
Proof. intros w. simpl. reflexivity. Qed.

Lemma keeps_lift {A} (r : Result A) : keeps R (lift r).
Proof. intros w. simpl. reflexivity. Qed.

Lemma keeps_bind {A B} (c : M A) (k : A -> M B) :
  keeps R c -> (forall a, keeps R (k a)) -> keeps R (bindM c k).
Proof.
  intros Hc Hk w. unfold bindM. specialize (Hc w).
  destruct (c w) as [[a|e|] w1]; simpl in *; [|done|done].
  etrans; [exact Hc|]. apply Hk.
Qed.

Lemma keeps_if {A} (b : bool) (c1 c2 : M A) :
  keeps R c1 -> keeps R c2 -> keeps R (if b then c1 else c2).
Proof. by destruct b. Qed.
End Preserved.

Lemma retryLoop_grows net client url cache n :
  forall tries, keeps grows (retryLoop net client url cache n tries).
Proof.
  induction n as [|n IH]; intros tries w; simpl; [reflexivity|].
  unfold client_get.
  destruct (net_get net (trace w) client url) as [page|e]; simpl.
  - destruct cache as [[dir file]|]; simpl.
    + etrans; [apply grows_emit|]. etrans; [apply grows_emit|].
      apply grows_write.
    + apply grows_emit.
  - destruct (retryable e); simpl; [|apply grows_emit].
    etrans; [apply grows_emit|]. etrans; [apply grows_emit|]. apply IH.
Qed.

Lemma fetchPage_grows net client oid opts offset tries :
  keeps grows (fetchPage net client oid opts offset tries).
Proof.
  intros w. unfold fetchPage.
  destruct (cacheFile oid opts offset ≫= _); simpl; [reflexivity|].
  destruct (ExpandOpts.dryRun opts); simpl; [reflexivity|].
  apply (keeps_bind grows); [apply retryLoop_grows|].
  intros [[page|] t]; simpl; [apply keeps_ret|apply keeps_throw]; apply _.
Qed.

Lemma expansionLoop_grows net client oid opts fuel :
  forall offset pages got tries,
    keeps grows (expansionLoop fuel net client oid opts offset pages got tries).
Proof.
  induction fuel as [|fuel IH]; intros offset pages got tries; simpl.
  - intros w. reflexivity.
  - apply (keeps_bind grows); [apply fetchPage_grows|].
    intros [page t]. simpl.
    repeat (apply (keeps_if grows)); try (apply keeps_ret; apply _).
    apply IH.
Qed.

Lemma writeValueSetFiles_grows net outDir oid version data mode :
  keeps grows (writeValueSetFiles net outDir oid version data mode).
Proof.
  intros w. unfold writeValueSetFiles.
  destruct (disk_mkdir net (trace w) outDir); [done|].
  destruct (disk_write net _ _); simpl; [apply grows_emit|].
  etrans; [apply grows_emit|]. apply grows_write.
Qed.

Lemma client_get_grows net client url : keeps grows (client_get net client url).
Proof.
  intros w. unfold client_get.
  destruct (net_get net (trace w) client url); apply grows_emit.
Qed.

Lemma jobBody_grows fuel net client opts id :
  keeps grows (jobBody fuel net client opts id).
Proof.
  unfold jobBody.
  apply (keeps_bind grows); [apply keeps_lift; apply _|]. intros oid.
  apply (keeps_bind grows).
  { apply (keeps_if grows); [|apply keeps_ret; apply _].
    apply (keeps_bind grows).
    - apply (keeps_if grows); [apply keeps_ret; apply _|].
      apply client_get_grows.
    - intros defRes. apply (keeps_bind grows);
        [apply writeValueSetFiles_grows|]. intros _. apply keeps_ret; apply _. }
  intros d. apply (keeps_bind grows).
  { apply (keeps_if grows); [|apply keeps_ret; apply _].
    apply (keeps_bind grows).
    - apply (keeps_if grows); [apply keeps_ret; apply _|].
      apply expansionLoop_grows.
    - intros pages. apply (keeps_bind grows); [apply keeps_lift; apply _|].
      intros merged. apply (keeps_bind grows);
        [apply writeValueSetFiles_grows|]. intros _. apply keeps_ret; apply _. }
  intros e. apply keeps_ret; apply _.
Qed.

Lemma run_job_grows fuel net client opts id w r w' :
  run_job fuel net client opts id w = Some (r, w') -> grows w w'.
Proof.
  unfold run_job. pose proof (jobBody_grows fuel net client opts id w) as H.
  destruct (jobBody fuel net client opts id w) as [[r0|e|] w1]; simpl in H;
    intros [= <- <-]; [done|].
  etrans; [exact H|]. apply grows_emit.
Qed.

(** ** JavaScript arrays *)

Lemma slot_array_set_eq {A} (a : list (option A)) i x :
  slot (array_set a i x) i = Some x.
Proof.
  unfold slot, array_set. destruct (Nat.ltb_spec i (length a)).
  - by rewrite list_lookup_insert_eq.
  - rewrite lookup_app_r by lia. rewrite lookup_app_r;
      rewrite length_replicate; [|lia]. by rewrite Nat.sub_diag.
Qed.

Lemma slot_array_set_ne {A} (a : list (option A)) i j x :
  i <> j -> slot (array_set a i x) j = slot a j.
Proof.
  intros Hne. unfold slot, array_set. destruct (Nat.ltb_spec i (length a)).
  - by rewrite list_lookup_insert_ne.
  - destruct (decide (j < length a)) as [Hj|Hj].
    + by rewrite lookup_app_l.
    + rewrite (lookup_ge_None_2 a j) by lia. rewrite lookup_app_r by lia.
      destruct (decide (j < i)) as [Hji|Hji].
      * rewrite lookup_app_l by (rewrite length_replicate; lia).
        rewrite lookup_replicate_2; [done|lia].
      * rewrite lookup_ge_None_2; [done|].
        rewrite length_app, length_replicate. simpl. lia.
Qed.

Lemma length_array_set {A} (a : list (option A)) i x :
  length (array_set a i x) = max (length a) (S i).
Proof.
  unfold array_set. destruct (Nat.ltb_spec i (length a)).
  - rewrite length_insert. lia.
  - rewrite !length_app, length_replicate. simpl. lia.
Qed.

(** ** The invariant of the pool *)

Lemma filter_length_insert (p : Worker -> bool) l k old new :
  l !! k = Some old ->
  length (List.filter p (<[k := new]> l)) + Nat.b2n (p old)
  = length (List.filter p l) + Nat.b2n (p new).
Proof.
  revert k. induction l as [|x l IH]; intros [|k] Hk; simpl in *; try done.
  - injection Hk as ->. destruct (p old), (p new); simpl; lia.
  - specialize (IH k Hk). destruct (p x); simpl; lia.
Qed.

Lemma filter_length_pos (p : Worker -> bool) l k x :
  l !! k = Some x -> p x = true -> 0 < length (List.filter p l).
Proof.
  revert k. induction l as [|y l IH]; intros [|k] Hk Hp; simpl in *; try done.
  - injection Hk as ->. rewrite Hp. simpl. lia.
  - specialize (IH k Hk Hp). destruct (p y); simpl; lia.
Qed.

Section PoolFacts.
Variable fuel : nat.
Variable net : Network.
Variable client : Client.
Variable opts : Opts.t.
Variable ids : list string.

(** The four moves a worker can make. *)
Lemma worker_step_cases k s s' :
  worker_step fuel net client opts ids k s = Some s' ->
  (workers s !! k = Some Pending /\ length ids <= idx s /\
   s' = set_worker k Finished s)
  \/
  (workers s !! k = Some Pending /\ idx s < length ids /\
   s' = set_worker k (Busy (idx s)) (claim s))
  \/
  (exists i id r w',
      workers s !! k = Some (Busy i) /\ ids !! i = Some id /\
      run_job fuel net client opts id (world s) = Some (r, w') /\
      idx s < length ids /\
      s' = set_worker k (Busy (idx s)) (claim (complete i r w' s)))
  \/
  (exists i id r w',
      workers s !! k = Some (Busy i) /\ ids !! i = Some id /\
      run_job fuel net client opts id (world s) = Some (r, w') /\
      length ids <= idx s /\
      s' = set_worker k Finished (complete i r w' s)).
Proof.
  unfold worker_step, call_next.
  destruct (workers s !! k) as [[|i|]|] eqn:Hk; try discriminate.
  - destruct (Nat.leb_spec (length ids) (idx s)); intros [= <-];
      [left|right; left]; done.
  - destruct (ids !! i) as [id|] eqn:Hid; [|discriminate].
    destruct (run_job fuel net client opts id (world s)) as [[r w']|] eqn:Hjob;
      [|discriminate].
    simpl. destruct (Nat.ltb_spec (idx s) (length ids)) as [Hlt|Hge].
    + destruct (Nat.leb_spec (length ids) (idx s)); [lia|].
      intros [= <-]. right; right; left. by exists i, id, r, w'.
    + intros [= <-]. right; right; right. by exists i, id, r, w'.
Qed.

Lemma pool_inv_init w : pool_inv fuel net client opts ids w (init opts ids w).
Proof.
  split; simpl; try done; try lia.
  - by rewrite length_replicate.
  - unfold in_flight. simpl. induction (starters opts ids); simpl; auto.
  - intros k i Hk. apply lookup_replicate in Hk as [? _]. done.
  - intros k Hk. apply lookup_replicate in Hk as [? _]. done.
Qed.

Lemma pool_inv_step w k s s' :
  pool_inv fuel net client opts ids w s ->
  worker_step fuel net client opts ids k s = Some s' ->
  pool_inv fuel net client opts ids w s'.
Proof.
  intros [Hworkers Hidx Hclaimed Hrunning Hcompleted Hbusy Hdone Hlength
            Hslots Hfinished Hworld] Hstep.
  unfold in_flight in Hrunning.
  assert (forall wk k' x,
             <[k := wk]> (workers s) !! k' = Some x ->
             (k' = k /\ x = wk) \/ (k' <> k /\ workers s !! k' = Some x))
    as Hlook.
  { intros wk k' x Hx. destruct (decide (k = k')) as [<-|Hne].
    - left. apply list_lookup_insert_Some in Hx as [(_ & -> & _)|(? & _)]; done.
    - right. by rewrite list_lookup_insert_ne in Hx. }
  assert (forall wk i,
             (exists k', workers s !! k' = Some (Busy i)) ->
             workers s !! k <> Some (Busy i) ->
             exists k', <[k := wk]> (workers s) !! k' = Some (Busy i))
    as Hstill.
  { intros wk i [k' Hk'] Hk. exists k'.
    rewrite list_lookup_insert_ne; [done|]. intros <-. done. }
  apply worker_step_cases in Hstep
    as [(Hk & Hn & ->)|[(Hk & Hn & ->)|[(i & id & r & w' & Hk & Hid & Hjob & Hn & ->)
                                       |(i & id & r & w' & Hk & Hid & Hjob & Hn & ->)]]].
  - (* a starter that finds no job *)
    pose proof (filter_length_insert is_busy _ _ _ Finished Hk) as Hcount.
    split; cbn -[seq].
    + by rewrite length_insert.
    + done.
    + done.
    + unfold in_flight. simpl in *. lia.
    + done.
    + intros k' i Hk'. apply Hlook in Hk' as [[_ ?]|[_ Hk']]; [done|].
      by eapply Hbusy.
    + intros i Hi. destruct (Hdone i Hi) as [Hb|Hs]; [left|by right].
      apply Hstill; [done|]. by rewrite Hk.
    + done.
    + done.
    + intros k' Hk'. lia.
    + done.
  - (* a starter that takes a job *)
    pose proof (filter_length_insert is_busy _ _ _ (Busy (idx s)) Hk) as Hcount.
    split; cbn -[seq].
    + by rewrite length_insert.
    + lia.
    + by rewrite Hclaimed, seq_S.
    + unfold in_flight. simpl in *. lia.
    + lia.
    + intros k' i Hk'. apply Hlook in Hk' as [[_ [= <-]]|[_ Hk']]; [lia|].
      specialize (Hbusy _ _ Hk'). lia.
    + intros i Hi. destruct (decide (i = idx s)) as [->|Hne].
      * left. exists k. rewrite list_lookup_insert_eq; [done|].
        by eapply lookup_lt_Some.
      * destruct (Hdone i ltac:(lia)) as [Hb|Hs]; [left|by right].
        apply Hstill; [done|]. by rewrite Hk.
    + lia.
    + done.
    + intros k' Hk'. apply Hlook in Hk' as [[_ ?]|[_ Hk']]; [done|].
      specialize (Hfinished _ Hk'). lia.
    + done.
  - (* the end of a job, and the next one *)
    pose proof (filter_length_insert is_busy _ _ _ (Busy (idx s)) Hk) as Hcount.
    pose proof (filter_length_pos is_busy _ _ _ Hk eq_refl) as Hpos.
    pose proof (Hbusy _ _ Hk) as Hi.
    pose proof (run_job_grows _ _ _ _ _ _ _ _ Hjob) as Hgrow.
    split; cbn -[seq].
    + by rewrite length_insert.
    + lia.
    + by rewrite Hclaimed, seq_S.
    + unfold in_flight. simpl in *. lia.
    + lia.
    + intros k' j Hk'. apply Hlook in Hk' as [[_ [= <-]]|[_ Hk']]; [lia|].
      specialize (Hbusy _ _ Hk'). lia.
    + intros j Hj. destruct (decide (j = idx s)) as [->|Hne].
      { left. exists k. rewrite list_lookup_insert_eq; [done|].
        by eapply lookup_lt_Some. }
      destruct (decide (j = i)) as [->|Hji].
      { right. rewrite slot_array_set_eq. by eexists. }
      destruct (Hdone j ltac:(lia)) as [Hb|Hs].
      * left. apply Hstill; [done|]. rewrite Hk. congruence.
      * right. by rewrite slot_array_set_ne.
    + rewrite length_array_set. lia.
    + intros j r' Hj. destruct (decide (j = i)) as [->|Hji].
      * rewrite slot_array_set_eq in Hj. injection Hj as <-.
        exists id, (world s), w'.
        split; [done|split; [done|split; [done|reflexivity]]].
      * rewrite slot_array_set_ne in Hj by done.
        destruct (Hslots _ _ Hj) as (id' & w0 & w1 & ? & ? & ? & ?).
        exists id', w0, w1.
        split; [done|split; [done|split; [done|by etrans]]].
    + intros k' Hk'. apply Hlook in Hk' as [[_ ?]|[_ Hk']]; [done|].
      specialize (Hfinished _ Hk'). lia.
    + by etrans.
  - (* the end of the last job of a worker *)
    pose proof (filter_length_insert is_busy _ _ _ Finished Hk) as Hcount.
    pose proof (filter_length_pos is_busy _ _ _ Hk eq_refl) as Hpos.
    pose proof (Hbusy _ _ Hk) as Hi.
    pose proof (run_job_grows _ _ _ _ _ _ _ _ Hjob) as Hgrow.
    split; cbn -[seq].
    + by rewrite length_insert.
    + done.
    + done.
    + unfold in_flight. simpl in *. lia.
    + lia.
    + intros k' j Hk'. apply Hlook in Hk' as [[_ ?]|[_ Hk']]; [done|].
      by eapply Hbusy.
    + intros j Hj. destruct (decide (j = i)) as [->|Hji].
      { right. rewrite slot_array_set_eq. by eexists. }
      destruct (Hdone j Hj) as [Hb|Hs].
      * left. apply Hstill; [done|]. rewrite Hk. congruence.
      * right. by rewrite slot_array_set_ne.
    + rewrite length_array_set. lia.
    + intros j r' Hj. destruct (decide (j = i)) as [->|Hji].
      * rewrite slot_array_set_eq in Hj. injection Hj as <-.
        exists id, (world s), w'.
        split; [done|split; [done|split; [done|reflexivity]]].
      * rewrite slot_array_set_ne in Hj by done.
        destruct (Hslots _ _ Hj) as (id' & w0 & w1 & ? & ? & ? & ?).
        exists id', w0, w1.
        split; [done|split; [done|split; [done|by etrans]]].
    + intros k' Hk'. lia.
    + by etrans.
Qed.

Lemma pool_inv_reachable w s :
  reachable fuel net client opts ids w s ->
  pool_inv fuel net client opts ids w s.
Proof.
  unfold reachable. intros H. apply rtc_nsteps in H as [n H].
  revert s H. induction n as [|n IH]; intros s H.
  - inversion H; subst. apply pool_inv_init.
  - apply nsteps_inv_r in H as (s1 & H1 & [k Hk]).
    eapply pool_inv_step; [|exact Hk]. by apply IH.
Qed.

Lemma run_schedule_reachable w sched :
  reachable fuel net client opts ids w
    (run_schedule fuel net client opts ids sched (init opts ids w)).
Proof.
  unfold reachable, run_schedule.
  induction sched as [|k sched IH] using rev_ind; simpl.
  - apply rtc_refl.
  - rewrite foldl_app. simpl.
    destruct (worker_step fuel net client opts ids k _) as [s'|] eqn:Hk; simpl.
    + eapply rtc_r; [apply IH|]. by exists k.
    + apply IH.
Qed.
End PoolFacts.

(** ** The schedule *)

(** An array without holes in its first [n] places, and no longer than
    [n], is a plain list of [n] elements. *)
Lemma dense_array {A} (a : list (option A)) :
  forall n,
    length a <= n ->
    (forall i, i < n -> is_Some (slot a i)) ->
    a = map Some (present a) /\ length (present a) = n.
Proof.
  induction a as [|x a IH]; intros n Hlen Hfull; simpl in *.
  - destruct n; [done|]. destruct (Hfull 0 ltac:(lia)) as [? ?]. done.
  - destruct n as [|n]; [lia|].
    destruct (Hfull 0 ltac:(lia)) as [y Hy]. unfold slot in Hy. simpl in Hy.
    subst x. destruct (IH n ltac:(lia)) as [Heq Hl].
    { intros i Hi. apply (Hfull (S i)). lia. }
    unfold present in *. simpl. split; [by f_equal|by f_equal].
Qed.

Lemma all_finished_lookup s k wk :
  all_finished s = true -> workers s !! k = Some wk -> wk = Finished.
Proof.
  unfold all_finished. rewrite forallb_forall. intros Hall Hk.
  specialize (Hall wk). destruct wk; try done.
  - exfalso. assert (false = true); [|done]. apply Hall.
    apply list_elem_of_In. by eapply list_elem_of_lookup_2.
  - exfalso. assert (false = true); [|done]. apply Hall.
    apply list_elem_of_In. by eapply list_elem_of_lookup_2.
Qed.

Lemma filter_none (p : Worker -> bool) l :
  (forall wk, In wk l -> p wk = false) -> length (List.filter p l) = 0.
Proof.
  induction l as [|wk ws IH]; intros Hall; [done|]. simpl.
  rewrite (Hall wk) by (by left). apply IH. intros. apply Hall. by right.
Qed.

Lemma some_unfinished (ws : list Worker) :
  forallb (fun wk => match wk with Finished => true | _ => false end) ws
  = false ->
  exists k wk, ws !! k = Some wk /\ wk <> Finished.
Proof.
  induction ws as [|x ws IH]; simpl; [done|]. destruct x; simpl.
  - by exists 0, Pending.
  - by exists 0, (Busy myIdx).
  - intros H. destruct (IH H) as (k & wk & ? & ?). by exists (S k), wk.
Qed.

Lemma concurrency_of_pos opts : (1 <= concurrency_of opts)%Z.
Proof. unfold concurrency_of. lia. Qed.

Section PoolEnd.
Variable fuel : nat.
Variable net : Network.
Variable client : Client.
Variable opts : Opts.t.
Variable ids : list string.

(** When all the workers are finished every job has been taken, none is
    in flight, and [results] holds one result for each identifier. *)
Lemma pool_inv_finished w s :
  pool_inv fuel net client opts ids w s ->
  all_finished s = true ->
  idx s = length ids /\ running s = 0 /\
  results s = map Some (present (results s)) /\
  length (present (results s)) = length ids.
Proof.
  intros Hinv Hfin.
  assert (idx s = length ids) as Hidx.
  { destruct (workers s) as [|wk ws] eqn:Hws.
    - pose proof (inv_workers _ _ _ _ _ _ _ Hinv) as Hw. rewrite Hws in Hw.
      pose proof (inv_idx _ _ _ _ _ _ _ Hinv).
      pose proof (concurrency_of_pos opts).
      unfold starters in Hw. simpl in Hw. lia.
    - apply (inv_finished _ _ _ _ _ _ _ Hinv 0). rewrite Hws. simpl.
      f_equal. apply (all_finished_lookup s 0); [done|]. by rewrite Hws. }
  assert (forall k i, workers s !! k <> Some (Busy i)) as Hnobusy.
  { intros k i Hk. by pose proof (all_finished_lookup _ _ _ Hfin Hk). }
  split; [done|]. split.
  - rewrite (inv_running _ _ _ _ _ _ _ Hinv). unfold in_flight.
    assert (forall wk, In wk (workers s) -> is_busy wk = false) as Hall.
    { intros wk Hin. apply list_elem_of_In, list_elem_of_lookup in Hin as [k Hk].
      by rewrite (all_finished_lookup _ _ _ Hfin Hk). }
    by apply filter_none.
  - apply dense_array.
    + rewrite <- Hidx. apply (inv_length _ _ _ _ _ _ _ Hinv).
    + intros i Hi. rewrite <- Hidx in Hi.
      destruct (inv_done _ _ _ _ _ _ _ Hinv i Hi) as [[k Hk]|Hs]; [|done].
      by destruct (Hnobusy k i).
Qed.

(** A worker that is not finished can move, unless its job never ends. *)
Lemma pool_progress w s :
  pool_inv fuel net client opts ids w s ->
  all_finished s = false ->
  (forall k i id,
      workers s !! k = Some (Busy i) -> ids !! i = Some id ->
      is_Some (run_job fuel net client opts id (world s))) ->
  exists s', pool_step fuel net client opts ids s s'.
Proof.
  intros Hinv Hfin Hjobs.
  destruct (some_unfinished _ Hfin) as (k & wk & Hk & Hwk).
  exists (default s (worker_step fuel net client opts ids k s)), k.
  unfold worker_step. rewrite Hk. destruct wk as [|i|]; [| |done].
  - by destruct (call_next ids s).
  - pose proof (inv_busy _ _ _ _ _ _ _ Hinv k i Hk) as Hi.
    pose proof (inv_idx _ _ _ _ _ _ _ Hinv) as Hn.
    destruct (lookup_lt_is_Some_2 ids i ltac:(lia)) as [id Hid].
    rewrite Hid. destruct (Hjobs k i id Hk Hid) as [[r w'] ->].
    destruct (_ <? _)%nat; [|done]. by destruct (call_next ids _).
Qed.

(** Every move takes from the work that is left: a pool makes at most
    [2 * length ids + starters] moves. *)
Lemma work_left_decreases w k s s' :
  pool_inv fuel net client opts ids w s ->
  worker_step fuel net client opts ids k s = Some s' ->
  work_left ids s' < work_left ids s.
Proof.
  intros Hinv Hstep.
  pose proof (inv_running _ _ _ _ _ _ _ Hinv) as Hrun. unfold in_flight in Hrun.
  pose proof (inv_idx _ _ _ _ _ _ _ Hinv) as Hn.
  apply worker_step_cases in Hstep
    as [(Hk & Hn' & ->)|[(Hk & Hn' & ->)|[(i & id & r & w' & Hk & Hid & Hjob & Hn' & ->)
                                       |(i & id & r & w' & Hk & Hid & Hjob & Hn' & ->)]]];
    unfold work_left; cbn -[Nat.mul Nat.sub].
  - pose proof (filter_length_insert is_pending _ _ _ Finished Hk) as Hc.
    simpl in Hc. lia.
  - pose proof (filter_length_insert is_pending _ _ _ (Busy (idx s)) Hk) as Hc.
    simpl in Hc. lia.
  - pose proof (filter_length_insert is_pending _ _ _ (Busy (idx s)) Hk) as Hc.
    pose proof (filter_length_pos is_busy _ _ _ Hk eq_refl) as Hpos.
    simpl in Hc. lia.
  - pose proof (filter_length_insert is_pending _ _ _ Finished Hk) as Hc.
    pose proof (filter_length_pos is_busy _ _ _ Hk eq_refl) as Hpos.
    simpl in Hc. lia.
Qed.

Lemma pool_moves_bounded w n s :
  nsteps (pool_step fuel net client opts ids) n (init opts ids w) s ->
  n + work_left ids s <= 2 * length ids + starters opts ids.
Proof.
  revert s. induction n as [|n IH]; intros s H.
  - inversion H; subst. unfold work_left, init. cbn -[Nat.mul Nat.sub].
    assert (length (List.filter is_pending
                      (replicate (starters opts ids) Pending))
            = starters opts ids) as ->; [|lia].
    induction (starters opts ids); simpl; auto.
  - apply nsteps_inv_r in H as (s1 & H1 & [k Hk]).
    specialize (IH _ H1).
    assert (pool_inv fuel net client opts ids w s1) as Hinv.
    { apply pool_inv_reachable. unfold reachable. by eapply rtc_nsteps_2. }
    pose proof (work_left_decreases _ _ _ _ Hinv Hk). lia.
Qed.

(** When every job comes to an end, the pool goes on to the state where
    all the workers are finished, whatever its state is. *)
Lemma pool_completes w s :
  (forall id w0, is_Some (run_job fuel net client opts id w0)) ->
  reachable fuel net client opts ids w s ->
  exists s',
    rtc (pool_step fuel net client opts ids) s s' /\ all_finished s' = true.
Proof.
  intros Hjobs. remember (work_left ids s) as n eqn:Hn.
  revert s Hn. induction (lt_wf n) as [n _ IH]. intros s -> Hreach.
  destruct (all_finished s) eqn:Hfin; [by exists s|].
  pose proof (pool_inv_reachable _ _ _ _ _ _ _ Hreach) as Hinv.
  destruct (pool_progress w s Hinv Hfin) as [s1 [k Hk]]; [by intros|].
  destruct (IH (work_left ids s1) (work_left_decreases _ _ _ _ Hinv Hk)
              s1 eq_refl) as (s' & Hsteps & Hend).
  { eapply rtc_r; [exact Hreach|]. by exists k. }
  exists s'. split; [|done]. eapply rtc_l; [by exists k|done].
Qed.
End PoolEnd.

(** C3: with a concurrency limit [N >= 1] the pool has [min N n] workers;
    in every state it can reach, whatever the order in which the workers
    move, at most [N] jobs are in flight ([running] counts them), the jobs
    taken so far are the jobs [0 .. idx - 1], each taken once, and a
    result found at position [i] of [results] is a result of the pipeline
    run on [ids[i]]. When all the workers are finished every job has been
    taken exactly once and [results] holds, without holes, one result for
    each identifier at the position of that identifier. *)
Theorem pool_schedule fuel net client opts ids w s :
  (1 <= Opts.concurrency opts)%Z ->
  reachable fuel net client opts ids w s ->
  let N := Z.to_nat (Opts.concurrency opts) in
  length (workers s) = min N (length ids) /\
  in_flight s <= N /\ running s = in_flight s /\
  claimed s = seq 0 (idx s) /\ NoDup (claimed s) /\ idx s <= length ids /\
  (forall i r,
      slot (results s) i = Some r ->
      exists id w0 w1,
        ids !! i = Some id /\
        run_job fuel net client opts id w0 = Some (r, w1)) /\
  (all_finished s = true ->
   claimed s = seq 0 (length ids) /\
   exists rs, results s = map Some rs /\ length rs = length ids /\
              forall i r, rs !! i = Some r -> slot (results s) i = Some r).
Proof.
  intros HN Hreach N. apply pool_inv_reachable in Hreach as Hinv.
  assert (length (workers s) = min N (length ids)) as Hw.
  { rewrite (inv_workers _ _ _ _ _ _ _ Hinv). unfold starters, concurrency_of.
    destruct (Z.eqb_spec (Opts.concurrency opts) 0); lia. }
  split; [done|]. split.
  { unfold in_flight.
    pose proof (List.filter_length_le is_busy (workers s)). lia. }
  split; [apply (inv_running _ _ _ _ _ _ _ Hinv)|].
  split; [apply (inv_claimed _ _ _ _ _ _ _ Hinv)|].
  split.
  { rewrite (inv_claimed _ _ _ _ _ _ _ Hinv). apply NoDup_ListNoDup, List.seq_NoDup. }
  split; [apply (inv_idx _ _ _ _ _ _ _ Hinv)|].
  split.
  { intros i r Hi.
    destruct (inv_slots _ _ _ _ _ _ _ Hinv i r Hi) as (id & w0 & w1 & ? & ? & _).
    by exists id, w0, w1. }
  intros Hfin.
  destruct (pool_inv_finished _ _ _ _ _ _ _ Hinv Hfin) as (Hidx & _ & Hres & Hlen).
  split; [by rewrite (inv_claimed _ _ _ _ _ _ _ Hinv), Hidx|].
  exists (present (results s)). split; [done|]. split; [done|].
  intros i r Hi. unfold slot. rewrite Hres, list_lookup_fmap, Hi. done.
Qed.

(** Three identifiers and a limit of 2, with the second worker finishing
    first. *)
Lemma pool_schedule_witness :
  let opts := sample_cli 2 true in
  let ids := ["1.2"; "urn:oid:3.4"; "no oid"] in
  let s := run_schedule 0 (scripted []) (buildVsacAxios "key") opts ids
             [0; 1; 1; 0; 1]
             (init opts ids empty_world) in
  length (workers s) = 2 /\ all_finished s = true /\
  claimed s = [0; 1; 2] /\
  map (fun r => JobResult.oid <$> r) (results s)
  = [Some "1.2"; Some "3.4"; Some "no oid"].
Proof.
  intros opts ids s.
  destruct (pool_schedule 0 (scripted []) (buildVsacAxios "key") opts ids
              empty_world s) as (Hw & _ & _ & _ & _ & _ & _ & Hfin).
  - vm_compute. discriminate.
  - apply run_schedule_reachable.
  - assert (all_finished s = true) as Hall by (vm_compute; reflexivity).
    destruct (Hfin Hall) as (Hclaimed & _).
    split; [exact Hw|]. split; [exact Hall|]. split; [exact Hclaimed|].
    vm_compute. reflexivity.
Defined.

(** ** Failures of a job *)










(** ** Dry runs *)

Lemma string_app_assoc (a b c : string) : (a +:+ b) +:+ c = a +:+ (b +:+ c).
Proof. induction a as [|x a IH]; cbn; [done|]. exact (f_equal (String x) IH). Qed.





(** *** The path of an output file *)

















Global Instance offline_refl : Reflexive offline.
Proof. intros w. by repeat split. Qed.

Global Instance offline_trans : Transitive offline.
Proof.
  intros w1 w2 w3 (Hg1 & Hp1 & Hs1 & Hf1) (Hg2 & Hp2 & Hs2 & Hf2).
  repeat split; try congruence. intros p Hp. by rewrite Hf2, Hf1.
Qed.








Lemma or_else_nonempty o d : d <> "" -> or_else o d <> "".
Proof.
  intros Hd. unfold or_else. destruct o as [s|]; [|done].
  by destruct (String.eqb_spec s "").
Qed.

Lemma or_opt_first v o : v <> "" -> or_opt (Some v) o = Some v.
Proof.
  intros Hv. unfold or_opt, truthy. by destruct (String.eqb_spec v "").
Qed.

Lemma or_else_Some v d : v <> "" -> or_else (Some v) d = v.
Proof. intros Hv. unfold or_else. by destruct (String.eqb_spec v ""). Qed.













(** * Further properties of the pipeline *)

(** ** Merging pages *)

Lemma contains_length_or_empty p :
  contains_length p = length (contains_or_empty p).
Proof.
  unfold contains_length, contains_or_empty.
  destruct (ValueSet.expansion p) as [e|]; [|done].
  by destruct (Expansion.contains e).
Qed.

Lemma items_in_all pages :
  items_in (length pages) pages
  = length (concat (map contains_or_empty pages)).
Proof.
  unfold items_in. rewrite firstn_all.
  induction pages as [|p ps IH]; [done|].
  simpl. rewrite length_app, <- IH. by rewrite contains_length_or_empty.
Qed.

Lemma merge_cons_items first rest m :
  mergeExpansionPages (first :: rest) = Ok m ->
  contains_or_empty m = concat (map contains_or_empty (first :: rest)).
Proof.
  intros [= <-]. unfold contains_or_empty at 1. simpl.
  by destruct (ValueSet.expansion first).
Qed.

(** X1. [mergeExpansionPages] throws on the empty list and on nothing else.
    The merged resource has the items of all the pages, in the order of
    the pages, and everything else (the envelope, and the identifier and
    the total of the expansion) is that of the first page; a single page
    that has an item list is returned as it is. *)
Theorem mergeExpansionPages_concat pages :
  match mergeExpansionPages pages with
  | Ok m =>
      exists first rest,
        pages = first :: rest /\
        contains_or_empty m = concat (map contains_or_empty pages) /\
        contains_length m = items_in (length pages) pages /\
        ValueSet.resourceType m = ValueSet.resourceType first /\
        ValueSet.id m = ValueSet.id first /\
        ValueSet.version m = ValueSet.version first /\
        ValueSet.other m = ValueSet.other first /\
        page_total m = page_total first /\
        ValueSet.expansion m ≫= Expansion.identifier
        = ValueSet.expansion first ≫= Expansion.identifier /\
        (rest = [] ->
         ValueSet.expansion first ≫= Expansion.contains <> None -> m = first)
  | Throw e => pages = [] /\ e = new_Error "No expansion pages to merge."
  | Diverge => False
  end.
Proof.
  destruct pages as [|first rest]; [done|].
  destruct (mergeExpansionPages (first :: rest)) as [m| |] eqn:Hm;
    try discriminate.
  pose proof (merge_cons_items _ _ _ Hm) as Hitems.
  exists first, rest. split; [done|]. split; [done|]. split.
  { by rewrite items_in_all, contains_length_or_empty, Hitems. }
  injection Hm as <-. simpl. repeat split.
  - unfold page_total. simpl. by destruct (ValueSet.expansion first).
  - by destruct (ValueSet.expansion first).
  - intros -> Hsome. destruct first as [rt i v [e|] o]; simpl in *; [|done].
    destruct e as [ident tot [l|]]; simpl in *; [|done].
    unfold contains_or_empty. simpl. by rewrite app_nil_r.
Qed.

(** X2. The pages a fetch returns can always be merged, and the merged
    resource has as many items as the fetch has received. When the last
    page has items and declares a total that is not zero, there are at
    least as many items as that total. *)
Theorem fetched_pages_merge fuel net client oid opts w pages w' :
  fetchValueSetExpansion fuel net client oid opts w = (Ok pages, w') ->
  exists m,
    mergeExpansionPages pages = Ok m /\
    contains_length m = items_in (length pages) pages /\
    forall p t,
      last pages = Some p -> contains_length p <> 0 ->
      page_total p = Some t -> t <> 0%Z ->
      (t <= Z.of_nat (contains_length m))%Z.
Proof.
  unfold fetchValueSetExpansion. intros Hrun.
  apply expansionLoop_page_run in Hrun as (new & -> & _ & Hrun). simpl.
  pose proof (page_run_nonempty _ _ _ _ _ _ _ _ _ _ Hrun) as Hne.
  destruct new as [|first rest]; [done|].
  destruct (mergeExpansionPages (first :: rest)) as [m| |] eqn:Hm;
    try discriminate.
  assert (contains_length m
          = items_in (length (first :: rest)) (first :: rest)) as Hcount.
  { by rewrite items_in_all, contains_length_or_empty,
      (merge_cons_items _ _ _ Hm). }
  exists m. split; [done|]. split; [exact Hcount|]. rewrite Hcount.
  intros p t Hlast Hitems Htotal Ht.
  rewrite last_lookup in Hlast.
  pose proof (page_run_stop _ _ _ _ _ _ _ _ _ _ Hrun _ _ Hlast) as [_ Hstop].
  destruct Hstop as [H|[H|[H|(t' & H & Hle)]]]; simpl; try lia;
    try congruence.
  rewrite Htotal in H. injection H as <-. simpl in Hle.
  replace (S (pred (length (first :: rest)))) with (length (first :: rest))
    in Hle by (simpl; lia).
  exact Hle.
Qed.

Lemma fetched_pages_merge_witness :
  let pages := [page_of ["a"; "b"] (Some 3%Z); page_of ["c"] (Some 3%Z)] in
  exists m,
    mergeExpansionPages pages = Ok m /\
    contains_or_empty m = ["a"; "b"; "c"] /\ contains_length m = 3.
Proof.
  intros pages.
  pose (net := scripted [GetOk (page_of ["a"; "b"] (Some 3%Z));
                         GetOk (page_of ["c"] (Some 3%Z))]).
  pose (run := fetchValueSetExpansion 5 net (buildVsacAxios "key") "1.2"
                 (sample_opts None 3) empty_world).
  assert (run = (Ok pages, snd run)) as Hrun by (vm_compute; reflexivity).
  destruct (fetched_pages_merge _ _ _ _ _ _ _ _ Hrun) as (m & Hm & Hc & _).
  exists m. split; [exact Hm|]. split; [|exact Hc].
  injection Hm as <-. reflexivity.
Defined.

(** ** What a job reports and what it writes *)

Lemma deriveVsacVersion_nonempty r : deriveVsacVersion r <> "".
Proof. unfold deriveVsacVersion. by apply or_else_nonempty. Qed.

(** The fallbacks written after [deriveVsacVersion(...)] are never used. *)
Lemma version_fallback r o d : 
  or_else (or_opt (Some (deriveVsacVersion r)) o) d = deriveVsacVersion r.
Proof.
  pose proof (deriveVsacVersion_nonempty r).
  by rewrite or_opt_first, or_else_Some.
Qed.

Lemma version_fallback2 r o1 o2 d : 
  or_else (or_opt (or_opt (Some (deriveVsacVersion r)) o1) o2) d
  = deriveVsacVersion r.
Proof.
  pose proof (deriveVsacVersion_nonempty r).
  by rewrite !or_opt_first, or_else_Some.
Qed.

Lemma valueSetFile_version outDir oid r mode :
  valueSetFile outDir oid (deriveVsacVersion r) mode
  = posix_join outDir
      ("ValueSet-" +:+ oid +:+ "-" +:+ deriveVsacVersion r +:+ "-"
       +:+ mode_name mode +:+ ".json").
Proof.
  unfold valueSetFile. by rewrite or_else_Some by apply deriveVsacVersion_nonempty.
Qed.

(** A job that succeeds, stage by stage. *)
Lemma jobBody_Ok_inv fuel net client opts id w r w' :
  jobBody fuel net client opts id w = (Ok r, w') ->
  exists oid wd,
    normalizeVsacId id = Ok oid /\
    JobResult.oid r = oid /\
    (if wants_definition opts then
       exists d w0,
         (if Opts.dryRun opts then d = stub oid opts None /\ w0 = w
          else fetchValueSetDefinition net client oid (Opts.version opts) w
               = (Ok d, w0)) /\
         JobResult.defRes r = Some d /\
         wd = writeFileSync
                (valueSetFile (Opts.out opts) oid (deriveVsacVersion d)
                   definition)
                d (emit (MkDir (Opts.out opts)) w0)
     else JobResult.defRes r = None /\ wd = w) /\
    (if wants_expansion opts then
       exists pages m w1,
         (if Opts.dryRun opts
          then pages = [stub oid opts (Some empty_expansion)] /\ w1 = wd
          else fetchValueSetExpansion fuel net client oid (expand_opts opts) wd
               = (Ok pages, w1)) /\
         mergeExpansionPages pages = Ok m /\
         JobResult.expRes r = Some m /\
         JobResult.version r = Some (deriveVsacVersion m) /\
         w' = writeFileSync
                (valueSetFile (Opts.out opts) oid (deriveVsacVersion m)
                   expanded)
                m (emit (MkDir (Opts.out opts)) w1)
     else
       JobResult.expRes r = None /\ w' = wd /\
       JobResult.version r = deriveVsacVersion <$> JobResult.defRes r).
Proof.
  unfold jobBody, bindM, lift, ret, writeValueSetFiles.
  destruct (normalizeVsacId id) as [oid| |]; try discriminate.
  intros H. exists oid.
  destruct (wants_definition opts), (wants_expansion opts), (Opts.dryRun opts);
    simpl in H;
    repeat match type of H with
      | context [fetchValueSetDefinition ?x1 ?x2 ?x3 ?x4 ?x5] =>
          let Hd := fresh "Hd" in
          destruct (fetchValueSetDefinition x1 x2 x3 x4 x5)
            as [[?d| |] ?w0] eqn:Hd;
          simpl in H; try discriminate
      | context [fetchValueSetExpansion ?x1 ?x2 ?x3 ?x4 ?x5 ?x6] =>
          let He := fresh "He" in
          destruct (fetchValueSetExpansion x1 x2 x3 x4 x5 x6)
            as [[?pages| |] ?w1] eqn:He;
          simpl in H; try discriminate
      | context [mergeExpansionPages ?x1] =>
          let Hm := fresh "Hm" in
          destruct (mergeExpansionPages x1) as [?m| |] eqn:Hm;
          simpl in H; try discriminate
      | context [disk_mkdir net ?x1 ?x2] =>
          destruct (disk_mkdir net x1 x2); simpl in H; try discriminate
      | context [disk_write net ?x1 ?x2] =>
          destruct (disk_write net x1 x2); simpl in H; try discriminate
      end;
    rewrite ?version_fallback, ?version_fallback2 in *;
    injection H as <- <-; simpl;
    eexists; (split; [reflexivity|]); (split; [reflexivity|]);
    repeat first
      [ split; [reflexivity|]
      | split; [eassumption|]
      | eexists
      | reflexivity
      | eassumption
      | split ].
Qed.



(** X3. A successful job reports the normalized identifier, holds a
    definition exactly in the modes [definition] and [both] and an
    expansion exactly in the modes [expansion] and [both], and its
    [version] is always the one [deriveVsacVersion] reads off the resource
    it downloaded last (the merged expansion, else the definition): the
    fallbacks [|| versionForName || opts.version || 'unknown'] written
    after it are never used, and the version is never empty. *)
Theorem job_version_is_derived fuel net client opts id w r w' :
  jobBody fuel net client opts id w = (Ok r, w') ->
  normalizeVsacId id = Ok (JobResult.oid r) /\
  (is_Some (JobResult.defRes r) <-> wants_definition opts = true) /\
  (is_Some (JobResult.expRes r) <-> wants_expansion opts = true) /\
  JobResult.version r = deriveVsacVersion <$> named_after r /\
  JobResult.version r <> Some "".
Proof.
  intros Hjob.
  destruct (jobBody_Ok_inv _ _ _ _ _ _ _ _ Hjob) as (oid & wd & Hn & Ho & Hd & He).
  subst oid. split; [done|]. unfold named_after.
  assert (JobResult.version r = deriveVsacVersion <$> named_after r) as Hv.
  { unfold named_after.
    destruct (wants_expansion opts).
    - destruct He as (pages & m & w1 & _ & _ & -> & -> & _). done.
    - destruct He as (-> & _ & ->). done. }
  split; [|split; [|split; [exact Hv|]]].
  - destruct (wants_definition opts).
    + destruct Hd as (d & w0 & _ & -> & _). by split.
    + destruct Hd as [-> _]. split; [by intros [? ?]|done].
  - destruct (wants_expansion opts).
    + destruct He as (pages & m & w1 & _ & _ & -> & _). by split.
    + destruct He as (-> & _). split; [by intros [? ?]|done].
  - rewrite Hv. destruct (named_after r) as [x|]; [|done]. simpl.
    intros [= E]. by apply (deriveVsacVersion_nonempty x).
Qed.

Lemma job_version_is_derived_witness :
  exists r,
    fst (jobBody 1 (scripted []) (buildVsacAxios "key")
           (sample_job "both" "expanded" true) "urn:oid:2.16.840.1"
           empty_world) = Ok r /\
    JobResult.oid r = "2.16.840.1" /\
    JobResult.version r = Some "unknown".
Proof.
  pose (run := jobBody 1 (scripted []) (buildVsacAxios "key")
                 (sample_job "both" "expanded" true) "urn:oid:2.16.840.1"
                 empty_world).
  assert (exists r, run = (Ok r, snd run)) as [r Hrun]
    by (eexists; vm_compute; reflexivity).
  unfold run in Hrun.
  destruct (job_version_is_derived _ _ _ _ _ _ _ _ Hrun) as (Hn & _ & _ & Hv & _).
  exists r. rewrite Hrun. split; [done|].
  assert (normalizeVsacId "urn:oid:2.16.840.1" = Ok "2.16.840.1") as E
    by (vm_compute; reflexivity).
  rewrite E in Hn. injection Hn as <-. split; [done|].
  rewrite Hv.
  assert (fst run = Ok r) as Hr by (unfold run; by rewrite Hrun).
  vm_compute in Hr. injection Hr as <-. reflexivity.
Defined.


(** ** What reaches the upload stage *)

Lemma present_slot {A} (a : list (option A)) (x : A) :
  In x (present a) -> exists i, slot a i = Some x.
Proof.
  unfold present, slot. induction a as [|o a IH]; simpl; [done|].
  destruct o as [y|]; simpl.
  - intros [->|Hin]; [by exists 0|].
    destruct (IH Hin) as [i Hi]. by exists (S i).
  - intros Hin. destruct (IH Hin) as [i Hi]. by exists (S i).
Qed.

(** Every result the pool holds is the failure record of a job or the
    result of a job that succeeded. *)
Lemma reachable_result_cases fuel net client opts ids w s r :
  reachable fuel net client opts ids w s ->
  In r (present (results s)) ->
  (exists id e, r = failed_job id e) \/
  (exists id w0 w1, jobBody fuel net client opts id w0 = (Ok r, w1)).
Proof.
  intros Hreach Hin.
  apply present_slot in Hin as [i Hi].
  pose proof (pool_inv_reachable _ _ _ _ _ _ _ Hreach) as Hinv.
  destruct (inv_slots _ _ _ _ _ _ _ Hinv _ _ Hi) as (id & w0 & w1 & _ & Hrun & _).
  unfold run_job in Hrun.
  destruct (jobBody fuel net client opts id w0) as [[r'|e|] w'] eqn:Hjob;
    try discriminate; injection Hrun as <- <-.
  - right. by exists id, w0, w'.
  - left. by exists id, e.
Qed.

Lemma flat_map_nil {A B} (f : A -> list B) (l : list A) :
  (forall x, In x l -> f x = []) -> flat_map f l = [].
Proof.
  induction l as [|x l IH]; simpl; [done|]. intros H.
  rewrite (H x) by by left. simpl. apply IH. intros y Hy. apply H. by right.
Qed.

(** X5. The upload stage is given nothing when [--post-mode] asks for
    what [--mode] did not download: with [--post-mode expanded] (the
    default) after [--mode definition], with [--post-mode definition]
    after [--mode expansion] (the default), or with a [--post-mode] that
    is neither of the two, [toUpload] is empty in every state of the
    pool, whatever the jobs did. *)
Theorem upload_needs_matching_mode fuel net client opts ids w s :
  reachable fuel net client opts ids w s ->
  (Opts.postMode opts = "expanded" /\ wants_expansion opts = false) \/
  (Opts.postMode opts = "definition" /\ wants_definition opts = false) \/
  (Opts.postMode opts <> "expanded" /\ Opts.postMode opts <> "definition") ->
  toUpload opts (results s) = [].
Proof.
  intros Hreach Hmode. unfold toUpload. apply flat_map_nil. intros r Hin.
  assert (wants_expansion opts = false -> JobResult.expRes r = None) as Hexp.
  { intros Hw.
    destruct (reachable_result_cases _ _ _ _ _ _ _ _ Hreach Hin)
      as [(id & e & ->)|(id & w0 & w1 & Hjob)]; [done|].
    destruct (jobBody_Ok_inv _ _ _ _ _ _ _ _ Hjob) as (oid & wd & _ & _ & _ & He).
    rewrite Hw in He. by destruct He. }
  assert (wants_definition opts = false -> JobResult.defRes r = None) as Hdef.
  { intros Hw.
    destruct (reachable_result_cases _ _ _ _ _ _ _ _ Hreach Hin)
      as [(id & e & ->)|(id & w0 & w1 & Hjob)]; [done|].
    destruct (jobBody_Ok_inv _ _ _ _ _ _ _ _ Hjob) as (oid & wd & _ & _ & Hd & _).
    rewrite Hw in Hd. by destruct Hd. }
  destruct Hmode as [[Hp Hw]|[[Hp Hw]|[Hp1 Hp2]]].
  - rewrite Hp, (Hexp Hw). done.
  - rewrite Hp, (Hdef Hw). simpl. by destruct (JobResult.expRes r).
  - apply String.eqb_neq in Hp1, Hp2. rewrite Hp1, Hp2.
    by destruct (JobResult.expRes r).
Qed.

Lemma upload_needs_matching_mode_witness :
  let opts := sample_job "definition" "expanded" true in
  let s := run_schedule 1 (scripted []) (buildVsacAxios "key") opts
             ["2.16.840.1"] [0; 0] (init opts ["2.16.840.1"] empty_world) in
  all_finished s = true /\ toUpload opts (results s) = [].
Proof.
  intros opts s. split; [vm_compute; reflexivity|].
  apply (upload_needs_matching_mode 1 (scripted []) (buildVsacAxios "key")
           opts ["2.16.840.1"] empty_world s).
  - apply run_schedule_reachable.
  - left. split; reflexivity.
Defined.

(** ** A definition that cannot be fetched *)

(** X6. The definition request is made once and never retried: when the
    server fails it, with whatever status (a 503 or a 429 included), the
    job ends at once with that error, after this single request and
    without a wait; nothing is written and the expansion is not asked
    for. The failure record of the job carries the identifier as it was
    given, not the normalized one. *)
Theorem definition_fetch_is_not_retried fuel net client opts id oid w e :
  normalizeVsacId id = Ok oid ->
  wants_definition opts = true ->
  Opts.dryRun opts = false ->
  net_get net (trace w) client (definition_url oid (Opts.version opts))
  = GetFail e ->
  let w1 := emit (NetGet (definition_url oid (Opts.version opts)) (GetFail e))
              w in
  jobBody fuel net client opts id w = (Throw e, w1) /\
  fs w1 = fs w /\
  run_job fuel net client opts id w
  = Some (failed_job id e,
          emit (ConsoleError ("[" +:+ id +:+ "] Error: " +:+ error_text e)) w1).
Proof.
  intros Hn Hdef Hdry Hnet w1.
  assert (jobBody fuel net client opts id w = (Throw e, w1)) as Hjob.
  { unfold jobBody, bindM, lift. rewrite Hn, Hdef, Hdry.
    unfold fetchValueSetDefinition, client_get.
    fold (definition_url oid (Opts.version opts)). by rewrite Hnet. }
  split; [exact Hjob|]. split; [done|].
  unfold run_job. by rewrite Hjob.
Qed.

Lemma definition_fetch_is_not_retried_witness :
  let opts := sample_job "both" "expanded" false in
  let w' := snd (jobBody 5 (down (http_error 503)) (buildVsacAxios "key") opts
                   "urn:oid:2.16.840.1" empty_world) in
  trace w' = [NetGet "/ValueSet/2.16.840.1" (GetFail (http_error 503))].
Proof.
  intros opts w'.
  assert (normalizeVsacId "urn:oid:2.16.840.1" = Ok "2.16.840.1") as Hn
    by (vm_compute; reflexivity).
  destruct (definition_fetch_is_not_retried 5 (down (http_error 503))
              (buildVsacAxios "key") opts "urn:oid:2.16.840.1" "2.16.840.1"
              empty_world (http_error 503) Hn eq_refl eq_refl eq_refl)
    as (Hjob & _ & _).
  unfold w'. rewrite Hjob. reflexivity.
Defined.

(** ** The size of the pool *)

(** X21. A concurrency that is not positive is replaced: zero by the
    default of 4, a negative number by 1. The pool then has 4 workers, or
    one, or as many as there are identifiers if they are fewer, and never
    more jobs in flight. *)
Theorem concurrency_fallback fuel net client opts ids w s :
  (Opts.concurrency opts <= 0)%Z ->
  reachable fuel net client opts ids w s ->
  let N := if (Opts.concurrency opts =? 0)%Z then 4 else 1 in
  length (workers s) = min N (length ids) /\ in_flight s <= N.
Proof.
  intros HN Hreach N. apply pool_inv_reachable in Hreach as Hinv.
  assert (length (workers s) = min N (length ids)) as Hw.
  { rewrite (inv_workers _ _ _ _ _ _ _ Hinv). unfold starters, concurrency_of, N.
    destruct (Z.eqb_spec (Opts.concurrency opts) 0); lia. }
  split; [done|]. unfold in_flight.
  pose proof (List.filter_length_le is_busy (workers s)). lia.
Qed.

Lemma concurrency_fallback_witness :
  let opts := sample_cli 0 true in
  let ids := ["1.1"; "1.2"; "1.3"; "1.4"; "1.5"; "1.6"] in
  let s := run_schedule 0 (scripted []) (buildVsacAxios "key") opts ids
             [0; 1; 2; 3] (init opts ids empty_world) in
  length (workers s) = 4 /\ in_flight s <= 4.
Proof.
  intros opts ids s.
  apply (concurrency_fallback 0 (scripted []) (buildVsacAxios "key") opts ids
           empty_world s).
  - done.
  - apply run_schedule_reachable.
Defined.
(** ** Fetching without a budget, and an outage *)

Lemma fetchPage_no_budget net client oid opts offset tries w :
  ExpandOpts.dryRun opts = true \/ ExpandOpts.retry opts = 0 ->
  snd (fetchPage net client oid opts offset tries w) = w /\
  (forall page t,
      fst (fetchPage net client oid opts offset tries w) = Ok (page, t) ->
      t = tries) /\
  (cacheFile oid opts offset ≫= (fun f => fs w !! f) = None ->
   fst (fetchPage net client oid opts offset tries w)
   = Throw (no_page_error opts)).
Proof.
  intros Hno. unfold fetchPage, no_page_error, retries_failed.
  destruct (cacheFile oid opts offset ≫= (fun f => fs w !! f)) as [page|].
  { simpl. split; [done|]. split; [|done]. by intros ? ? [= _ ->]. }
  destruct (ExpandOpts.dryRun opts) eqn:Hdry; simpl.
  { split; [done|]. by split. }
  destruct Hno as [?|Hretry]; [done|]. rewrite Hretry. simpl.
  split; [done|]. by split.
Qed.

Lemma expansionLoop_no_budget net client oid opts fuel :
  ExpandOpts.dryRun opts = true \/ ExpandOpts.retry opts = 0 ->
  forall offset pages got tries w,
    snd (expansionLoop fuel net client oid opts offset pages got tries w) = w.
Proof.
  intros Hno. induction fuel as [|fuel IH]; intros offset pages got tries w;
    simpl; [done|].
  unfold bindM.
  destruct (fetchPage_no_budget net client oid opts offset tries w Hno)
    as (Hw & _ & _).
  destruct (fetchPage net client oid opts offset tries w) as [[[page t]|e|] w1];
    simpl in *; subst w1; try done.
  repeat case_match; try done; apply IH.
Qed.

(** X7. A fetch that is a dry run, or whose retry budget is zero, never
    touches the network: it changes nothing in the world (no request, no
    wait, no file), so that it can only succeed from cached pages. With
    [--retry 0] the first attempt itself is not made, and a page that is
    not cached fails with the message of the exhausted retries. *)
Theorem no_request_without_budget fuel net client oid opts w :
  ExpandOpts.dryRun opts = true \/ ExpandOpts.retry opts = 0 ->
  snd (fetchValueSetExpansion fuel net client oid opts w) = w /\
  (0 < fuel ->
   cacheFile oid opts 0 ≫= (fun f => fs w !! f) = None ->
   fst (fetchValueSetExpansion fuel net client oid opts w)
   = Throw (no_page_error opts)).
Proof.
  intros Hno. unfold fetchValueSetExpansion.
  split; [by apply expansionLoop_no_budget|].
  intros Hfuel Hmiss. destruct fuel as [|fuel]; [lia|]. simpl. unfold bindM.
  destruct (fetchPage_no_budget net client oid opts 0 0 w Hno)
    as (_ & _ & Hthrow).
  specialize (Hthrow Hmiss).
  destruct (fetchPage net client oid opts 0 0 w) as [r w1]. simpl in Hthrow.
  by subst r.
Qed.

Lemma no_request_without_budget_witness :
  fetchValueSetExpansion 5 (scripted [GetOk (page_of ["a"] None)])
    (buildVsacAxios "key") "1.2" (sample_opts None 0) empty_world
  = (Throw (new_Error "Failed to fetch expansion after 0 retries."),
     empty_world).
Proof.
  destruct (no_request_without_budget 5
              (scripted [GetOk (page_of ["a"] None)]) (buildVsacAxios "key")
              "1.2" (sample_opts None 0) empty_world (or_intror eq_refl))
    as [Hw Hr].
  specialize (Hr ltac:(lia) eq_refl).
  destruct (fetchValueSetExpansion _ _ _ _ _ _) as [r w'].
  simpl in Hw, Hr. subst r w'. reflexivity.
Defined.

Lemma gets_app tr1 tr2 : gets (tr1 ++ tr2) = (gets tr1 ++ gets tr2)%list.
Proof. unfold gets. apply omap_app. Qed.

Lemma gets_retried url tries es :
  gets (retried url tries es) = replicate (length es) url.
Proof.
  revert tries. induction es as [|e es IH]; intros tries; simpl; [done|].
  f_equal. apply IH.
Qed.

(** A retry loop against a server that fails every request in a way that
    is retried. *)
Lemma retryLoop_down net client url cache e :
  (forall tr, net_get net tr client url = GetFail e) ->
  retryable e = true ->
  forall n tries w,
    retryLoop net client url cache n tries w
    = (Ok (None, tries + n),
       {| fs := fs w;
          trace := trace w ++ retried url tries (replicate n e) |}).
Proof.
  intros Hnet Hretry. induction n as [|n IH]; intros tries w; simpl.
  - unfold ret. rewrite Nat.add_0_r, app_nil_r. by destruct w.
  - unfold client_get. rewrite Hnet, Hretry, IH. simpl.
    rewrite <- !app_assoc. simpl. do 3 f_equal. lia.
Qed.

Lemma backoff_sum t n :
  foldr Z.add 0%Z (map backoff (seq (S t) n))
  = (1000 * (2 ^ Z.of_nat (t + n + 1) - 2 ^ Z.of_nat (t + 1)))%Z.
Proof.
  revert t. induction n as [|n IH]; intros t.
  - simpl. rewrite Nat.add_0_r. lia.
  - cbn [seq map foldr]. rewrite IH. unfold backoff.
    replace (S t + n + 1) with (S (t + n + 1)) by lia.
    replace (t + S n + 1) with (S (t + n + 1)) by lia.
    replace (S t + 1) with (S (S t)) by lia.
    replace (t + 1) with (S t) by lia.
    rewrite !Nat2Z.inj_succ, !Z.pow_succ_r by lia. lia.
Qed.

(** X8. An outage: when the server fails every request for the first
    page with a status that is retried, and the page is not cached, the
    fetch makes exactly [retry] requests, waits after each of them (after
    the last one too, although nothing follows it), for 2, 4, 8, ...
    seconds, [1000 * (2^(retry+1) - 2)] milliseconds in all, writes
    nothing, and fails with the message of the exhausted retries. *)
Theorem outage_exhausts_retries fuel net client oid opts w e :
  (forall tr, net_get net tr client (expand_url oid opts 0) = GetFail e) ->
  retryable e = true ->
  ExpandOpts.dryRun opts = false ->
  cacheFile oid opts 0 ≫= (fun f => fs w !! f) = None ->
  0 < fuel ->
  let n := ExpandOpts.retry opts in
  let run := fetchValueSetExpansion fuel net client oid opts w in
  fst run = Throw (retries_failed opts) /\
  fs (snd run) = fs w /\
  trace (snd run)
  = (trace w ++ retried (expand_url oid opts 0) 0 (replicate n e))%list /\
  gets (trace (snd run))
  = (gets (trace w) ++ replicate n (expand_url oid opts 0))%list /\
  sleeps (trace (snd run))
  = (sleeps (trace w) ++ map backoff (seq 1 n))%list /\
  total_wait (trace (snd run))
  = (total_wait (trace w) + 1000 * (2 ^ (Z.of_nat n + 1) - 2))%Z.
Proof.
  intros Hnet Hretry Hdry Hmiss Hfuel n run.
  assert (run = (Throw (retries_failed opts),
                 {| fs := fs w;
                    trace := trace w ++ retried (expand_url oid opts 0) 0
                                          (replicate n e) |})) as ->.
  { unfold run, fetchValueSetExpansion.
    destruct fuel as [|fuel]; [lia|]. simpl. unfold bindM, fetchPage.
    rewrite Hmiss, Hdry. simpl. unfold bindM.
    rewrite (retryLoop_down _ _ _ _ _ Hnet Hretry). simpl.
    by rewrite Nat.sub_0_r. }
  simpl. split; [done|]. split; [done|]. split; [done|].
  split; [by rewrite gets_app, gets_retried, length_replicate|].
  assert (sleeps (trace w ++ retried (expand_url oid opts 0) 0 (replicate n e))
          = (sleeps (trace w) ++ map backoff (seq 1 n))%list) as Hs.
  { by rewrite sleeps_app, sleeps_retried, length_replicate. }
  split; [exact Hs|].
  unfold total_wait. rewrite Hs, foldr_app.
  rewrite (backoff_sum 0 n). simpl Nat.add.
  assert (forall l a, foldr Z.add a l = (foldr Z.add 0 l + a)%Z) as Hfold.
  { induction l as [|x l IH]; intros a; simpl; [lia|]. rewrite IH. lia. }
  rewrite Hfold. rewrite Nat2Z.inj_add. simpl (Z.of_nat 1). 
  change (2 ^ 1)%Z with 2%Z. lia.
Qed.

Lemma outage_exhausts_retries_witness :
  let run := fetchValueSetExpansion 5 (down (http_error 503))
               (buildVsacAxios "key") "1.2" (sample_opts None 3) empty_world in
  length (gets (trace (snd run))) = 3 /\
  sleeps (trace (snd run)) = [2000; 4000; 8000]%Z /\
  total_wait (trace (snd run)) = 14000%Z.
Proof.
  intros run.
  destruct (outage_exhausts_retries 5 (down (http_error 503))
              (buildVsacAxios "key") "1.2" (sample_opts None 3) empty_world
              (http_error 503) (fun _ => eq_refl) eq_refl eq_refl eq_refl
              ltac:(lia))
    as (_ & _ & _ & Hg & Hs & Ht).
  fold run in Hg, Hs, Ht. rewrite Hg, Hs, Ht. by split.
Defined.
(** ** The upload endpoint *)

Lemma strip_slash_app b : strip_slash (b +:+ "/") = b.
Proof.
  induction b as [|c b IH]; [done|].
  change (String c b +:+ "/") with (String c (b +:+ "/")).
  destruct b as [|c' b]; [done|].
  change (String c' b +:+ "/") with (String c' (b +:+ "/")) in *.
  cbn [strip_slash] in *. by rewrite IH.
Qed.

Lemma strip_slash_id b : last_char b <> Some "/"%char -> strip_slash b = b.
Proof.
  induction b as [|c b IH]; [done|]. intros Hlast.
  destruct b as [|c' b].
  - simpl in *. destruct (Ascii.eqb_spec c "/"); [|done]. by subst c.
  - cbn [strip_slash last_char] in *. by rewrite IH.
Qed.

(** X9. The per-resource upload goes to [<base>/ValueSet] whether the base
    URL is given with a trailing slash or without one: the two forms have
    the same endpoint, in which the slash is not doubled. *)
Theorem valueSetEndpoint_trailing_slash b :
  last_char b <> Some "/"%char ->
  valueSetEndpoint b = b +:+ "/ValueSet" /\
  valueSetEndpoint (b +:+ "/") = valueSetEndpoint b.
Proof.
  intros Hlast. unfold valueSetEndpoint.
  by rewrite strip_slash_app, strip_slash_id.
Qed.

Lemma valueSetEndpoint_trailing_slash_witness :
  valueSetEndpoint "http://localhost:8080/fhir/"
  = "http://localhost:8080/fhir/ValueSet".
Proof.
  destruct (valueSetEndpoint_trailing_slash "http://localhost:8080/fhir")
    as [H1 H2]; [by vm_compute|].
  change (valueSetEndpoint ("http://localhost:8080/fhir" +:+ "/")
          = "http://localhost:8080/fhir" +:+ "/ValueSet").
  by rewrite H2.
Defined.

(** ** The identifier normalizer on the documented forms *)

Lemma dotted_scan_loose l :
  forall b,
    dotted_scan b false l = true ->
    exists ds rest,
      l = (ds ++ "."%char :: rest)%list /\
      (b = false -> ds <> []) /\
      Forall (fun c => is_digit c = true) ds /\
      rest <> [] /\ Forall (fun c => is_digit_or_dot c = true) rest.
Proof.
  assert (forall l b, dotted_scan b true l = true ->
            Forall (fun c => is_digit_or_dot c = true) l /\
            (b = false -> l <> [])) as Htail.
  { clear l. induction l as [|c l IH]; intros b; simpl.
    - rewrite andb_true_r. intros ->. by split.
    - unfold is_digit_or_dot. destruct (is_digit c) eqn:Hd.
      + intros H. destruct (IH _ H) as [HF _]. split; [|done].
        constructor; [by rewrite Hd|done].
      + destruct (is_dot c) eqn:Hdot; [|done].
        intros [_ H]%andb_true_iff. destruct (IH _ H) as [HF _].
        split; [|done]. constructor; [by rewrite Hd, Hdot|done]. }
  induction l as [|c l IH]; intros b; simpl.
  - by rewrite andb_false_r.
  - destruct (is_digit c) eqn:Hd.
    + intros H. destruct (IH _ H) as (ds & rest & -> & _ & Hds & Hne & Hrest).
      exists (c :: ds), rest. split; [done|]. split; [done|].
      split; [by constructor|]. by split.
    + destruct (is_dot c) eqn:Hdot; [|done].
      intros [Hb H]%andb_true_iff. subst b.
      destruct (Htail _ _ H) as [HF Hne].
      apply Ascii.eqb_eq in Hdot. subst c.
      exists [], l. split; [done|]. split; [done|].
      split; [constructor|]. split; [by apply Hne|done].
Qed.

Lemma dotted_numeric_loose oid :
  dotted_numeric oid = true -> loose_oid (list_ascii_of_string oid).
Proof.
  unfold dotted_numeric, loose_oid. intros H.
  destruct (dotted_scan_loose _ _ H) as (ds & rest & E & Hne & Hds & Hr & HF).
  exists ds, rest. split; [done|]. split; [by apply Hne|]. by repeat split.
Qed.

Lemma list_ascii_of_string_app (s t : string) :
  list_ascii_of_string (s +:+ t)
  = (list_ascii_of_string s ++ list_ascii_of_string t)%list.
Proof. induction s as [|c s IH]; simpl; [done|]. by rewrite IH. Qed.

(** X10. The normalizer accepts the forms its comment names: an OID
    (digits separated by single dots) is returned as it is when it stands
    alone, after [urn:oid:], or at the end of a canonical URL, and more
    generally after any text without a digit and before the end of the
    input or a character that is neither a digit nor a dot. *)
Theorem normalizeVsacId_accepts_oid (pre oid post : string) :
  dotted_numeric oid = true ->
  Forall (fun c => is_digit c = false) (list_ascii_of_string pre) ->
  (forall c r, post = String c r -> is_digit_or_dot c = false) ->
  normalizeVsacId (pre +:+ oid +:+ post) = Ok oid.
Proof.
  intros Hoid Hpre Hpost.
  rewrite <- (string_of_list_ascii_of_string (pre +:+ oid +:+ post)).
  rewrite !list_ascii_of_string_app.
  rewrite normalizeVsacId_prefixed.
  - by rewrite string_of_list_ascii_of_string.
  - exact Hpre.
  - by apply dotted_numeric_loose.
  - intros c r E. destruct post as [|c' r']; [done|].
    simpl in E. injection E as <- <-. by apply (Hpost c' r').
Qed.

Lemma normalizeVsacId_accepts_oid_witness :
  normalizeVsacId
    "http://cts.nlm.nih.gov/fhir/ValueSet/2.16.840.1.113883.3.464|20240101"
  = Ok "2.16.840.1.113883.3.464".
Proof.
  apply (normalizeVsacId_accepts_oid "http://cts.nlm.nih.gov/fhir/ValueSet/"
           "2.16.840.1.113883.3.464" "|20240101").
  - vm_compute. reflexivity.
  - repeat constructor.
  - intros c r [= <- _]. reflexivity.
Defined.

(** X11. What the normalizer returns is an identifier it returns
    unchanged: normalizing twice is normalizing once. *)
Theorem normalizeVsacId_idempotent id oid :
  normalizeVsacId id = Ok oid -> normalizeVsacId oid = Ok oid.
Proof.
  unfold normalizeVsacId at 1.
  destruct (regex_search (list_ascii_of_string id)) as [m|] eqn:E; [|done].
  intros [= <-].
  apply regex_search_Some in E as (pre & post & _ & Hm & _).
  pose proof (normalizeVsacId_prefixed [] m [] ltac:(constructor) Hm
                ltac:(done)) as H.
  by rewrite app_nil_r in H.
Qed.

Lemma normalizeVsacId_idempotent_witness :
  normalizeVsacId "1.2." = Ok "1.2.".
Proof.
  apply (normalizeVsacId_idempotent "urn:oid:1.2.,x"). vm_compute. reflexivity.
Defined.
(** ** The request URL *)

Lemma hex_digit_inj a b :
  a < 16 -> b < 16 -> hex_digit a = hex_digit b -> a = b.
Proof.
  intros Ha Hb.
  do 16 (destruct a as [|a];
         [do 16 (destruct b as [|b]; [by (done || discriminate)|]); lia|]).
  lia.
Qed.

Lemma encodeURIComponent_inj s1 :
  forall s2, encodeURIComponent s1 = encodeURIComponent s2 -> s1 = s2.
Proof.
  assert (is_unreserved "%" = false) as Hpercent by done.
  induction s1 as [|c1 s1 IH]; intros [|c2 s2]; cbn [encodeURIComponent];
    try done.
  - by destruct (is_unreserved c2).
  - by destruct (is_unreserved c1).
  - destruct (is_unreserved c1) eqn:H1, (is_unreserved c2) eqn:H2.
    + intros [= -> E]. by rewrite (IH _ E).
    + intros [= -> _]. congruence.
    + intros [= <- _]. congruence.
    + intros [= Hq Hr E]. rewrite (IH _ E). f_equal.
      pose proof (nat_ascii_bounded c1). pose proof (nat_ascii_bounded c2).
      change (hex_digit (nat_of_ascii c1 / 16)
              = hex_digit (nat_of_ascii c2 / 16)) in Hq.
      change (hex_digit (nat_of_ascii c1 mod 16)
              = hex_digit (nat_of_ascii c2 mod 16)) in Hr.
      apply hex_digit_inj in Hq;
        [|apply Nat.Div0.div_lt_upper_bound; lia
         |apply Nat.Div0.div_lt_upper_bound; lia].
      apply hex_digit_inj in Hr; [|apply Nat.mod_upper_bound; lia
                                  |apply Nat.mod_upper_bound; lia].
      rewrite <- (ascii_nat_embedding c1), <- (ascii_nat_embedding c2).
      f_equal.
      rewrite (Nat.div_mod_eq (nat_of_ascii c1) 16),
        (Nat.div_mod_eq (nat_of_ascii c2) 16). lia.
Qed.

Lemma string_app_inj_l (a x y : string) : a +:+ x = a +:+ y -> x = y.
Proof. induction a as [|c a IH]; simpl; [done|]. intros [= E]. by apply IH. Qed.

(** X12. The request URL keeps the filter apart: URL encoding loses
    nothing, so that two fetches that differ only in a non-empty
    [--filter] never ask for the same URL. *)
Theorem expand_url_filter_inj oid opts1 opts2 offset f1 f2 :
  ExpandOpts.version opts1 = ExpandOpts.version opts2 ->
  ExpandOpts.count opts1 = ExpandOpts.count opts2 ->
  ExpandOpts.filter opts1 = Some f1 -> f1 <> "" ->
  ExpandOpts.filter opts2 = Some f2 -> f2 <> "" ->
  expand_url oid opts1 offset = expand_url oid opts2 offset ->
  f1 = f2.
Proof.
  intros Hv Hc Hf1 Hn1 Hf2 Hn2. unfold expand_url, expand_params.
  rewrite Hv, Hc, Hf1, Hf2.
  assert (truthy (Some f1) = true) as -> by (unfold truthy; by destruct (String.eqb_spec f1 "")).
  assert (truthy (Some f2) = true) as -> by (unfold truthy; by destruct (String.eqb_spec f2 "")).
  intros H. apply encodeURIComponent_inj.
  destruct (truthy (ExpandOpts.version opts2)); cbn -[encodeURIComponent pretty] in H;
    repeat match type of H with
           | context [(?a +:+ ?b) +:+ ?c] =>
               rewrite (string_app_assoc a b c) in H
           end;
    repeat (first [ apply string_app_inj_l in H
                  | injection H as H ]);
    exact H.
Qed.

Lemma expand_url_filter_inj_witness :
  expand_url "1.2" (sample_opts (Some "a b") 3) 0
  <> expand_url "1.2" (sample_opts (Some "a%20b") 3) 0.
Proof.
  intros E.
  pose proof (expand_url_filter_inj "1.2" (sample_opts (Some "a b") 3)
                (sample_opts (Some "a%20b") 3) 0 "a b" "a%20b"
                eq_refl eq_refl eq_refl ltac:(done) eq_refl ltac:(done) E).
  discriminate.
Defined.
(** * The [verify-codes] command *)

Lemma path_join_inj dir a b : path_join dir a = path_join dir b -> a = b.
Proof.
  unfold path_join. intros H. apply string_app_inj_l in H.
  by apply string_app_inj_l in H.
Qed.

Lemma scan_codes_spec lines i line codes :
  forall st,
    foldl (Verify.scan_code lines i line) st codes
    = ((fst st
        ++ map (fun c => {| Verify.code := fst c; Verify.system := snd c;
                            Verify.lineNumber := i + 1 |})
             (List.filter (Verify.hit lines i line) codes))%list,
       snd st || existsb (Verify.hit lines i line) codes).
Proof.
  induction codes as [|[code system] codes IH]; intros [ins found].
  - simpl. by rewrite app_nil_r, orb_false_r.
  - assert (Verify.hit lines i line (code, system)
            = Verify.includes line code
              && (Verify.includes (Verify.above lines i) system
                  || Verify.includes (Verify.below lines i) system)) as Hhit
      by reflexivity.
    cbn [foldl List.filter existsb map]. rewrite IH, Hhit.
    unfold Verify.scan_code.
    fold (Verify.above lines i). fold (Verify.below lines i).
    destruct (Verify.includes line code);
      [destruct (Verify.includes (Verify.above lines i) system
                 || Verify.includes (Verify.below lines i) system)|];
      simpl; rewrite <- ?app_assoc, ?orb_true_r; done.
Qed.

Lemma scan_lines_fold codes lines numbered :
  forall st,
    foldl (fun st il =>
             foldl (Verify.scan_code lines (fst il) (snd il)) st codes)
      st numbered
    = ((fst st
        ++ flat_map
             (fun il =>
                map (fun c => {| Verify.code := fst c; Verify.system := snd c;
                                 Verify.lineNumber := fst il + 1 |})
                  (List.filter (Verify.hit lines (fst il) (snd il)) codes))
             numbered)%list,
       snd st
       || existsb (fun il => existsb (Verify.hit lines (fst il) (snd il)) codes)
            numbered).
Proof.
  induction numbered as [|il numbered IH]; intros [ins found]; simpl.
  - by rewrite app_nil_r, orb_false_r.
  - rewrite scan_codes_spec, IH. simpl. by rewrite <- app_assoc, orb_assoc.
Qed.

(** The two loops compute the instances and whether there is one. *)
Lemma scan_lines_spec codes text :
  Verify.scan_lines codes (Verify.split_lines text)
  = (Verify.hits codes (Verify.split_lines text),
     Verify.relevant_text codes text).
Proof. unfold Verify.scan_lines. by rewrite scan_lines_fold. Qed.

Lemma filter_length_existsb {A} (p : A -> bool) (l : list A) :
  (0 <? length (List.filter p l))%nat = existsb p l.
Proof.
  induction l as [|x l IH]; simpl; [done|]. by destruct (p x).
Qed.

Lemma hits_relevant codes text :
  (0 <? length (Verify.hits codes (Verify.split_lines text)))%nat
  = Verify.relevant_text codes text.
Proof.
  unfold Verify.hits, Verify.relevant_text.
  induction (Verify.numbered (Verify.split_lines text)) as [|il l IH];
    simpl; [done|].
  rewrite length_app, length_map, <- IH, <- filter_length_existsb.
  by destruct (length (List.filter _ codes)).
Qed.

Lemma check_file_read inputPath codes deleteFlag filename t d text :
  Verify.texts d !! path_join inputPath filename = Some text ->
  Verify.check_file inputPath codes deleteFlag filename t d
  = if Verify.relevant_text codes text then
      (Ok {| Verify.relevant := S (Verify.relevant t);
             Verify.irrelevant := Verify.irrelevant t;
             Verify.deleted := Verify.deleted t;
             Verify.found_in :=
               (Verify.found_in t
                ++ [{| Verify.file := filename;
                       Verify.instances :=
                         Verify.hits codes (Verify.split_lines text) |}])%list
          |}, d)
    else
      (Ok {| Verify.relevant := Verify.relevant t;
             Verify.irrelevant := S (Verify.irrelevant t);
             Verify.deleted :=
               if deleteFlag then (Verify.deleted t ++ [filename])%list
               else Verify.deleted t;
             Verify.found_in := Verify.found_in t |},
       if deleteFlag
       then Verify.unlinkSync (path_join inputPath filename) d else d).
Proof.
  intros Hread. unfold Verify.check_file. rewrite Hread, scan_lines_spec.
  rewrite hits_relevant.
  destruct (Verify.relevant_text codes text); [done|]. by destruct deleteFlag.
Qed.

Lemma tally_eq a b c e a' b' c' e' :
  a = a' -> b = b' -> c = c' -> e = e' ->
  {| Verify.relevant := a; Verify.irrelevant := b; Verify.deleted := c;
     Verify.found_in := e |}
  = {| Verify.relevant := a'; Verify.irrelevant := b'; Verify.deleted := c';
       Verify.found_in := e' |}.
Proof. by intros -> -> -> ->. Qed.

(** The loop over the files, when each of them can be read. *)
Lemma check_files_ok inputPath codes deleteFlag m0 names :
  NoDup names ->
  forall t d,
    (forall n, In n names ->
       is_Some (m0 !! path_join inputPath n) /\
       Verify.texts d !! path_join inputPath n = m0 !! path_join inputPath n) ->
    Verify.check_files inputPath codes deleteFlag names t d
    = (Ok {| Verify.relevant :=
               Verify.relevant t
               + length (List.filter (Verify.relevant_file inputPath codes m0)
                           names);
             Verify.irrelevant :=
               Verify.irrelevant t
               + length (List.filter
                           (Verify.irrelevant_file inputPath codes m0) names);
             Verify.deleted :=
               (Verify.deleted t
                ++ if deleteFlag
                   then List.filter (Verify.irrelevant_file inputPath codes m0)
                          names
                   else [])%list;
             Verify.found_in :=
               (Verify.found_in t
                ++ map (Verify.entry_of inputPath codes m0)
                     (List.filter (Verify.relevant_file inputPath codes m0)
                        names))%list |},
       {| Verify.texts :=
            foldl (fun m n => delete (path_join inputPath n) m)
              (Verify.texts d)
              (if deleteFlag
               then List.filter (Verify.irrelevant_file inputPath codes m0)
                      names
               else []);
          Verify.effects :=
            (Verify.effects d
             ++ map (fun n => Verify.Unlink (path_join inputPath n))
                  (if deleteFlag
                   then List.filter
                          (Verify.irrelevant_file inputPath codes m0) names
                   else []))%list |}).
Proof.
  induction 1 as [|name rest Hnotin Hnodup IH]; intros t d Hread.
  - cbn. rewrite !Nat.add_0_r, !app_nil_r.
    destruct t, d. by destruct deleteFlag; cbn; rewrite ?app_nil_r.
  - destruct (Hread name ltac:(by left)) as [[text Htext] Hd].
    rewrite Htext in Hd.
    assert (Verify.relevant_file inputPath codes m0 name
            = Verify.relevant_text codes text) as Hrel
      by (unfold Verify.relevant_file; by rewrite Htext).
    assert (Verify.irrelevant_file inputPath codes m0 name
            = negb (Verify.relevant_text codes text)) as Hirr
      by (unfold Verify.irrelevant_file; by rewrite Htext).
    assert (Verify.entry_of inputPath codes m0 name
            = {| Verify.file := name;
                 Verify.instances :=
                   Verify.hits codes (Verify.split_lines text) |}) as Hent
      by (unfold Verify.entry_of; by rewrite Htext).
    cbn [Verify.check_files List.filter].
    rewrite (check_file_read _ _ _ _ _ _ _ Hd), Hrel, Hirr.
    destruct (Verify.relevant_text codes text); cbn [negb map length].
    + rewrite IH; [|intros n Hn; apply Hread; by right].
      rewrite Hent. apply pair_equal_spec. cbn. split; [|done].
      apply (f_equal Ok).
      apply tally_eq; try done; try lia. by rewrite <- app_assoc.
    + rewrite IH.
      * apply pair_equal_spec.
        destruct deleteFlag; cbn; (split; [apply (f_equal Ok)|]).
        -- apply tally_eq; try done; try lia. by rewrite <- app_assoc.
        -- by rewrite <- app_assoc.
        -- apply tally_eq; try done; lia.
        -- done.
      * intros n Hn. destruct (Hread n ltac:(by right)) as [Hsome Hsame].
        split; [done|]. destruct deleteFlag; [|done]. cbn.
        rewrite lookup_delete_ne; [done|].
        intros E. apply path_join_inj in E. subst n.
        by apply Hnotin, list_elem_of_In.
Qed.

Lemma filter_split_length inputPath codes (m : gmap string string) names :
  (forall n, In n names -> is_Some (m !! path_join inputPath n)) ->
  length (List.filter (Verify.relevant_file inputPath codes m) names)
  + length (List.filter (Verify.irrelevant_file inputPath codes m) names)
  = length names.
Proof.
  induction names as [|n names IH]; intros Hread; [done|].
  cbn [List.filter]. unfold Verify.relevant_file at 1, Verify.irrelevant_file at 1.
  destruct (Hread n ltac:(by left)) as [text ->].
  specialize (IH (fun x Hx => Hread x (or_intror Hx))).
  destruct (Verify.relevant_text codes text); simpl; lia.
Qed.

Lemma relevant_file_hits inputPath codes m name :
  Verify.relevant_file inputPath codes m name = true ->
  Verify.instances (Verify.entry_of inputPath codes m name) <> [].
Proof.
  unfold Verify.relevant_file, Verify.entry_of.
  destruct (m !! path_join inputPath name) as [text|]; [|done]. simpl.
  rewrite <- hits_relevant. by destruct (Verify.hits _ _).
Qed.

(** X13. A run of [verify-codes] over a directory whose selected files
    can all be read unlinks the irrelevant files (with [--delete] only),
    in the order of the listing, then saves one report and prints the
    summary. In the report every selected file is counted once, as
    relevant or as irrelevant; [textSearchInstances] has one entry for
    each relevant file and none for the others, each with at least one
    instance; and the deleted files are the irrelevant ones. *)
Theorem verifyCodes_report inputPath listing codes deleteFlag time stringify d :
  NoDup listing ->
  (forall name, In name listing -> Verify.selected name = true ->
     is_Some (Verify.texts d !! path_join inputPath name)) ->
  let names := List.filter Verify.selected listing in
  let t := Verify.expected inputPath codes deleteFlag (Verify.texts d) names in
  let reportPath := path_join inputPath "verification_report.json" in
  Verify.effects
    (Verify.verifyCodes inputPath listing codes deleteFlag time stringify d)
  = (Verify.effects d
     ++ map (fun n => Verify.Unlink (path_join inputPath n)) (Verify.deleted t)
     ++ [Verify.WriteReport reportPath (Verify.mkReport (length names) t time)]
     ++ Verify.closing (length names) t deleteFlag time reportPath)%list /\
  Verify.relevant t + Verify.irrelevant t = length names /\
  length (Verify.found_in t) = Verify.relevant t /\
  Forall (fun fi => Verify.instances fi <> []) (Verify.found_in t) /\
  (deleteFlag = true -> length (Verify.deleted t) = Verify.irrelevant t) /\
  (deleteFlag = false -> Verify.deleted t = []).
Proof.
  intros Hnodup Hread names t reportPath.
  assert (forall n, In n names ->
            is_Some (Verify.texts d !! path_join inputPath n)) as Hread'.
  { intros n [Hin Hsel]%filter_In. by apply Hread. }
  split.
  - unfold Verify.verifyCodes. fold names.
    rewrite (check_files_ok inputPath codes deleteFlag (Verify.texts d));
      [|unfold names; by apply NoDup_ListNoDup, List.NoDup_filter, NoDup_ListNoDup|intros n Hn; split; [by apply Hread'|done]].
    cbn [Verify.effects]. by rewrite <- app_assoc.
  - unfold t, Verify.expected. cbn.
    split; [by apply filter_split_length|].
    split; [by rewrite length_map|].
    split.
    + apply Forall_forall. intros fi [n [<- Hn]]%list_elem_of_In%in_map_iff.
      apply filter_In in Hn as [_ Hn]. by apply relevant_file_hits.
    + split; [by intros ->|by intros ->].
Qed.

Lemma verifyCodes_report_witness :
  Verify.effects
    (Verify.verifyCodes "/data" Verify.sample_listing Verify.sample_codes true
       "0.01" Verify.sample_stringify Verify.sample_disk)
  = [Verify.Unlink "/data/b.json";
     Verify.WriteReport "/data/verification_report.json"
       {| Verify.totalFiles := 2;
          Verify.relevantFiles := 1;
          Verify.irrelevantFiles := 1;
          Verify.deletedFiles := ["b.json"];
          Verify.textSearchInstances :=
            [{| Verify.file := "a.json";
                Verify.instances :=
                  [{| Verify.code := "1234-5";
                      Verify.system := "http://loinc.org";
                      Verify.lineNumber := 2 |}] |}];
          Verify.totalTime := "0.01 seconds" |};
     Verify.Log "Verification complete:";
     Verify.Log "  Total files processed: 2";
     Verify.Log "  Relevant files: 1";
     Verify.Log "  Irrelevant files: 1";
     Verify.Log "  Files deleted: 1";
     Verify.Log "  Total time: 0.01 seconds";
     Verify.Log "  Report saved to: /data/verification_report.json"].
Proof.
  destruct (verifyCodes_report "/data" Verify.sample_listing
              Verify.sample_codes true "0.01" Verify.sample_stringify
              Verify.sample_disk)
    as [Heff _].
  - compute_done.
  - intros name [<-|[<-|[<-|[<-|[]]]]] Hsel; try discriminate;
      vm_compute; eauto.
  - rewrite Heff. vm_compute. reflexivity.
Defined.

Lemma irrelevant_file_weaken inputPath codes (m1 m2 : gmap string string) n :
  m1 ⊆ m2 ->
  Verify.irrelevant_file inputPath codes m1 n = true ->
  Verify.irrelevant_file inputPath codes m2 n = true.
Proof.
  unfold Verify.irrelevant_file. intros Hsub.
  destruct (m1 !! path_join inputPath n) as [text|] eqn:E; [|done].
  by rewrite (lookup_weaken _ _ _ _ E Hsub).
Qed.

(** The loop over the files, whatever the directory holds. *)
Lemma check_files_run inputPath codes deleteFlag names :
  forall t d,
    exists gone,
      let run := Verify.check_files inputPath codes deleteFlag names t d in
      Verify.effects (snd run)
      = (Verify.effects d
         ++ map (fun n => Verify.Unlink (path_join inputPath n)) gone)%list /\
      Verify.texts (snd run) ⊆ Verify.texts d /\
      (forall q, (forall n, In n gone -> q <> path_join inputPath n) ->
                 Verify.texts (snd run) !! q = Verify.texts d !! q) /\
      Forall (fun n =>
                In n names /\ deleteFlag = true /\
                Verify.irrelevant_file inputPath codes (Verify.texts d) n = true
                /\ Verify.texts (snd run) !! path_join inputPath n = None)
        gone /\
      fst run <> Diverge /\
      (forall t', fst run = Ok t' ->
         forall n, In n names ->
                   is_Some (Verify.texts d !! path_join inputPath n)) /\
      (forall e, fst run = Throw e ->
         exists n, In n names /\ e = Verify.no_such_file (path_join inputPath n))
      /\
      (forall t', fst run = Ok t' ->
                  Verify.deleted t' = (Verify.deleted t ++ gone)%list).
Proof.
  induction names as [|name rest IH]; intros t d.
  { exists []. cbn. rewrite !app_nil_r. repeat split; try done.
    all: try by intros t' _ n [].
    by intros t' [= <-]. }
  cbn [Verify.check_files].
  destruct (Verify.texts d !! path_join inputPath name) as [text|] eqn:Hd.
  2:{ exists []. unfold Verify.check_file. rewrite Hd. cbn.
      rewrite app_nil_r. repeat split; try done.
      all: try (intros e [= <-]; exists name; split; [by left|done]). }
  rewrite (check_file_read _ _ _ _ _ _ _ Hd).
  assert (forall (t1 : Verify.Tally) (d1 : Verify.Disk) (del : bool),
            d1 = (if del then Verify.unlinkSync (path_join inputPath name) d
                  else d) ->
            Verify.deleted t1
            = (Verify.deleted t ++ if del then [name] else [])%list ->
            (del = true ->
             deleteFlag = true /\ Verify.relevant_text codes text = false) ->
            exists gone,
              let run := Verify.check_files inputPath codes deleteFlag rest
                           t1 d1 in
              Verify.effects (snd run)
              = (Verify.effects d
                 ++ map (fun n => Verify.Unlink (path_join inputPath n)) gone)%list /\
              Verify.texts (snd run) ⊆ Verify.texts d /\
              (forall q, (forall n, In n gone -> q <> path_join inputPath n) ->
                         Verify.texts (snd run) !! q = Verify.texts d !! q) /\
              Forall (fun n =>
                        In n (name :: rest) /\ deleteFlag = true /\
                        Verify.irrelevant_file inputPath codes (Verify.texts d) n
                        = true /\
                        Verify.texts (snd run) !! path_join inputPath n = None)
                gone /\
              fst run <> Diverge /\
              (forall t', fst run = Ok t' ->
                 forall n, In n (name :: rest) ->
                           is_Some (Verify.texts d !! path_join inputPath n)) /\
              (forall e, fst run = Throw e ->
                 exists n, In n (name :: rest) /\
                           e = Verify.no_such_file (path_join inputPath n)) /\
              (forall t', fst run = Ok t' ->
                          Verify.deleted t' = (Verify.deleted t ++ gone)%list))
    as Hstep.
  { intros t1 d1 del -> Ht1 Hdel.
    set (d1 := if del then Verify.unlinkSync (path_join inputPath name) d
               else d).
    assert (Verify.texts d1 ⊆ Verify.texts d) as Hsub.
    { unfold d1. destruct del; [apply delete_subseteq|done]. }
    destruct (IH t1 d1)
      as (gone & Heff & Hsub' & Hframe & Hgone & Hdiv & Hok & Hthrow & Hdeleted).
    exists ((if del then [name] else []) ++ gone)%list.
    cbn zeta in *.
    split; [|split; [|split; [|split; [|split; [|split; [|split]]]]]].
    - rewrite Heff. unfold d1. destruct del; cbn; [|done].
      by rewrite <- app_assoc.
    - by etrans.
    - intros q Hq. rewrite Hframe.
      + unfold d1. destruct del; [|done]. cbn.
        apply lookup_delete_ne. intros E. apply (Hq name); [|done].
        apply in_app_iff. left. by left.
      + intros n Hn. apply Hq. apply in_app_iff. by right.
    - apply Forall_app. split.
      + destruct del; [|constructor]. destruct (Hdel eq_refl) as [-> Hirr].
        constructor; [|constructor]. split; [by left|]. split; [done|].
        split.
        * unfold Verify.irrelevant_file. by rewrite Hd, Hirr.
        * apply (lookup_weaken_None _ (Verify.texts d1)); [|done].
          unfold d1. cbn. apply lookup_delete_eq.
      + eapply Forall_impl; [exact Hgone|]. intros n (Hin & Hflag & Hirr & Hnone).
        split; [by right|]. split; [done|]. split; [|done].
        by apply (irrelevant_file_weaken _ _ _ _ _ Hsub).
    - done.
    - intros t' Ht' n [<-|Hn]; [by rewrite Hd|].
      destruct (Hok t' Ht' n Hn) as [x Hx]. exists x.
      by apply (lookup_weaken _ _ _ _ Hx Hsub).
    - intros e He. destruct (Hthrow e He) as (n & Hn & ->).
      exists n. split; [by right|done].
    - intros t' Ht'. by rewrite (Hdeleted t' Ht'), Ht1, <- app_assoc. }
  destruct (Verify.relevant_text codes text) eqn:Hrel.
  - eapply (Hstep _ _ false); [done|by cbn; rewrite app_nil_r|done].
  - destruct deleteFlag.
    + eapply (Hstep _ _ true); [done|done|done].
    + eapply (Hstep _ _ false); [done|by cbn; rewrite app_nil_r|done].
Qed.

(** X14. What [verify-codes] deletes, in any run, complete or not: only
    with [--delete]; only files of the listing whose name ends in [.json]
    and does not start with [practitionerInformation] or
    [hospitalInformation]; and only files that have been read and hold no
    instance of a code. A deleted file is gone at the end, unless it is the
    report of an earlier run, which a complete run writes again. A complete
    run saves the report, as text, at [verification_report.json] of the
    directory, after the deletions; a run that is cut short prints the
    error and saves no report. Every other file is left as it was. *)
Theorem verifyCodes_deletes_only_irrelevant
    inputPath listing codes deleteFlag time stringify d :
  let d' :=
    Verify.verifyCodes inputPath listing codes deleteFlag time stringify d in
  let reportPath := path_join inputPath "verification_report.json" in
  exists gone rest,
    Verify.effects d'
    = (Verify.effects d
       ++ map (fun n => Verify.Unlink (path_join inputPath n)) gone
       ++ rest)%list /\
    Forall (fun e => forall p, e <> Verify.Unlink p) rest /\
    Forall (fun n =>
              deleteFlag = true /\ In n listing /\ Verify.selected n = true /\
              (exists text,
                  Verify.texts d !! path_join inputPath n = Some text /\
                  Verify.relevant_text codes text = false) /\
              (n <> "verification_report.json" ->
               Verify.texts d' !! path_join inputPath n = None))
      gone /\
    (forall q, q <> reportPath ->
               (forall n, In n gone -> q <> path_join inputPath n) ->
               Verify.texts d' !! q = Verify.texts d !! q) /\
    ((exists report tail,
         rest = Verify.WriteReport reportPath report :: tail /\
         Forall (fun e => exists line, e = Verify.Log line) tail /\
         Verify.totalFiles report
         = length (List.filter Verify.selected listing) /\
         Verify.deletedFiles report = gone /\
         Verify.texts d' !! reportPath = Some (stringify report))
     \/
     (exists line,
         rest = [Verify.LogError line] /\
         Verify.texts d' !! reportPath
         = if existsb (String.eqb "verification_report.json") gone
           then None else Verify.texts d !! reportPath)).
Proof.
  intros d' reportPath. unfold d', Verify.verifyCodes.
  destruct (check_files_run inputPath codes deleteFlag
              (List.filter Verify.selected listing) Verify.zero d)
    as (gone & Heff & _ & Hframe & Hgone & Hdiv & _ & _ & Hdel).
  cbn zeta in *. fold Verify.zero. fold reportPath.
  assert (Hwho : Forall (fun n =>
              deleteFlag = true /\ In n listing /\ Verify.selected n = true /\
              (exists text,
                  Verify.texts d !! path_join inputPath n = Some text /\
                  Verify.relevant_text codes text = false)) gone).
  { eapply Forall_impl; [exact Hgone|].
    intros n ([Hin Hsel]%filter_In & Hflag & Hirr & _).
    repeat split; try done.
    unfold Verify.irrelevant_file in Hirr.
    destruct (Verify.texts d !! path_join inputPath n) as [text|]; [|done].
    exists text. split; [done|]. by apply negb_true_iff. }
  destruct (Verify.check_files inputPath codes deleteFlag
              (List.filter Verify.selected listing) Verify.zero d)
    as [[t|e|] d1]; [| |done]; cbn [fst snd] in *.
  - exists gone. eexists. cbn [Verify.effects Verify.texts].
    split; [by rewrite Heff, <- app_assoc|].
    split.
    { unfold Verify.closing. by destruct deleteFlag; repeat constructor. }
    split.
    { apply Forall_forall. intros n Hn%list_elem_of_In.
      pose proof (proj1 (Forall_forall _ _) Hwho n
                    (proj2 (list_elem_of_In _ _) Hn)) as (? & ? & ? & ?).
      pose proof (proj1 (Forall_forall _ _) Hgone n
                    (proj2 (list_elem_of_In _ _) Hn)) as (_ & _ & _ & Hnone).
      repeat split; try done.
      intros Hname. rewrite lookup_insert_ne; [done|].
      unfold reportPath. intros Heq%path_join_inj. by subst n. }
    split.
    { intros q Hq Hfar. rewrite lookup_insert_ne; [|done]. by apply Hframe. }
    left. eexists. eexists. split; [reflexivity|].
    split.
    { unfold Verify.closing.
      destruct deleteFlag; cbn; repeat constructor; by eexists. }
    split; [done|]. split; [by apply (Hdel t)|].
    by rewrite lookup_insert_eq.
  - exists gone. eexists. cbn [Verify.effects Verify.texts Verify.say].
    split; [by rewrite Heff, <- app_assoc|].
    split; [by repeat constructor|].
    split.
    { apply Forall_forall. intros n Hn%list_elem_of_In.
      pose proof (proj1 (Forall_forall _ _) Hwho n
                    (proj2 (list_elem_of_In _ _) Hn)) as (? & ? & ? & ?).
      pose proof (proj1 (Forall_forall _ _) Hgone n
                    (proj2 (list_elem_of_In _ _) Hn)) as (_ & _ & _ & Hnone).
      by repeat split. }
    split; [by intros q _ Hfar; apply Hframe|].
    right. eexists. split; [reflexivity|].
    destruct (existsb (String.eqb "verification_report.json") gone) eqn:Hex.
    + apply existsb_exists in Hex as (n & Hn & Hname%String.eqb_eq).
      subst n.
      by pose proof (proj1 (Forall_forall _ _) Hgone _
                       (proj2 (list_elem_of_In _ _) Hn)) as (_ & _ & _ & Hnone).
    + apply Hframe. intros n Hn Heq%path_join_inj.
      assert (existsb (String.eqb "verification_report.json") gone = true)
        as Htrue; [|congruence].
      apply existsb_exists. exists n. split; [done|]. by apply String.eqb_eq.
Qed.




Lemma split_lines_one text :
  Verify.includes text Verify.newline = false ->
  Verify.split_lines text = [text].
Proof.
  induction text as [|c text IH]; [done|].
  unfold Verify.newline in *.
  cbn [Verify.includes Verify.split_lines Verify.startsWith].
  rewrite (Ascii.eqb_sym c).
  destruct (Ascii.eqb "010" c); [by destruct text|].
  cbn [andb orb]. intros H. by rewrite (IH H).
Qed.

Lemma includes_empty s : Verify.includes "" s = true -> s = "".
Proof. by destruct s. Qed.

(** A text in which no pair of a code and a system can count. *)
Lemma relevant_text_never codes text :
  codes = [] \/
  ((forall c, In c codes -> snd c <> "") /\
   Verify.includes text Verify.newline = false) ->
  Verify.relevant_text codes text = false.
Proof.
  unfold Verify.relevant_text. intros [->|[Hsys Hone]].
  - induction (Verify.numbered (Verify.split_lines text)) as [|il l IH];
      [done|exact IH].
  - rewrite (split_lines_one _ Hone).
    change (Verify.numbered [text]) with [(0, text)].
    cbn [existsb fst snd]. rewrite orb_false_r.
    induction codes as [|c codes IH]; [done|]. cbn [existsb].
    rewrite IH; [|intros x Hx; apply Hsys; by right].
    change (Verify.hit [text] 0 text c)
      with (Verify.includes text (fst c)
            && (Verify.includes "" (snd c) || Verify.includes "" (snd c))).
    assert (Verify.includes "" (snd c) = false) as ->.
    { destruct (Verify.includes "" (snd c)) eqn:E; [|done].
      apply includes_empty in E. by destruct (Hsys c (or_introl eq_refl)). }
    by rewrite andb_false_r.
Qed.

Lemma filter_all {A} (p : A -> bool) (l : list A) :
  (forall x, In x l -> p x = true) -> List.filter p l = l.
Proof.
  induction l as [|x l IH]; intros H; [done|]. cbn.
  rewrite (H x (or_introl eq_refl)), IH; [done|].
  intros y Hy. apply H. by right.
Qed.

Lemma filter_none_of {A} (p : A -> bool) (l : list A) :
  (forall x, In x l -> p x = false) -> List.filter p l = [].
Proof.
  induction l as [|x l IH]; intros H; [done|]. cbn.
  rewrite (H x (or_introl eq_refl)), IH; [done|].
  intros y Hy. apply H. by right.
Qed.

(** X16. With [--delete], a run in which no code can be found deletes
    every selected file: this is so when the set of codes is empty (a CSV
    file from which no row was accepted), and when every selected file is
    a single line of text (the line above and the line below are then
    empty, and a system is never found in them). The report counts no
    relevant file. *)
Theorem verifyCodes_deletes_all inputPath listing codes time stringify d :
  NoDup listing ->
  (forall name, In name listing -> Verify.selected name = true ->
     is_Some (Verify.texts d !! path_join inputPath name)) ->
  codes = [] \/
  ((forall c, In c codes -> snd c <> "") /\
   (forall name text,
       In name listing ->
       Verify.texts d !! path_join inputPath name = Some text ->
       Verify.includes text Verify.newline = false)) ->
  let names := List.filter Verify.selected listing in
  let t := {| Verify.relevant := 0; Verify.irrelevant := length names;
              Verify.deleted := names; Verify.found_in := [] |} in
  let reportPath := path_join inputPath "verification_report.json" in
  Verify.effects
    (Verify.verifyCodes inputPath listing codes true time stringify d)
  = (Verify.effects d
     ++ map (fun n => Verify.Unlink (path_join inputPath n)) names
     ++ [Verify.WriteReport reportPath (Verify.mkReport (length names) t time)]
     ++ Verify.closing (length names) t true time reportPath)%list.
Proof.
  intros Hnodup Hread Hnever names t reportPath.
  assert (forall n, In n names ->
            Verify.relevant_file inputPath codes (Verify.texts d) n = false /\
            Verify.irrelevant_file inputPath codes (Verify.texts d) n = true)
    as Hirr.
  { intros n [Hin Hsel]%filter_In.
    unfold Verify.relevant_file, Verify.irrelevant_file.
    destruct (Hread n Hin Hsel) as [text Htext]. rewrite Htext.
    rewrite relevant_text_never; [done|].
    destruct Hnever as [->|[Hsys Hone]]; [by left|right].
    split; [done|]. by apply (Hone n). }
  unfold Verify.verifyCodes. fold names.
  rewrite (check_files_ok inputPath codes true (Verify.texts d)).
  - rewrite (filter_none_of
               (Verify.relevant_file inputPath codes (Verify.texts d)) names)
      by (intros n Hn; by destruct (Hirr n Hn)).
    rewrite (filter_all
               (Verify.irrelevant_file inputPath codes (Verify.texts d)) names)
      by (intros n Hn; by destruct (Hirr n Hn)).
    cbn. by rewrite <- app_assoc.
  - unfold names. by apply NoDup_ListNoDup, List.NoDup_filter, NoDup_ListNoDup.
  - intros n [Hin Hsel]%filter_In. split; [by apply Hread|done].
Qed.

Lemma verifyCodes_deletes_all_witness :
  take 2 (Verify.effects
            (Verify.verifyCodes "/data" Verify.sample_listing [] true "0.01"
               Verify.sample_stringify Verify.sample_disk))
  = [Verify.Unlink "/data/a.json"; Verify.Unlink "/data/b.json"].
Proof.
  pose proof (verifyCodes_deletes_all "/data" Verify.sample_listing [] "0.01"
                Verify.sample_stringify Verify.sample_disk) as H.
  cbn zeta in H.
  specialize (H ltac:(compute_done)).
  assert (forall name, In name Verify.sample_listing ->
            Verify.selected name = true ->
            is_Some (Verify.texts Verify.sample_disk !! path_join "/data" name))
    as Hread.
  { intros name [<-|[<-|[<-|[<-|[]]]]] Hsel; try discriminate;
      vm_compute; eauto. }
  specialize (H Hread (or_introl eq_refl)).
  rewrite H. reflexivity.
Defined.
(** * The [synthea-upload] command *)

Section SyntheaProofs.
Context {Json : Type}.
Variable json_ext : string -> bool.
Variable JSON_parse : string -> Result Json.
Variable server : list (Synthea.effect Json) -> string -> Json -> Synthea.Reply.
Variable texts : gmap string string.

Local Abbreviation uploadResource dry :=
  (Synthea.uploadResource Json JSON_parse server texts dry).
Local Abbreviation uploadResources dry :=
  (Synthea.uploadResources Json JSON_parse server texts dry).
Local Abbreviation body_of := (Synthea.body_of Json JSON_parse texts).
Local Abbreviation requests := (Synthea.requests Json).

Lemma omap_cons_eq {A B} (f : A -> option B) (x : A) (l : list A) :
  omap f (x :: l)
  = match f x with Some y => y :: omap f l | None => omap f l end.
Proof. done. Qed.

Lemma requests_app (tr1 tr2 : list (Synthea.effect Json)) :
  requests (tr1 ++ tr2) = (requests tr1 ++ requests tr2)%list.
Proof. unfold Synthea.requests. apply omap_app. Qed.

(** The three arrays are the three kinds of files, each in the order of
    the listing. *)
Lemma classify_filter files :
  forall g,
    foldl Synthea.classify g files
    = {| Synthea.hospitals :=
           (Synthea.hospitals g ++ List.filter Synthea.is_hospital files)%list;
         Synthea.pratitioners :=
           (Synthea.pratitioners g
            ++ List.filter Synthea.is_practitioner files)%list;
         Synthea.patients :=
           (Synthea.patients g ++ List.filter Synthea.is_patient files)%list |}.
Proof.
  induction files as [|f files IH]; intros g.
  - cbn. rewrite !app_nil_r. by destruct g.
  - cbn [foldl List.filter]. rewrite IH.
    unfold Synthea.classify, Synthea.is_hospital, Synthea.is_practitioner,
      Synthea.is_patient.
    destruct (Synthea.startsWith f "hospitalInformation");
      [|destruct (Synthea.startsWith f "practitionerInformation")];
      cbn; by rewrite <- ?app_assoc.
Qed.

(** One file that can be read and parsed: whatever the server answers,
    the upload comes to an end without an error. *)
Lemma uploadResource_good dry name directory url json tr :
  body_of directory name = Some json ->
  exists new,
    uploadResource dry name directory url tr = (Ok tt, (tr ++ new)%list) /\
    requests new = if dry then [] else [(url, json)].
Proof.
  unfold Synthea.body_of, Synthea.uploadResource, Synthea.andThen,
    Synthea.readJson.
  destruct (texts !! path_join directory name) as [raw|]; [|done].
  destruct (JSON_parse raw) as [j| |]; try done. intros [= ->].
  destruct dry.
  - eexists. by split.
  - destruct (server tr url json); unfold Synthea.say; cbn;
      rewrite <- ?app_assoc; eexists; by split.
Qed.

(** One file that cannot be read or parsed: nothing is sent. *)
Lemma uploadResource_bad dry name directory url tr :
  body_of directory name = None ->
  fst (uploadResource dry name directory url tr) <> Ok tt /\
  snd (uploadResource dry name directory url tr) = tr.
Proof.
  unfold Synthea.body_of, Synthea.uploadResource, Synthea.andThen,
    Synthea.readJson.
  destruct (texts !! path_join directory name) as [raw|]; [|done].
  by destruct (JSON_parse raw) as [j| |].
Qed.

Lemma uploadResources_good dry directory url names :
  Forall (fun n => n <> "") names ->
  Forall (fun n => is_Some (body_of directory n)) names ->
  forall tr,
    exists new,
      uploadResources dry names directory url tr = (Ok tt, (tr ++ new)%list) /\
      requests new
      = if dry then []
        else omap (fun n => pair url <$> body_of directory n) names.
Proof.
  induction names as [|n names IH]; intros Hne Hgood tr.
  - exists []. cbn. rewrite app_nil_r. split; [done|]. by destruct dry.
  - apply Forall_cons in Hne as [Hn Hne].
    apply Forall_cons in Hgood as [[json Hjson] Hgood].
    cbn [Synthea.uploadResources].
    assert (truthy (Some n) = true) as ->
      by (unfold truthy; by destruct (String.eqb_spec n "")).
    unfold Synthea.andThen.
    destruct (uploadResource_good dry n directory url json tr Hjson)
      as (new1 & -> & Hreq1).
    destruct names as [|n' names'].
    + cbn [length Nat.ltb Nat.leb]. exists new1. split; [done|].
      rewrite Hreq1, omap_cons_eq. cbv beta. rewrite Hjson. by destruct dry.
    + cbn [length Nat.ltb Nat.leb].
      destruct (IH Hne Hgood (tr ++ new1)%list) as (new2 & -> & Hreq2).
      exists (new1 ++ new2)%list. rewrite <- app_assoc. split; [done|].
      rewrite requests_app, Hreq1, Hreq2, (omap_cons_eq _ n). cbv beta.
      rewrite Hjson. by destruct dry.
Qed.

(** The chain stops at the first file that cannot be read or parsed. *)
Lemma uploadResources_bad dry directory url pre bad post :
  Forall (fun n => n <> "") pre -> bad <> "" ->
  Forall (fun n => is_Some (body_of directory n)) pre ->
  body_of directory bad = None ->
  forall tr,
    exists new,
      fst (uploadResources dry (pre ++ bad :: post) directory url tr) <> Ok tt /\
      snd (uploadResources dry (pre ++ bad :: post) directory url tr)
      = (tr ++ new)%list /\
      requests new
      = if dry then []
        else omap (fun n => pair url <$> body_of directory n) pre.
Proof.
  intros Hne Hbad Hgood Hnone.
  induction pre as [|n pre IH]; intros tr.
  - exists []. cbn [app Synthea.uploadResources].
    assert (truthy (Some bad) = true) as ->
      by (unfold truthy; by destruct (String.eqb_spec bad "")).
    unfold Synthea.andThen.
    destruct (uploadResource_bad dry bad directory url tr Hnone) as [Hr Htr].
    destruct (uploadResource dry bad directory url tr) as [[[]|e|] tr'];
      cbn in *; subst tr'; rewrite app_nil_r; try done;
      by destruct dry.
  - apply Forall_cons in Hne as [Hn Hne].
    apply Forall_cons in Hgood as [[json Hjson] Hgood].
    cbn [app Synthea.uploadResources].
    assert (truthy (Some n) = true) as ->
      by (unfold truthy; by destruct (String.eqb_spec n "")).
    unfold Synthea.andThen.
    destruct (uploadResource_good dry n directory url json tr Hjson)
      as (new1 & -> & Hreq1).
    assert ((0 <? length (pre ++ bad :: post))%nat = true) as ->.
    { apply Nat.ltb_lt. rewrite length_app. cbn [length]. lia. }
    destruct (IH Hne Hgood (tr ++ new1)%list) as (new2 & Hr & -> & Hreq2).
    exists (new1 ++ new2)%list. rewrite <- app_assoc.
    split; [done|]. split; [done|].
    rewrite requests_app, Hreq1, Hreq2, (omap_cons_eq _ n). cbv beta.
    rewrite Hjson. by destruct dry.
Qed.

Lemma andThen_ext {A B} (c : Synthea.Run Json A)
    (k1 k2 : A -> Synthea.Run Json B) tr :
  (forall a tr', k1 a tr' = k2 a tr') ->
  Synthea.andThen Json c k1 tr = Synthea.andThen Json c k2 tr.
Proof.
  intros H. unfold Synthea.andThen. by destruct (c tr) as [[a|e|] tr'].
Qed.

(** Uploading two lists one after the other is uploading them as one. *)
Lemma uploadResources_app dry directory url a b
    (k : unit -> Synthea.Run Json unit) :
  Forall (fun n => n <> "") a ->
  forall tr,
    Synthea.andThen Json (uploadResources dry a directory url)
      (fun _ => Synthea.andThen Json (uploadResources dry b directory url) k)
      tr
    = Synthea.andThen Json (uploadResources dry (a ++ b) directory url) k tr.
Proof.
  intros Hne. induction a as [|n a IH]; intros tr; [done|].
  apply Forall_cons in Hne as [Hn Hne].
  cbn [app Synthea.uploadResources].
  assert (truthy (Some n) = true) as ->
    by (unfold truthy; by destruct (String.eqb_spec n "")).
  unfold Synthea.andThen at 1 2 4 5.
  destruct (uploadResource dry n directory url tr) as [[[]|e|] tr1]; try done.
  destruct a as [|n' a'].
  - cbn [app length Nat.ltb Nat.leb].
    destruct b as [|m b']; [done|]. reflexivity.
  - specialize (IH Hne tr1). cbn [app length Nat.ltb Nat.leb] in *.
    exact IH.
Qed.

Lemma filter_three (l : list string) :
  Permutation
    (List.filter Synthea.is_hospital l ++ List.filter Synthea.is_practitioner l
     ++ List.filter Synthea.is_patient l)
    l.
Proof.
  induction l as [|f l IH]; [done|]. cbn [List.filter].
  unfold Synthea.is_hospital at 1, Synthea.is_practitioner at 1,
    Synthea.is_patient at 1.
  destruct (Synthea.startsWith f "hospitalInformation");
    [|destruct (Synthea.startsWith f "practitionerInformation")];
    cbn [negb andb].
  - cbn. by constructor.
  - cbn [app]. rewrite <- Permutation_middle. by constructor.
  - rewrite app_assoc, <- Permutation_middle, <- app_assoc. by constructor.
Qed.

(** The chain of the three uploads is the upload of the files in their
    upload order, followed by the last line. *)
Lemma synthea_upload_chain dry sDirectory fhirUrl listing tr :
  Forall (fun n => n <> "") listing ->
  Synthea.synthea_upload Json json_ext JSON_parse server texts dry
    sDirectory fhirUrl listing tr
  = Synthea.andThen Json
      (uploadResources dry (Synthea.upload_order json_ext listing)
         sDirectory fhirUrl)
      (fun _ => Synthea.say Json (Synthea.Log ["Done"]))
      (tr ++ (if dry
              then [Synthea.Log
                      ["Dry run enabled. No resources will be uploaded."]]
              else [])
          ++ [Synthea.Log ["Uploading Synthea-generated FHIR resources from "
                           +:+ sDirectory +:+ " to " +:+ fhirUrl]])%list.
Proof.
  intros Hne. unfold Synthea.synthea_upload, Synthea.upload_order.
  rewrite classify_filter. cbn [Synthea.hospitals Synthea.pratitioners
                                  Synthea.patients app].
  set (files := List.filter json_ext listing).
  assert (forall p, Forall (fun n => n <> "") (List.filter p files)) as Hf.
  { intros p. apply Forall_forall. intros n Hn%list_elem_of_In.
    apply filter_In in Hn as [Hn _]. apply filter_In in Hn as [Hn _].
    rewrite Forall_forall in Hne. by apply Hne, list_elem_of_In. }
  set (start := (tr ++ _ ++ _)%list).
  assert (forall k : unit -> Synthea.Run Json unit,
            Synthea.andThen Json
              (if dry
               then Synthea.say Json
                      (Synthea.Log
                         ["Dry run enabled. No resources will be uploaded."])
               else fun tr => (Ok tt, tr))
              (fun _ =>
                 Synthea.andThen Json
                   (Synthea.say Json
                      (Synthea.Log
                         ["Uploading Synthea-generated FHIR resources from "
                          +:+ sDirectory +:+ " to " +:+ fhirUrl])) k) tr
            = k tt start) as ->.
  { intros k. unfold start, Synthea.andThen, Synthea.say.
    destruct dry; cbn; by rewrite <- ?app_assoc. }
  rewrite <- (uploadResources_app dry sDirectory fhirUrl _ _ _ (Hf _)).
  apply andThen_ext. intros _ tr1.
  by rewrite (uploadResources_app dry sDirectory fhirUrl _ _ _ (Hf _)).
Qed.

(** X17. When every [.json] file of the directory can be read and
    parsed, [synthea-upload] posts each of them once to the given URL:
    first the hospital files, then the practitioner files, then all the
    others, each group in the order of the listing. Whatever the server
    answers (a refusal, a network error), the run goes on to the next
    file and ends with the line [Done]; in a dry run no request is
    made. *)
Theorem synthea_upload_order dry sDirectory fhirUrl listing tr :
  Forall (fun n => n <> "") listing ->
  Forall (fun n => is_Some (body_of sDirectory n))
    (List.filter json_ext listing) ->
  let order := Synthea.upload_order json_ext listing in
  Permutation order (List.filter json_ext listing) /\
  exists new,
    Synthea.synthea_upload Json json_ext JSON_parse server texts dry
      sDirectory fhirUrl listing tr
    = (Ok tt, (tr ++ new ++ [Synthea.Log ["Done"]])%list) /\
    requests new
    = if dry then []
      else omap (fun n => pair fhirUrl <$> body_of sDirectory n) order.
Proof.
  intros Hne Hgood order.
  assert (Permutation order (List.filter json_ext listing)) as Hperm
    by apply filter_three.
  split; [exact Hperm|].
  rewrite synthea_upload_chain by done. fold order.
  match goal with |- context [(tr ++ ?h)%list] => set (hdr := h) end.
  set (start := (tr ++ hdr)%list).
  assert (requests hdr = []) as Hhdr by (unfold hdr; by destruct dry).
  assert (Forall (fun n => n <> "") order) as Hne'.
  { apply Forall_forall. intros n Hn.
    rewrite Forall_forall in Hne. apply Hne.
    rewrite Hperm in Hn. apply list_elem_of_In in Hn.
    apply filter_In in Hn as [Hn _]. by apply list_elem_of_In. }
  assert (Forall (fun n => is_Some (body_of sDirectory n)) order) as Hgood'
    by by rewrite Hperm.
  destruct (uploadResources_good dry sDirectory fhirUrl order Hne' Hgood' start)
    as (new & Hrun & Hreq).
  unfold Synthea.andThen. rewrite Hrun. unfold Synthea.say, start.
  exists (hdr ++ new)%list. split.
  - by rewrite <- !app_assoc.
  - by rewrite requests_app, Hhdr, Hreq.
Qed.

Lemma uploadResources_dry directory url names :
  forall tr,
    requests (snd (uploadResources true names directory url tr)) = requests tr.
Proof.
  induction names as [|n names IH]; intros tr; [done|].
  cbn [Synthea.uploadResources]. destruct (truthy (Some n)); [|done].
  unfold Synthea.andThen at 1.
  assert (exists tr1,
            snd (uploadResource true n directory url tr) = tr1 /\
            requests tr1 = requests tr) as (tr1 & Htr1 & Hreq).
  { unfold Synthea.uploadResource, Synthea.andThen, Synthea.readJson.
    destruct (texts !! path_join directory n) as [raw|]; [|by eexists].
    destruct (JSON_parse raw); eexists; (split; [done|]); [|done..].
    unfold Synthea.say. cbn [snd]. rewrite requests_app. cbn.
    by rewrite app_nil_r. }
  destruct (uploadResource true n directory url tr) as [[[]|e|] tr1'];
    cbn in Htr1; subst tr1'; try done.
  destruct (0 <? length names)%nat; [|done]. by rewrite IH.
Qed.

(** X18. A dry run of [synthea-upload] sends nothing, whatever the
    directory holds. (It still reads and parses the files.) *)
Theorem synthea_upload_dry_run sDirectory fhirUrl listing tr :
  requests
    (snd (Synthea.synthea_upload Json json_ext JSON_parse server texts true
            sDirectory fhirUrl listing tr))
  = requests tr.
Proof.
  unfold Synthea.synthea_upload.
  set (g := foldl Synthea.classify _ _).
  unfold Synthea.andThen, Synthea.say.
  pose proof (uploadResources_dry sDirectory fhirUrl (Synthea.hospitals g))
    as H1.
  pose proof (uploadResources_dry sDirectory fhirUrl (Synthea.pratitioners g))
    as H2.
  pose proof (uploadResources_dry sDirectory fhirUrl (Synthea.patients g))
    as H3.
  match goal with
  | |- context [uploadResources true (Synthea.hospitals g) _ _ ?t] =>
      specialize (H1 t);
      destruct (uploadResources true (Synthea.hospitals g) sDirectory fhirUrl t)
        as [[[]|e|] tr1]
  end; cbn [snd] in *; rewrite ?H1, ?requests_app, ?app_nil_r; try done.
  specialize (H2 tr1).
  destruct (uploadResources true (Synthea.pratitioners g) sDirectory fhirUrl
              tr1) as [[[]|e|] tr2];
    cbn [snd] in *; rewrite ?H2, ?H1, ?requests_app, ?app_nil_r; try done.
  specialize (H3 tr2).
  destruct (uploadResources true (Synthea.patients g) sDirectory fhirUrl tr2)
    as [[[]|e|] tr3];
    cbn [snd] in *;
    rewrite ?requests_app, ?H3, ?H2, ?H1, ?requests_app, ?app_nil_r; done.
Qed.

(** X19. A file that cannot be read or parsed ends the upload: the
    files before it in the upload order have been posted, the file itself
    and all the files after it are not, and the run does not come to its
    end. *)
Theorem synthea_upload_stops_at_bad_file
    dry sDirectory fhirUrl listing tr pre bad post :
  Forall (fun n => n <> "") listing ->
  Synthea.upload_order json_ext listing = (pre ++ bad :: post)%list ->
  Forall (fun n => is_Some (body_of sDirectory n)) pre ->
  body_of sDirectory bad = None ->
  let run := Synthea.synthea_upload Json json_ext JSON_parse server texts dry
               sDirectory fhirUrl listing tr in
  fst run <> Ok tt /\
  exists new,
    snd run = (tr ++ new)%list /\
    requests new
    = if dry then []
      else omap (fun n => pair fhirUrl <$> body_of sDirectory n) pre.
Proof.
  intros Hne Horder Hgood Hnone run. unfold run.
  rewrite synthea_upload_chain by done. rewrite Horder.
  match goal with |- context [(tr ++ ?h)%list] => set (hdr := h) end.
  set (start := (tr ++ hdr)%list).
  assert (requests hdr = []) as Hhdr by (unfold hdr; by destruct dry).
  assert (Forall (fun n => n <> "") (pre ++ bad :: post)) as Hne'.
  { rewrite <- Horder. apply Forall_forall. intros n Hn%list_elem_of_In.
    unfold Synthea.upload_order in Hn.
    rewrite Forall_forall in Hne. apply Hne, list_elem_of_In.
    assert (In n (List.filter json_ext listing)) as Hin.
    { apply (Permutation_in _ (filter_three _)), Hn. }
    by apply filter_In in Hin as [Hin _]. }
  apply Forall_app in Hne' as [Hpre Hbad].
  apply Forall_cons in Hbad as [Hbad _].
  destruct (uploadResources_bad dry sDirectory fhirUrl pre bad post
              Hpre Hbad Hgood Hnone start) as (new & Hr & Htr & Hreq).
  unfold Synthea.andThen.
  destruct (uploadResources dry (pre ++ bad :: post) sDirectory fhirUrl start)
    as [[[]|e|] tr1]; cbn [fst snd] in *; try done.
  - split; [done|]. subst tr1. unfold start. exists (hdr ++ new)%list.
    split; [by rewrite <- !app_assoc|].
    by rewrite requests_app, Hhdr, Hreq.
  - split; [done|]. subst tr1. unfold start. exists (hdr ++ new)%list.
    split; [by rewrite <- !app_assoc|].
    by rewrite requests_app, Hhdr, Hreq.
Qed.

End SyntheaProofs.

Lemma synthea_upload_order_witness :
  let run :=
    Synthea.synthea_upload string Synthea.sample_ext Synthea.sample_parse
      Synthea.refusing Synthea.sample_texts false "/out/fhir"
      "http://localhost:8080/fhir"
      ["Abe_Smith.json"; "hospitalInformation1.json";
       "practitionerInformation1.json"; "README.txt"] [] in
  fst run = Ok tt /\
  Synthea.requests string (snd run)
  = [("http://localhost:8080/fhir", "{hospitals}");
     ("http://localhost:8080/fhir", "{practitioners}");
     ("http://localhost:8080/fhir", "{patient}")].
Proof.
  intros run.
  destruct (synthea_upload_order Synthea.sample_ext Synthea.sample_parse
              Synthea.refusing Synthea.sample_texts false "/out/fhir"
              "http://localhost:8080/fhir"
              ["Abe_Smith.json"; "hospitalInformation1.json";
               "practitionerInformation1.json"; "README.txt"] [])
    as [_ (new & Hrun & Hreq)].
  - by repeat constructor.
  - repeat constructor; vm_compute; eauto.
  - unfold run. rewrite Hrun. split; [done|]. cbn [snd app].
    rewrite requests_app, Hreq. vm_compute. reflexivity.
Defined.

Lemma synthea_upload_stops_at_bad_file_witness :
  let run :=
    Synthea.synthea_upload string Synthea.sample_ext Synthea.sample_parse
      Synthea.refusing Synthea.sample_texts false "/out/fhir"
      "http://localhost:8080/fhir"
      ["broken.json"; "Abe_Smith.json"; "hospitalInformation1.json";
       "practitionerInformation1.json"] [] in
  fst run <> Ok tt /\
  Synthea.requests string (snd run)
  = [("http://localhost:8080/fhir", "{hospitals}");
     ("http://localhost:8080/fhir", "{practitioners}")].
Proof.
  intros run.
  destruct (synthea_upload_stops_at_bad_file Synthea.sample_ext
              Synthea.sample_parse Synthea.refusing Synthea.sample_texts false
              "/out/fhir" "http://localhost:8080/fhir"
              ["broken.json"; "Abe_Smith.json"; "hospitalInformation1.json";
               "practitionerInformation1.json"] []
              ["hospitalInformation1.json"; "practitionerInformation1.json"]
              "broken.json" ["Abe_Smith.json"])
    as [Hr (new & Htr & Hreq)].
  - by repeat constructor.
  - vm_compute. reflexivity.
  - repeat constructor; vm_compute; eauto.
  - vm_compute. reflexivity.
  - fold run in Hr, Htr. split; [exact Hr|]. rewrite Htr. cbn [app].
    rewrite Hreq. vm_compute. reflexivity.
Defined.
(** * [firstFirstPatientId] *)

Lemma visit_fold entries :
  forall found,
    foldl PatientBundle.visit found entries
    = match last (omap PatientBundle.patient_id entries) with
      | Some x => Some x
      | None => found
      end.
Proof.
  induction entries as [|e entries IH]; intros found; [done|].
  cbn [foldl]. rewrite IH, omap_cons_eq.
  unfold PatientBundle.visit, PatientBundle.patient_id at 2.
  destruct (PatientBundle.resource e) as [r|]; [|done].
  destruct (String.eqb (PatientBundle.resourceType r) "Patient"
            && truthy (PatientBundle.id r)) eqn:E; [|done].
  destruct (PatientBundle.id r) as [x|] eqn:Hid.
  - rewrite last_cons. by destruct (last _).
  - by rewrite andb_false_r in E.
Qed.

(** X20. [firstFirstPatientId] returns the identifier of the last
    patient of the bundle, not of the first: each patient entry with a
    non-empty [id] overwrites the one found before. It returns [null]
    exactly when the bundle has no such entry. *)
Theorem firstFirstPatientId_is_last bundle :
  PatientBundle.firstFirstPatientId bundle
  = last (PatientBundle.patient_ids bundle) /\
  (PatientBundle.firstFirstPatientId bundle = None <->
   PatientBundle.patient_ids bundle = []).
Proof.
  assert (PatientBundle.firstFirstPatientId bundle
          = last (PatientBundle.patient_ids bundle)) as H.
  { unfold PatientBundle.firstFirstPatientId.
    destruct bundle as [[entries|]]; [|done].
    unfold PatientBundle.patient_ids.
    change (default [] (PatientBundle.entry
                          {| PatientBundle.entry := Some entries |}))
      with entries.
    rewrite visit_fold. by destruct (last _). }
  split; [exact H|]. rewrite H. apply last_None.
Qed.
